(** * logseq_to_org_roam: the converter of Logseq markdown to org-roam, verified

    A shallow embedding of [logseq_to_org_roam.py] (class
    [LogseqToOrgRoamConverter]) and the properties of its reference
    resolution and markup rewriting.

    Conventions of the embedding:
    - a Python [str] is a [list ascii]; a character is a code point below
      256 (the Latin-1 range), classified as Python classifies it;
    - a regular expression of the source is a term of [regex], run by a
      backtracking matcher with the priorities of Python's [re] (leftmost
      match, alternatives in order, greedy and lazy repetition);
    - the converter object is a record [conv] threaded through the methods;
      [uuid.uuid4()] is the next element of a stream of identifiers;
    - the file system is a pair of lists of named texts for the input and a
      finite map from paths to texts for the output; reads and writes do not
      fail. *)

From Stdlib Require Import Ascii String List Arith Bool Lia DecimalString DecimalNat.
From stdpp Require Import gmap strings list.

Open Scope string_scope.
Open Scope list_scope.
Open Scope nat_scope.

(** ** Text *)

Abbreviation str := (list ascii) (only parsing).

Coercion list_ascii_of_string : string >-> list.

Definition code (c : ascii) : nat := nat_of_ascii c.

Definition between (lo hi : nat) (c : ascii) : bool :=
  (lo <=? code c) && (code c <=? hi).

(** [str.isspace] on one character: the ASCII controls 9-13 and 28-31,
    the space, NEL (0x85) and the no-break space (0xA0). *)
Definition is_space (c : ascii) : bool :=
  between 9 13 c || between 28 32 c || (code c =? 133) || (code c =? 160).

(** The decimal digits ([\d]). *)
Definition is_digit (c : ascii) : bool := between 48 57 c.

(** [\w]: the characters for which [str.isalnum] holds, and the underscore. *)
Definition is_word (c : ascii) : bool :=
  between 48 57 c || between 65 90 c || between 97 122 c || (code c =? 95)
  || (code c =? 170) || (code c =? 178) || (code c =? 179) || (code c =? 181)
  || (code c =? 185) || (code c =? 186) || between 188 190 c
  || between 192 214 c || between 216 246 c || between 248 255 c.

Definition newline : ascii := ascii_of_nat 10.
Definition tab : ascii := ascii_of_nat 9.
Definition nl : list ascii := [newline].
Definition dquote : ascii := ascii_of_nat 34.

Definition lower_char (c : ascii) : ascii :=
  if between 65 90 c then ascii_of_nat (code c + 32) else c.

Definition upper_char (c : ascii) : ascii :=
  if between 97 122 c then ascii_of_nat (code c - 32) else c.

(** [str.lower] and [str.upper], on the letters of ASCII. *)
Definition lower (s : str) : str := map lower_char s.
Definition upper (s : str) : str := map upper_char s.

Definition str_eqb (a b : str) : bool := bool_decide (a = b).

(** [s.startswith(p)] *)
Fixpoint startswith (p s : str) : bool :=
  match p, s with
  | [], _ => true
  | a :: p', b :: s' => Ascii.eqb a b && startswith p' s'
  | _ :: _, [] => false
  end.

(** [s.lstrip()], [s.rstrip()], [s.strip()] *)
Fixpoint lstrip (s : str) : str :=
  match s with
  | c :: s' => if is_space c then lstrip s' else s
  | [] => []
  end.

Fixpoint rstrip (s : str) : str :=
  match s with
  | [] => []
  | c :: s' =>
      match rstrip s' with
      | [] => if is_space c then [] else [c]
      | r => c :: r
      end
  end.

Definition strip (s : str) : str := rstrip (lstrip s).

(** [s.count(c)] for a one-character [c]. *)
Definition count_char (c : ascii) (s : str) : nat :=
  length (List.filter (fun x => Ascii.eqb x c) s).

(** [s.replace(old, new)], for a non-empty [old]: the occurrences of [old]
    are found from the left and do not overlap. [skip] counts the characters
    of the occurrence being replaced that are still to be passed. *)
Fixpoint replace_loop (old new s : str) (skip : nat) : str :=
  match s with
  | [] => []
  | c :: s' =>
      match skip with
      | S k => replace_loop old new s' k
      | 0 => if startswith old s
             then new ++ replace_loop old new s' (length old - 1)
             else c :: replace_loop old new s' 0
      end
  end.

Definition replace (old new s : str) : str := replace_loop old new s 0.

(** [s.split('\n')]: never empty, the last piece is what follows the last
    separator. *)
Fixpoint split_on (sep : ascii) (s : str) : list str :=
  match s with
  | [] => [[]]
  | c :: s' =>
      match split_on sep s' with
      | l :: ls => if Ascii.eqb c sep then [] :: l :: ls else (c :: l) :: ls
      | [] => [[c]]
      end
  end.

(** [sep.join(l)] *)
Fixpoint join (sep : str) (l : list str) : str :=
  match l with
  | [] => []
  | [x] => x
  | x :: l' => x ++ sep ++ join sep l'
  end.

(** ['*' * n] *)
Definition stars (n : nat) : str := repeat "*"%char n.

(** [str(n)] for a non-negative integer. *)
Definition str_of_nat (n : nat) : str :=
  list_ascii_of_string (NilEmpty.string_of_uint (Nat.to_uint n)).

(** ** Regular expressions

    Where a comment quotes an expression of the source, a blank stands
    between a star and a closing parenthesis that follows it. *)

(** The items of a bracketed character set. *)
Inductive citem :=
| IChar (c : ascii)
| IRange (lo hi : ascii)
| ISpace
| INonSpace
| IWord
| IDigit.

(** What matches one character: a literal, the dot, or a set [[...]] or
    [[^...]] ([neg]). [\s], [\w], [\d] are one-item sets. *)
Inductive cset :=
| Lit (c : ascii)
| Dot
| Cls (neg : bool) (items : list citem).

Inductive regex :=
| Eps
| Chr (cs : cset)
| Seq (r1 r2 : regex)
| Alt (r1 r2 : regex)
| Star (greedy : bool) (r : regex)
| Grp (n : nat) (r : regex)
| Bol
| Eol
| Ahead (neg : bool) (r : regex)
| Behind (neg : bool) (r : regex).

(** The flags of [re]. *)
Record flags := { MULTILINE : bool; DOTALL : bool; IGNORECASE : bool }.

Definition no_flags := {| MULTILINE := false; DOTALL := false; IGNORECASE := false |}.
Definition fl_M := {| MULTILINE := true; DOTALL := false; IGNORECASE := false |}.
Definition fl_S := {| MULTILINE := false; DOTALL := true; IGNORECASE := false |}.
Definition fl_MS := {| MULTILINE := true; DOTALL := true; IGNORECASE := false |}.
Definition fl_I := {| MULTILINE := false; DOTALL := false; IGNORECASE := true |}.
Definition fl_MI := {| MULTILINE := true; DOTALL := false; IGNORECASE := true |}.

Definition item_has (i : citem) (c : ascii) : bool :=
  match i with
  | IChar d => Ascii.eqb c d
  | IRange lo hi => between (code lo) (code hi) c
  | ISpace => is_space c
  | INonSpace => negb (is_space c)
  | IWord => is_word c
  | IDigit => is_digit c
  end.

Definition cset_has (fl : flags) (cs : cset) (c : ascii) : bool :=
  match cs with
  | Lit d => Ascii.eqb c d
  | Dot => DOTALL fl || negb (Ascii.eqb c newline)
  | Cls neg items => xorb neg (existsb (fun i => item_has i c) items)
  end.

(** One character against a set; with IGNORECASE the character matches when
    its lower-case or its upper-case form does. *)
Definition cmatch (fl : flags) (cs : cset) (c : ascii) : bool :=
  if IGNORECASE fl
  then cset_has fl cs (lower_char c) || cset_has fl cs (upper_char c)
  else cset_has fl cs c.

(** A position in the subject: the characters before it, nearest first, and
    the characters from it on. *)
Abbreviation pos := (list ascii * list ascii)%type (only parsing).

Definition at_bol (fl : flags) (p : pos) : bool :=
  match fst p with
  | [] => true
  | c :: _ => MULTILINE fl && Ascii.eqb c newline
  end.

Definition at_eol (fl : flags) (p : pos) : bool :=
  match snd p with
  | [] => true
  | c :: rest =>
      Ascii.eqb c newline
      && (MULTILINE fl || match rest with [] => true | _ => false end)
  end.

(** The captured groups: number and text, the latest binding first. *)
Abbreviation caps := (list (nat * list ascii)) (only parsing).

Fixpoint cap_get (n : nat) (cp : caps) : option str :=
  match cp with
  | [] => None
  | (m, s) :: cp' => if n =? m then Some s else cap_get n cp'
  end.

(** The text between two positions of the same subject. *)
Definition consumed (p p' : pos) : str :=
  take (length (snd p) - length (snd p')) (snd p).

(** The width of a lookbehind body. *)
Fixpoint width (r : regex) : nat :=
  match r with
  | Chr _ => 1
  | Seq a b => width a + width b
  | Alt a _ => width a
  | Grp _ a => width a
  | _ => 0
  end.

Definition back (w : nat) (p : pos) : option pos :=
  if w <=? length (fst p)
  then Some (drop w (fst p), rev (take w (fst p)) ++ snd p)
  else None.

(** The repetition of [body], at most [fuel] times; an iteration that
    consumes nothing is abandoned. [greedy] tries one more iteration before
    the continuation [k], lazy tries [k] first. *)
Fixpoint star_loop {R : Type} (greedy : bool)
    (body : pos -> caps -> (pos -> caps -> option R) -> option R)
    (k : pos -> caps -> option R) (fuel : nat) (p : pos) (cp : caps)
    : option R :=
  match fuel with
  | 0 => k p cp
  | S f =>
      if greedy then
        match body p cp (fun p' cp' =>
                if length (snd p') <? length (snd p)
                then star_loop greedy body k f p' cp' else None) with
        | Some x => Some x
        | None => k p cp
        end
      else
        match k p cp with
        | Some x => Some x
        | None =>
            body p cp (fun p' cp' =>
              if length (snd p') <? length (snd p)
              then star_loop greedy body k f p' cp' else None)
        end
  end.

(** The backtracking matcher, in continuation-passing style: [k] is what
    remains to be matched after [r]; the first success in priority order is
    the result. *)
Fixpoint rmatch (fl : flags) (r : regex) {struct r} :
    forall R : Type, pos -> caps -> (pos -> caps -> option R) -> option R :=
  match r with
  | Eps => fun R p cp k => k p cp
  | Chr cs => fun R p cp k =>
      match snd p with
      | c :: s' => if cmatch fl cs c then k (c :: fst p, s') cp else None
      | [] => None
      end
  | Seq a b => fun R p cp k =>
      rmatch fl a R p cp (fun p' cp' => rmatch fl b R p' cp' k)
  | Alt a b => fun R p cp k =>
      match rmatch fl a R p cp k with
      | Some x => Some x
      | None => rmatch fl b R p cp k
      end
  | Star greedy a => fun R p cp k =>
      star_loop greedy (rmatch fl a R) k (length (snd p)) p cp
  | Grp n a => fun R p cp k =>
      rmatch fl a R p cp (fun p' cp' => k p' ((n, consumed p p') :: cp'))
  | Bol => fun R p cp k => if at_bol fl p then k p cp else None
  | Eol => fun R p cp k => if at_eol fl p then k p cp else None
  | Ahead neg a => fun R p cp k =>
      match rmatch fl a caps p cp (fun _ cp' => Some cp') with
      | Some cp' => if neg then None else k p cp'
      | None => if neg then k p cp else None
      end
  | Behind neg a => fun R p cp k =>
      match
        match back (width a) p with
        | Some p0 =>
            rmatch fl a caps p0 cp (fun p' cp' =>
              if length (snd p') =? length (snd p) then Some cp' else None)
        | None => None
        end
      with
      | Some cp' => if neg then None else k p cp'
      | None => if neg then k p cp else None
      end
  end.

(** A match object: [group(0)] and the numbered groups. *)
Record mobj := { m_all : str; m_caps : caps }.

(** [m.group(n)]: [None] for a group that took no part in the match. *)
Definition group (m : mobj) (n : nat) : option str :=
  match n with
  | 0 => Some (m_all m)
  | _ => cap_get n (m_caps m)
  end.

(** [m.group(n)] where the group always takes part. *)
Definition group' (m : mobj) (n : nat) : str :=
  match group m n with Some s => s | None => [] end.

(** A match of [r] that starts at [p]: the match object and its length. *)
Definition match_at (fl : flags) (r : regex) (p : pos) : option mobj :=
  rmatch fl r mobj p [] (fun p' cp =>
    Some {| m_all := consumed p p'; m_caps := cp |}).

(** [re.match(r, s, flags)] *)
Definition re_match (fl : flags) (r : regex) (s : str) : option mobj :=
  match_at fl r ([], s).

(** [re.search(r, s, flags)] *)
Fixpoint search_from (fl : flags) (r : regex) (pre suf : str) : option mobj :=
  match match_at fl r (pre, suf) with
  | Some m => Some m
  | None =>
      match suf with
      | c :: s' => search_from fl r (c :: pre) s'
      | [] => None
      end
  end.

Definition re_search (fl : flags) (r : regex) (s : str) : option mobj :=
  search_from fl r [] s.

(** [re.sub(r, f, s, flags)] with a function [f] that reads and updates a
    state of type [S]: the matches are found from the left, do not overlap,
    and [f] is called on them in that order. [skip] counts the characters of
    the current match still to be passed. An empty match is replaced and the
    scan moves on by one character (no expression of this program matches
    the empty string). *)
Fixpoint sub_loop {S : Type} (fl : flags) (r : regex)
    (f : mobj -> S -> str * S) (pre suf : str) (skip : nat) (st : S)
    : str * S :=
  match skip with
  | S k =>
      match suf with
      | c :: s' => sub_loop fl r f (c :: pre) s' k st
      | [] => ([], st)
      end
  | 0 =>
      match match_at fl r (pre, suf) with
      | Some m =>
          let res := f m st in
          match suf with
          | [] => res
          | c :: s' =>
              match length (m_all m) with
              | 0 =>
                  let out := sub_loop fl r f (c :: pre) s' 0 (snd res) in
                  (fst res ++ c :: fst out, snd out)
              | S k =>
                  let out := sub_loop fl r f (c :: pre) s' k (snd res) in
                  (fst res ++ fst out, snd out)
              end
          end
      | None =>
          match suf with
          | [] => ([], st)
          | c :: s' =>
              let out := sub_loop fl r f (c :: pre) s' 0 st in
              (c :: fst out, snd out)
          end
      end
  end.

Definition re_sub_st {S : Type} (fl : flags) (r : regex)
    (f : mobj -> S -> str * S) (s : str) (st : S) : str * S :=
  sub_loop fl r f [] s 0 st.

(** [re.sub] with a replacement that has no effect. *)
Definition re_sub (fl : flags) (r : regex) (f : mobj -> str) (s : str) : str :=
  fst (re_sub_st fl r (fun m (_ : unit) => (f m, tt)) s tt).

(** [re.finditer(r, s, flags)]: the match objects, from the left. *)
Definition re_finditer (fl : flags) (r : regex) (s : str) : list mobj :=
  snd (re_sub_st fl r (fun m acc => ([], acc ++ [m])) s []).

(** [re.findall(r, s, flags)] for an expression with one group: the text of
    group 1 of every match. *)
Definition re_findall (fl : flags) (r : regex) (s : str) : list str :=
  map (fun m => group' m 1) (re_finditer fl r s).

(** *** Repetition of one character set

    A repetition of a one-character expression, written without fuel:
    [greedy_run] passes the longest run of characters accepted by [ok] and
    then gives characters back one at a time until [k] succeeds; [lazy_run]
    tries [k] first and passes one more character when it fails. *)
Fixpoint greedy_run {R : Type} (ok : ascii -> bool) (k : pos -> option R)
    (pre suf : str) : option R :=
  match suf with
  | c :: s' =>
      if ok c then
        match greedy_run ok k (c :: pre) s' with
        | Some x => Some x
        | None => k (pre, suf)
        end
      else k (pre, suf)
  | [] => k (pre, [])
  end.

Fixpoint lazy_run {R : Type} (ok : ascii -> bool) (k : pos -> option R)
    (pre suf : str) : option R :=
  match k (pre, suf) with
  | Some x => Some x
  | None =>
      match suf with
      | c :: s' => if ok c then lazy_run ok k (c :: pre) s' else None
      | [] => None
      end
  end.

(** [k] at the positions inside the run [a], the rightmost first. *)
Fixpoint fallback {R : Type} (k : pos -> option R) (pre a b : str) : option R :=
  match a with
  | [] => None
  | c :: a' =>
      match fallback k (c :: pre) a' b with
      | Some x => Some x
      | None => k (pre, c :: a' ++ b)
      end
  end.

(** The longest prefix of characters accepted by [ok], and the rest. *)
Fixpoint span (ok : ascii -> bool) (s : str) : str * str :=
  match s with
  | c :: s' => if ok c then (c :: fst (span ok s'), snd (span ok s')) else ([], s)
  | [] => ([], [])
  end.

(** *** Notation for expressions *)

Definition lit (c : ascii) : regex := Chr (Lit c).

(** A literal word. *)
Fixpoint word (s : str) : regex :=
  match s with
  | [] => Eps
  | [c] => lit c
  | c :: s' => Seq (lit c) (word s')
  end.

Fixpoint seq (l : list regex) : regex :=
  match l with
  | [] => Eps
  | [r] => r
  | r :: l' => Seq r (seq l')
  end.

Fixpoint alt (l : list regex) : regex :=
  match l with
  | [] => Eps
  | [r] => r
  | r :: l' => Alt r (alt l')
  end.

Definition star (r : regex) : regex := Star true r.           (* r*  *)
Definition star_lazy (r : regex) : regex := Star false r.     (* r*? *)
Definition plus (r : regex) : regex := Seq r (Star true r).   (* r+  *)
Definition plus_lazy (r : regex) : regex := Seq r (Star false r). (* r+? *)
Definition opt (r : regex) : regex := Alt r Eps.              (* r?  *)

(** [r{0,n}], greedy. *)
Fixpoint rep_upto (n : nat) (r : regex) : regex :=
  match n with
  | 0 => Eps
  | S n' => Alt (Seq r (rep_upto n' r)) Eps
  end.

Definition one_of (s : str) : cset := Cls false (map IChar s).   (* [abc]  *)
Definition none_of (s : str) : cset := Cls true (map IChar s).   (* [^abc] *)
Definition ws : cset := Cls false [ISpace].                      (* \s *)
Definition wordc : cset := Cls false [IWord].                    (* \w *)
Definition digit : cset := Cls false [IDigit].                   (* \d *)
Definition any : cset := Cls false [ISpace; INonSpace].          (* [\s\S] *)
Definition alnum_ : cset :=                                      (* [a-zA-Z0-9_] *)
  Cls false [IRange "a" "z"; IRange "A" "Z"; IRange "0" "9"; IChar "_"].

(** A replacement template: literal text and group references. *)
Inductive piece := PText (s : str) | PRef (n : nat).

Definition expand (t : list piece) (m : mobj) : str :=
  flat_map (fun p => match p with PText s => s | PRef n => group' m n end) t.

(** ** The converter *)

(** *** [normalize_page_name] *)

Definition normalize_page_name (page_name : str) : str :=
  let page_name := re_sub no_flags (Chr (one_of "*`~")) (fun _ => []) page_name in
  let page_name := replace "/" "___" page_name in
  let page_name :=
    re_sub no_flags (Chr (Cls false (map IChar ("<>:" ++ dquote :: "|?*"))))
      (fun _ => []) page_name in
  strip page_name.

(** *** [task_states] *)

Definition task_states : gmap str str :=
  list_to_map
    [ ("TODO" : str, "TODO" : str);
      ("DONE" : str, "DONE" : str);
      ("LATER" : str, "LATER" : str);
      ("NOW" : str, "TODO" : str);
      ("DOING" : str, "DOING" : str);
      ("WAITING" : str, "WAITING" : str);
      ("CANCELLED" : str, "CANCELLED" : str);
      ("OVERDUE" : str, "TODO" : str) ].

(** [d.get(k, default)] *)
Definition dict_get {V : Type} (d : gmap str V) (k : str) (dflt : V) : V :=
  default dflt (d !! k).

(** *** [convert_hierarchical_structure] *)

(** "^(\s* )-\s+(.+)$" *)
Definition re_list_item : regex :=
  seq [Bol; Grp 1 (star (Chr ws)); lit "-"; plus (Chr ws);
       Grp 2 (plus (Chr Dot)); Eol].

(** "\[( |x|X)\]\s+(.+)" *)
Definition re_checkbox : regex :=
  seq [lit "["; Grp 1 (alt [lit " "; lit "x"; lit "X"]); lit "]";
       plus (Chr ws); Grp 2 (plus (Chr Dot))].

(** "^(TODO|DONE|LATER|NOW|DOING|WAITING|CANCELLED|OVERDUE)\s+(.+)$" *)
Definition re_task : regex :=
  seq [Bol;
       Grp 1 (alt [word "TODO"; word "DONE"; word "LATER"; word "NOW";
                   word "DOING"; word "WAITING"; word "CANCELLED";
                   word "OVERDUE"]);
       plus (Chr ws); Grp 2 (plus (Chr Dot)); Eol].

(** The body of the loop over the lines. *)
Definition convert_line (line : str) : str :=
  match re_match no_flags re_list_item line with
  | Some m =>
      let indent_str := group' m 1 in
      let tab_count := count_char tab indent_str * 2 in
      let space_count := count_char " " indent_str in
      let indent := tab_count + space_count in
      let text := group' m 2 in
      let level := indent / 2 + 1 in
      let level := Nat.min level 6 in
      match re_match no_flags re_checkbox text with
      | Some checkbox_match =>
          let state := group' checkbox_match 1 in
          let task_text := group' checkbox_match 2 in
          let org_state : str :=
            if str_eqb (lower state) "x" then "DONE" else "TODO" in
          stars level ++ " " ++ org_state ++ " " ++ task_text
      | None =>
          match re_match no_flags re_task text with
          | Some task_match =>
              let logseq_state := group' task_match 1 in
              let task_text := group' task_match 2 in
              let org_state := dict_get task_states logseq_state "TODO" in
              stars level ++ " " ++ org_state ++ " " ++ task_text
          | None => stars level ++ " " ++ text
          end
      end
  | None => line
  end.

Definition convert_hierarchical_structure (content : str) : str :=
  join [newline] (map convert_line (split_on newline content)).

(** *** [convert_tasks] *)

Definition convert_tasks (content : str) : str := content.

(** *** The list-to-outline pass, as the specification words it

    The definitions of this part follow the specification, not the source:
    they read a line with plain text operations, and are compared with
    [convert_line] in the theorems. *)

(** White space followed by text: the text after the longest run of white
    space at the start of [r]; when nothing follows a run of two or more,
    its last character. *)
Definition ws_text (r : str) : option str :=
  match r with
  | c :: r' =>
      if is_space c then
        match snd (span is_space r') with
        | (_ :: _) as t => Some t
        | [] =>
            match rev (fst (span is_space r')) with
            | e :: _ => Some [e]
            | [] => None
            end
        end
      else None
  | [] => None
  end.

(** "optional leading whitespace, dash, space, text": the indentation and
    the text of a list item. *)
Definition list_item (line : str) : option (str * str) :=
  match snd (span is_space line) with
  | c :: r =>
      if Ascii.eqb c "-"
      then option_map (pair (fst (span is_space line))) (ws_text r)
      else None
  | [] => None
  end.

(** "normalized_indent counts each literal tab as 2 and each literal space
    as 1" *)
Fixpoint normalized_indent (indent : str) : nat :=
  match indent with
  | [] => 0
  | c :: s =>
      (if Ascii.eqb c tab then 2 else if Ascii.eqb c " " then 1 else 0)
      + normalized_indent s
  end.

(** "depth is min(6, floor(normalized_indent/2) + 1)" *)
Definition outline_depth (indent : str) : nat :=
  Nat.min 6 (normalized_indent indent / 2 + 1).

(** "a checkbox marker": the state it maps to and the text after it. *)
Definition checkbox_marker (text : str) : option (str * str) :=
  match text with
  | a :: c :: b :: r =>
      if Ascii.eqb a "[" && Ascii.eqb b "]" then
        if Ascii.eqb c " " then option_map (pair ("TODO" : str)) (ws_text r)
        else if Ascii.eqb c "x" || Ascii.eqb c "X"
             then option_map (pair ("DONE" : str)) (ws_text r)
             else None
      else None
  | _ => None
  end.

(** "a known task keyword": one of these, matched as written, then white
    space and text. The result is the keyword and the text after it. *)
Definition task_keywords : list str :=
  [ "TODO" : str; "DONE" : str; "LATER" : str; "NOW" : str; "DOING" : str;
    "WAITING" : str; "CANCELLED" : str; "OVERDUE" : str ].

Fixpoint task_keyword_in (kws : list str) (text : str) : option (str * str) :=
  match kws with
  | [] => None
  | kw :: kws' =>
      match
        if startswith kw text then ws_text (drop (length kw) text) else None
      with
      | Some body => Some (kw, body)
      | None => task_keyword_in kws' text
      end
  end.

Definition task_keyword (text : str) : option (str * str) :=
  task_keyword_in task_keywords text.

(** "a fixed table: NOW and OVERDUE fold into TODO, all others map to
    themselves" *)
Definition keyword_state (kw : str) : str :=
  if str_eqb kw "NOW" || str_eqb kw "OVERDUE" then "TODO" else kw.

(** The heading text of a list item: checkbox first, then keyword,
    otherwise the text as it is. *)
Definition task_heading (text : str) : str :=
  match checkbox_marker text with
  | Some (state, body) => state ++ " " ++ body
  | None =>
      match task_keyword text with
      | Some (kw, body) => keyword_state kw ++ " " ++ body
      | None => text
      end
  end.

(** A line of the outline. *)
Definition outline_line (line : str) : str :=
  match list_item line with
  | Some (indent, text) => stars (outline_depth indent) ++ " " ++ task_heading text
  | None => line
  end.

Definition no_newline (s : str) : bool :=
  forallb (fun c => negb (Ascii.eqb c newline)) s.

(** *** [convert_tables] *)

(** "^\|.*\|$" *)
Definition re_table_row : regex :=
  seq [Bol; lit "|"; star (Chr Dot); lit "|"; Eol].

(** "^\|[-\s|:]+\|$" *)
Definition re_table_sep : regex :=
  seq [Bol; lit "|";
       plus (Chr (Cls false [IChar "-"; ISpace; IChar "|"; IChar ":"]));
       lit "|"; Eol].

Definition is_match (fl : flags) (r : regex) (s : str) : bool :=
  match re_match fl r s with Some _ => true | None => false end.

(** [l[1:-1]] *)
Definition inner {A : Type} (l : list A) : list A := removelast (tl l).

(** The loop over the lines; [skip] is set when the line is a separator
    already replaced. *)
Fixpoint tables_loop (lines : list str) (skip : bool) : list str :=
  match lines with
  | [] => []
  | original_line :: rest =>
      if skip then tables_loop rest false
      else
        let stripped_line := strip original_line in
        if is_match no_flags re_table_row stripped_line then
          let cells := map strip (inner (split_on "|" stripped_line)) in
          let row := "| " ++ join " | " cells ++ " |" in
          match rest with
          | next_line :: _ =>
              if is_match no_flags re_table_sep (strip next_line)
              then row
                   :: ("|" ++ repeat "-"%char (length stripped_line - 2) ++ "|")
                   :: tables_loop rest true
              else row :: tables_loop rest false
          | [] => row :: tables_loop rest false
          end
        else original_line :: tables_loop rest false
  end.

Definition convert_tables (content : str) : str :=
  join nl (tables_loop (split_on newline content) false).

(** *** [update_asset_paths] *)

(** "!\[(.*?)\]\(\.\./assets/([^)]+?)\)" and the same without the "!";
    [dots] is the leading "../". *)
Definition re_asset (bang dots : bool) : regex :=
  seq [ (if bang then lit "!" else Eps); lit "[";
        Grp 1 (star_lazy (Chr Dot)); word "](";
        (if dots then word "../" else Eps); word "assets/";
        Grp 2 (plus_lazy (Chr (none_of ")"))); lit ")" ].

Definition update_asset_paths (content : str) : str :=
  let image := [PText "!["; PRef 1; PText "](../assets/"; PRef 2; PText ")"] in
  let file := [PText "["; PRef 1; PText "](../assets/"; PRef 2; PText ")"] in
  let content := re_sub no_flags (re_asset true true) (expand image) content in
  let content := re_sub no_flags (re_asset true false) (expand image) content in
  let content := re_sub no_flags (re_asset false true) (expand file) content in
  let content := re_sub no_flags (re_asset false false) (expand file) content in
  content.

(** *** The expressions of the links *)

(** "\[\[([^\]]+?)\]\]" *)
Definition re_double_link : regex :=
  seq [word "[["; Grp 1 (plus_lazy (Chr (none_of "]"))); word "]]"].

(** "\[\[([^\]]+?)\]\](?!\])" *)
Definition re_double_link_strict : regex :=
  seq [word "[["; Grp 1 (plus_lazy (Chr (none_of "]"))); word "]]";
       Ahead true (lit "]")].

(** "\(\(([^)]+?)\)\)" *)
Definition re_block_ref : regex :=
  seq [word "(("; Grp 1 (plus_lazy (Chr (none_of ")"))); word "))"].

(** "{{embed\s+([^}]+?)}}" *)
Definition re_embed : regex :=
  seq [word "{{embed"; plus (Chr ws); Grp 1 (plus_lazy (Chr (none_of "}")));
       word "}}"].

(** *** Front matter and properties *)

(** A value of the front matter, as far as the converter looks at it: a
    string; a list, with the text of its elements and its own text; any
    other scalar, with its text and whether it counts as true. *)
Inductive pyval :=
| VStr (s : str)
| VList (items : list str) (shown : str)
| VOther (shown : str) (truthy : bool).

(** [str(v)], as an f-string shows the value. *)
Definition py_str (v : pyval) : str :=
  match v with
  | VStr s => s
  | VList _ shown => shown
  | VOther shown _ => shown
  end.

Definition py_truthy (v : pyval) : bool :=
  match v with
  | VStr s => negb (str_eqb s [])
  | VList items _ => negb (bool_decide (items = []))
  | VOther _ t => t
  end.

(** A dictionary that keeps the order of insertion. *)
Abbreviation props := (list (list ascii * pyval)) (only parsing).

Fixpoint props_get (k : str) (d : props) : option pyval :=
  match d with
  | [] => None
  | (k', v) :: d' => if str_eqb k k' then Some v else props_get k d'
  end.

(** [d[k] = v] *)
Fixpoint props_set (k : str) (v : pyval) (d : props) : props :=
  match d with
  | [] => [(k, v)]
  | (k', v') :: d' =>
      if str_eqb k k' then (k, v) :: d' else (k', v') :: props_set k v d'
  end.

(** [d.update(other)] *)
Definition props_update (other d : props) : props :=
  fold_left (fun acc kv => props_set (fst kv) (snd kv) acc) other d.

(** "^---\n(.*?)\n---\n(.* )$", DOTALL *)
Definition re_front_matter : regex :=
  seq [Bol; word ("---" ++ nl); Grp 1 (star_lazy (Chr Dot));
       word (nl ++ "---" ++ nl); Grp 2 (star (Chr Dot)); Eol].

(** "^(\w+)::\s*(.+)$", MULTILINE *)
Definition re_inline_prop : regex :=
  seq [Bol; Grp 1 (plus (Chr wordc)); word "::"; star (Chr ws);
       Grp 2 (plus (Chr Dot)); Eol].

(** "\n\s*\n\s*\n" *)
Definition re_blank_lines : regex :=
  seq [lit newline; star (Chr ws); lit newline; star (Chr ws); lit newline].

(** "(^(\* )+[ ])\|(.* )", MULTILINE *)
Definition re_table_caption : regex :=
  seq [Grp 1 (seq [Bol; plus (Grp 2 (lit "*")); Chr (one_of " ")]);
       lit "|"; Grp 3 (star (Chr Dot))].

(** "(\d\d\d\d)_(\d\d)_(\d\d)" *)
Definition re_date : regex :=
  seq [Grp 1 (seq [Chr digit; Chr digit; Chr digit; Chr digit]); lit "_";
       Grp 2 (seq [Chr digit; Chr digit]); lit "_";
       Grp 3 (seq [Chr digit; Chr digit])].

Definition dash_dates (s : str) : str :=
  re_sub fl_M re_date (expand [PRef 1; PText "-"; PRef 2; PText "-"; PRef 3]) s.

(** "^title:\s*(.+)$", MULTILINE and IGNORECASE *)
Definition re_title : regex :=
  seq [Bol; word "title:"; star (Chr ws); Grp 1 (plus (Chr Dot)); Eol].

(** "^#\s+(.+)$", MULTILINE *)
Definition re_first_heading : regex :=
  seq [Bol; lit "#"; plus (Chr ws); Grp 1 (plus (Chr Dot)); Eol].

(** *** The expressions of [collect_missing_pages] *)

Definition link_patterns : list regex :=
  [ (* "\[\[([^\]]+?)\]\]" *)
    re_double_link;
    (* "\[\[([^\]|]+?)\|[^\]]*?\]\]" *)
    seq [word "[["; Grp 1 (plus_lazy (Chr (none_of "]|"))); lit "|";
         star_lazy (Chr (none_of "]")); word "]]"];
    (* "\[\[([^\]]+?)\]\]\([^)]*?\)" *)
    seq [word "[["; Grp 1 (plus_lazy (Chr (none_of "]"))); word "]]("; 
         star_lazy (Chr (none_of ")")); lit ")"];
    (* "{{embed\s+\[\[([^\]]+?)\]\]}}" *)
    seq [word "{{embed"; plus (Chr ws); word "[[";
         Grp 1 (plus_lazy (Chr (none_of "]"))); word "]]}}"];
    (* "{{embed\s+\(\(([^)]+?)\)\)}}" *)
    seq [word "{{embed"; plus (Chr ws); word "((";
         Grp 1 (plus_lazy (Chr (none_of ")"))); word "))}}"] ].

Definition edge_case_patterns : list regex :=
  [ (* "(?:^|\s)\[\[([^\]]+?)\]\](?:\s|$)" *)
    seq [Alt Bol (Chr ws); re_double_link; Alt (Chr ws) Eol];
    (* "(?<=\s)\[\[([^\]]+?)\]\](?=\s)" *)
    seq [Behind false (Chr ws); re_double_link; Ahead false (Chr ws)];
    (* "(?<=^)\[\[([^\]]+?)\]\]" *)
    seq [Behind false Bol; re_double_link];
    (* "\[\[([^\]]+?)\]\](?=$)" *)
    seq [re_double_link; Ahead false Eol];
    (* "(?<=\n)\[\[([^\]]+?)\]\]" *)
    seq [Behind false (lit newline); re_double_link];
    (* "\[\[([^\]]+?)\]\](?=\n)" *)
    seq [re_double_link; Ahead false (lit newline)] ].

(** *** The converter object *)

(** The fields of [LogseqToOrgRoamConverter] that the conversion reads and
    writes (the logger and the statistics are left out), the number of
    identifiers drawn so far, and the files written under the output
    directory, by their path relative to it. *)
Record conv := {
  page_ids : gmap (list ascii) (list ascii);
  block_ids : gmap (list ascii) (list ascii);
  existing_pages : gset (list ascii);
  missing_pages : gset (list ascii);
  file_to_title : gmap (list ascii) (list ascii);
  draws : nat;
  written : gmap (list ascii) (list ascii)
}.

(** [__init__] *)
Definition conv_init : conv :=
  {| page_ids := ∅; block_ids := ∅; existing_pages := ∅; missing_pages := ∅;
     file_to_title := ∅; draws := 0; written := ∅ |}.

Definition set_page_ids (f : gmap str str -> gmap str str) (c : conv) : conv :=
  {| page_ids := f (page_ids c); block_ids := block_ids c;
     existing_pages := existing_pages c; missing_pages := missing_pages c;
     file_to_title := file_to_title c; draws := draws c; written := written c |}.

Definition set_block_ids (f : gmap str str -> gmap str str) (c : conv) : conv :=
  {| page_ids := page_ids c; block_ids := f (block_ids c);
     existing_pages := existing_pages c; missing_pages := missing_pages c;
     file_to_title := file_to_title c; draws := draws c; written := written c |}.

Definition set_existing_pages (f : gset str -> gset str) (c : conv) : conv :=
  {| page_ids := page_ids c; block_ids := block_ids c;
     existing_pages := f (existing_pages c); missing_pages := missing_pages c;
     file_to_title := file_to_title c; draws := draws c; written := written c |}.

Definition set_missing_pages (f : gset str -> gset str) (c : conv) : conv :=
  {| page_ids := page_ids c; block_ids := block_ids c;
     existing_pages := existing_pages c; missing_pages := f (missing_pages c);
     file_to_title := file_to_title c; draws := draws c; written := written c |}.

Definition set_file_to_title (f : gmap str str -> gmap str str) (c : conv) : conv :=
  {| page_ids := page_ids c; block_ids := block_ids c;
     existing_pages := existing_pages c; missing_pages := missing_pages c;
     file_to_title := f (file_to_title c); draws := draws c; written := written c |}.

Definition set_draws (f : nat -> nat) (c : conv) : conv :=
  {| page_ids := page_ids c; block_ids := block_ids c;
     existing_pages := existing_pages c; missing_pages := missing_pages c;
     file_to_title := file_to_title c; draws := f (draws c); written := written c |}.

Definition set_written (f : gmap str str -> gmap str str) (c : conv) : conv :=
  {| page_ids := page_ids c; block_ids := block_ids c;
     existing_pages := existing_pages c; missing_pages := missing_pages c;
     file_to_title := file_to_title c; draws := draws c; written := f (written c) |}.

(** A method of the converter: it reads the object and returns a result and
    the object as it leaves it. *)
Definition M (A : Type) : Type := conv -> A * conv.

Definition ret {A : Type} (x : A) : M A := fun c => (x, c).

Definition bind {A B : Type} (m : M A) (k : A -> M B) : M B :=
  fun c => k (fst (m c)) (snd (m c)).

Notation "'let*' x ':=' m 'in' k" := (bind m (fun x => k))
  (at level 10, x name, m at level 100, k at level 200).

Definition get {A : Type} (f : conv -> A) : M A := fun c => (f c, c).
Definition modify (f : conv -> conv) : M unit := fun c => (tt, f c).

(** A loop over a list, for its effect. *)
Fixpoint for_each {A : Type} (l : list A) (body : A -> M unit) : M unit :=
  match l with
  | [] => ret tt
  | x :: l' => let* _ := body x in for_each l' body
  end.

(** The source directory: the [*.md] files of [pages] and of [journals], in
    the order [glob] lists them, by stem and with their text. *)
Record corpus := { pages : list (list ascii * list ascii);
                   journals : list (list ascii * list ascii) }.

Definition folders (src : corpus) : list (list ascii * list (list ascii * list ascii)) :=
  [("pages" : str, pages src); ("journals" : str, journals src)].

Section Converter.

(** [str(uuid.uuid4())] at the n-th call. *)
Variable uuid4 : nat -> list ascii.

(** [yaml.safe_load]: [None] when it raises [YAMLError]; otherwise the
    mapping it returns, with string keys, or [None] for a document that is
    not a mapping. *)
Variable yaml_safe_load : list ascii -> option (option (list (list ascii * pyval))).

(** [datetime.now().strftime('%Y-%m-%d %H:%M:%S')] *)
Variable now : list ascii.

(** [generate_uuid] *)
Definition generate_uuid : M str :=
  let* n := get draws in
  let* _ := modify (set_draws S) in
  ret (uuid4 n).

(** [uuid.uuid4().hex[:8]]: the first eight hexadecimal digits, which are
    the first eight characters of the text of the identifier. *)
Definition uuid4_hex8 : M str :=
  let* u := generate_uuid in ret (take 8 u).

(** [scan_existing_pages] *)
Definition scan_file (file : str * str) : M unit :=
  let page_name := fst file in
  let content := snd file in
  let* _ := modify (set_existing_pages (fun s => {[ page_name ]} ∪ s)) in
  let* page_id := generate_uuid in
  let* _ := modify (set_page_ids <[ page_name := page_id ]>) in
  match re_search fl_MI re_title content with
  | Some title_match =>
      modify (set_file_to_title <[ page_name := strip (group' title_match 1) ]>)
  | None =>
      match re_search fl_M re_first_heading content with
      | Some heading_match =>
          modify (set_file_to_title <[ page_name := strip (group' heading_match 1) ]>)
      | None => modify (set_file_to_title <[ page_name := page_name ]>)
      end
  end.

Definition scan_existing_pages (src : corpus) : M unit :=
  for_each (folders src) (fun folder => for_each (snd folder) scan_file).

(** [collect_missing_pages] *)
Definition collect_match (mtch : str) : M unit :=
  let page_name := normalize_page_name mtch in
  let* existing := get existing_pages in
  if negb (str_eqb page_name []) && negb (bool_decide (page_name ∈ existing))
  then modify (set_missing_pages (fun s => {[ page_name ]} ∪ s))
  else ret tt.

Definition collect_file (file : str * str) : M unit :=
  let content := snd file in
  for_each (link_patterns ++ edge_case_patterns) (fun pattern =>
    for_each (re_findall fl_MI pattern content) collect_match).

Definition collect_missing_pages (src : corpus) : M unit :=
  for_each (folders src) (fun folder => for_each (snd folder) collect_file).

(** [create_missing_pages] *)
Definition create_stub (page_name : str) : M unit :=
  let* page_id := generate_uuid in
  let* _ := modify (set_page_ids <[ page_name := page_id ]>) in
  let stub_content :=
    ":PROPERTIES:" ++ nl ++ ":ID: " ++ page_id ++ nl ++ ":END:" ++ nl
    ++ "#+TITLE: " ++ page_name ++ nl ++ "#+FILETAGS: :stub:" ++ nl ++ nl
    ++ "This page was automatically created during Logseq migration on "
    ++ now ++ "." ++ nl in
  let output_path := "pages/" ++ page_name ++ ".org" in
  modify (set_written <[ output_path := stub_content ]>).

Definition create_missing_pages : M unit :=
  let* names := get missing_pages in
  for_each (elements names) create_stub.

(** [str.replace] in a fold over [enumerate(org_elements)]. *)
Fixpoint restore_org (i : nat) (org_elements : list str) (content : str) : str :=
  match org_elements with
  | [] => content
  | element :: rest =>
      restore_org (S i) rest
        (replace ("__ORG_ELEMENT_" ++ str_of_nat i ++ "__") element content)
  end.

(** [convert_markdown_to_org] *)
Definition convert_markdown_to_org (content : str) : M str :=
  let* h1 := uuid4_hex8 in let* h2 := uuid4_hex8 in let* h3 := uuid4_hex8 in
  let* h4 := uuid4_hex8 in let* h5 := uuid4_hex8 in
  let TEMP_CODE := "##TEMP_CODE_" ++ h1 ++ "##" in
  let TEMP_BOLD := "##TEMP_BOLD_" ++ h2 ++ "##" in
  let TEMP_ITALIC := "##TEMP_ITALIC_" ++ h3 ++ "##" in
  let TEMP_STRIKE := "##TEMP_STRIKE_" ++ h4 ++ "##" in
  let TEMP_LINK := "##TEMP_LINK_" ++ h5 ++ "##" in
  let preserve_org (m : mobj) (org_elements : list str) :=
    ("__ORG_ELEMENT_" ++ str_of_nat (length org_elements) ++ "__",
     org_elements ++ [m_all m]) in
  (* "\[\[id:[^\]]+\]\[[^\]]+\]\]" *)
  let r := re_sub_st no_flags
             (seq [word "[[id:"; plus (Chr (none_of "]")); word "][";
                   plus (Chr (none_of "]")); word "]]"])
             preserve_org content [] in
  (* "^\*+\s+.*$" *)
  let r := re_sub_st fl_M
             (seq [Bol; plus (lit "*"); plus (Chr ws); star (Chr Dot); Eol])
             preserve_org (fst r) (snd r) in
  let content := fst r in
  let org_elements := snd r in
  (* "^(#{1,6})\s+(.+)$" *)
  let content :=
    re_sub fl_M
      (seq [Bol; Grp 1 (Seq (lit "#") (rep_upto 5 (lit "#"))); plus (Chr ws);
            Grp 2 (plus (Chr Dot)); Eol])
      (fun m => stars (length (group' m 1)) ++ " " ++ group' m 2) content in
  (* "^---+$" *)
  let content :=
    re_sub fl_M (seq [Bol; word "--"; plus (lit "-"); Eol])
      (fun _ => "-----") content in
  (* "^```(\w+)?\n(.*?)\n```$" *)
  let content :=
    re_sub fl_MS
      (seq [Bol; word "```"; opt (Grp 1 (plus (Chr wordc))); lit newline;
            Grp 2 (star_lazy (Chr Dot)); lit newline; word "```"; Eol])
      (fun m => "#+BEGIN_SRC " ++ group' m 1 ++ nl ++ group' m 2 ++ nl
                ++ "#+END_SRC") content in
  (* "^>\s*(.+)(?:\n^>\s*(.+))*" *)
  let content :=
    re_sub fl_M
      (seq [Bol; lit ">"; star (Chr ws); Grp 1 (plus (Chr Dot));
            star (seq [lit newline; Bol; lit ">"; star (Chr ws);
                       Grp 2 (plus (Chr Dot))])])
      (fun m => "#+BEGIN_QUOTE" ++ nl
                ++ replace ">" "" (replace "> " "" (m_all m)) ++ nl
                ++ "#+END_QUOTE") content in
  (* "`([^`\n]+?)`" *)
  let content :=
    re_sub no_flags
      (seq [lit "`"; Grp 1 (plus_lazy (Chr (Cls true [IChar "`"; IChar newline])));
            lit "`"])
      (expand [PText TEMP_CODE; PRef 1; PText TEMP_CODE]) content in
  (* "\*\*([\s\S]+?)\*\*" *)
  let content :=
    re_sub no_flags (seq [word "**"; Grp 1 (plus_lazy (Chr any)); word "**"])
      (expand [PText TEMP_BOLD; PRef 1; PText TEMP_BOLD]) content in
  (* "__([\s\S]+?)__" *)
  let content :=
    re_sub no_flags (seq [word "__"; Grp 1 (plus_lazy (Chr any)); word "__"])
      (expand [PText TEMP_BOLD; PRef 1; PText TEMP_BOLD]) content in
  (* "(?<!\* )\*([\s\S]+?)\*(?!\* )" *)
  let content :=
    re_sub no_flags
      (seq [Behind true (lit "*"); lit "*"; Grp 1 (plus_lazy (Chr any));
            lit "*"; Ahead true (lit "*")])
      (expand [PText TEMP_ITALIC; PRef 1; PText TEMP_ITALIC]) content in
  (* "(?<![a-zA-Z0-9_])_([\s\S]+?)_(?![a-zA-Z0-9_])" *)
  let content :=
    re_sub no_flags
      (seq [Behind true (Chr alnum_); lit "_"; Grp 1 (plus_lazy (Chr any));
            lit "_"; Ahead true (Chr alnum_)])
      (expand [PText TEMP_ITALIC; PRef 1; PText TEMP_ITALIC]) content in
  (* "~~([^~\n]+?)~~" *)
  let content :=
    re_sub no_flags
      (seq [word "~~"; Grp 1 (plus_lazy (Chr (Cls true [IChar "~"; IChar newline])));
            word "~~"])
      (expand [PText TEMP_STRIKE; PRef 1; PText TEMP_STRIKE]) content in
  (* "(?<!\[)\[([^\]]+?)\]\(([^)]+?)\)" *)
  let content :=
    re_sub no_flags
      (seq [Behind true (lit "["); lit "["; Grp 1 (plus_lazy (Chr (none_of "]")));
            word "]("; Grp 2 (plus_lazy (Chr (none_of ")"))); lit ")"])
      (fun m => TEMP_LINK ++ "[" ++ group' m 2 ++ "][" ++ group' m 1 ++ "]"
                ++ TEMP_LINK) content in
  let content := convert_tables content in
  let content := replace TEMP_CODE "=" content in
  let content := replace TEMP_BOLD "*" content in
  let content := replace TEMP_ITALIC "/" content in
  let content := replace TEMP_STRIKE "+" content in
  (* TEMP_LINK "\[(.*?)\]\[(.*?)\]" TEMP_LINK *)
  let content :=
    re_sub no_flags
      (seq [word TEMP_LINK; lit "["; Grp 1 (star_lazy (Chr Dot)); word "][";
            Grp 2 (star_lazy (Chr Dot)); lit "]"; word TEMP_LINK])
      (expand [PText "[["; PRef 1; PText "]["; PRef 2; PText "]]"]) content in
  ret (restore_org 0 org_elements content).

(** [convert_double_links] *)
Definition replace_link (m : mobj) : M str :=
  let link_text := group' m 1 in
  let parts := split_on "|" link_text in
  let page_name := strip (hd [] parts) in
  let alias :=
    match parts with
    | _ :: _ :: _ => strip (join "|" (tl parts))
    | _ => page_name
    end in
  let normalized_name := normalize_page_name page_name in
  let* ids := get page_ids in
  let* page_id :=
    match ids !! normalized_name with
    | Some page_id => ret page_id
    | None =>
        let* page_id := generate_uuid in
        let* _ := modify (set_page_ids <[ normalized_name := page_id ]>) in
        let* _ := modify (set_missing_pages (fun s => {[ normalized_name ]} ∪ s)) in
        ret page_id
    end in
  ret ("[[id:" ++ page_id ++ "][" ++ alias ++ "]]").

Definition convert_double_links (content : str) : M str :=
  let* content := re_sub_st no_flags re_double_link replace_link content in
  re_sub_st no_flags re_double_link_strict replace_link content.

(** [d[k]] of [block_ids], after [if k not in d: d[k] = generate_uuid()]. *)
Definition block_id (block_ref : str) : M str :=
  let* ids := get block_ids in
  match ids !! block_ref with
  | Some id => ret id
  | None =>
      let* id := generate_uuid in
      let* _ := modify (set_block_ids <[ block_ref := id ]>) in
      ret id
  end.

(** [convert_block_references] *)
Definition replace_block_ref (m : mobj) : M str :=
  let* id := block_id (group' m 1) in
  ret ("[[id:" ++ id ++ "]]").

Definition convert_block_references (content : str) : M str :=
  re_sub_st no_flags re_block_ref replace_block_ref content.

(** [convert_block_embeddings] *)
Definition replace_embed (m : mobj) : M str :=
  let embed_content := group' m 1 in
  match re_search no_flags re_double_link embed_content with
  | Some page_match =>
      let page_name := normalize_page_name (group' page_match 1) in
      ret ("#+INCLUDE: " ++ [dquote] ++ page_name ++ ".org" ++ [dquote])
  | None =>
      match re_search no_flags re_block_ref embed_content with
      | Some block_match =>
          let* id := block_id (group' block_match 1) in
          ret ("#+INCLUDE: " ++ [dquote] ++ "[[id:" ++ id ++ "]]" ++ [dquote])
      | None => ret (m_all m)
      end
  end.

Definition convert_block_embeddings (content : str) : M str :=
  re_sub_st fl_I re_embed replace_embed content.

(** [extract_properties] *)
Definition extract_properties (content : str) : props * str :=
  let after_yaml :=
    match re_match fl_S re_front_matter content with
    | Some yaml_match =>
        match yaml_safe_load (group' yaml_match 1) with
        | Some yaml_content =>
            (match yaml_content with
             | Some d => props_update d []
             | None => []
             end,
             group' yaml_match 2)
        | None => ([], content)
        end
    | None => ([], content)
    end in
  let properties := fst after_yaml in
  let content := snd after_yaml in
  let inline_props := re_finditer fl_M re_inline_prop content in
  let properties :=
    fold_left (fun acc m => props_set (group' m 1) (VStr (group' m 2)) acc)
      inline_props properties in
  let content := re_sub fl_M re_inline_prop (fun _ => []) content in
  let content := re_sub no_flags re_blank_lines (fun _ => nl ++ nl) content in
  (properties, content).

(** [create_org_header], for a title that can be a key of a dictionary (a
    string or another scalar; [page_ids] has string keys only). *)
Definition create_org_header (title : pyval) (properties : props) : M str :=
  let* fresh := generate_uuid in
  let* ids := get page_ids in
  let page_id :=
    match title with
    | VStr t => default fresh (ids !! t)
    | _ => fresh
    end in
  let header := ":PROPERTIES:" ++ nl ++ ":ID: " ++ page_id ++ nl in
  let header :=
    fold_left (fun header kv =>
      let key := upper (fst kv) in
      if str_eqb key "ID" || str_eqb key "TITLE" then header
      else header ++ ":" ++ key ++ ": " ++ py_str (snd kv) ++ nl)
      properties header in
  let header := header ++ ":END:" ++ nl in
  let header := header ++ "#+TITLE: " ++ py_str title ++ nl in
  let header :=
    match props_get "tags" properties with
    | Some tags =>
        let tags :=
          match tags with
          | VList items _ => join " " (map (fun tag => ":" ++ tag ++ ":") items)
          | VStr t => if startswith ":" t then t else ":" ++ t ++ ":"
          | VOther shown _ => shown
          end in
        header ++ "#+FILETAGS: " ++ tags ++ nl
    | None => header
    end in
  ret (header ++ nl).

(** [convert_file]; [folder] and [stem] are the place of the source file,
    [output_path] is relative to the output directory. A title that is a
    list cannot be looked up in [page_ids]: the exception leaves the file
    unwritten. *)
Definition convert_file (stem content output_path : str) : M unit :=
  let extracted := extract_properties content in
  let properties := fst extracted in
  let content := snd extracted in
  let* titles := get file_to_title in
  let title :=
    match props_get "title" properties with
    | Some v => if py_truthy v then v else VStr (dict_get titles stem stem)
    | None => VStr (dict_get titles stem stem)
    end in
  let* content := convert_markdown_to_org content in
  let content := convert_tasks content in
  let content := convert_hierarchical_structure content in
  let* content := convert_double_links content in
  let* content := convert_block_references content in
  let* content := convert_block_embeddings content in
  let content := update_asset_paths content in
  match title with
  | VList _ _ => ret tt
  | _ =>
      let* header := create_org_header title properties in
      let org_content := header ++ strip content in
      let org_content :=
        re_sub fl_M re_table_caption
          (expand [PRef 1; PText ("table " ++ nl ++ "|"); PRef 3]) org_content in
      let org_content := dash_dates org_content in
      modify (set_written <[ output_path := org_content ]>)
  end.

(** [convert_all], without the copy of the assets and the summary. *)
Definition convert_all (src : corpus) : M unit :=
  let* _ := scan_existing_pages src in
  let* _ := collect_missing_pages src in
  let* _ := create_missing_pages in
  for_each (folders src) (fun folder =>
    for_each (snd folder) (fun file =>
      let final_stem := dash_dates (fst file) in
      let output_file := fst folder ++ "/" ++ final_stem ++ ".org" in
      convert_file (fst file) (snd file) output_file)).

(** *** The header, as the specification words it *)

(** "explicit title property > scanner-derived title-map entry for this
    name > raw name" *)
Definition display_title (properties : props) (titles : gmap str str)
    (stem : str) : pyval :=
  match props_get "title" properties with
  | Some v => if py_truthy v then v else VStr (dict_get titles stem stem)
  | None => VStr (dict_get titles stem stem)
  end.

(** The identifier of the header: the one [page_ids] has for the title, or
    the next identifier of the stream. *)
Definition header_identifier (title : pyval) (st : conv) : str :=
  match title with
  | VStr t => default (uuid4 (draws st)) (page_ids st !! t)
  | _ => uuid4 (draws st)
  end.

(** Every identifier of the pages is one that was drawn. *)
Definition drawn_ids (st : conv) : Prop :=
  forall name id, page_ids st !! name = Some id ->
    exists k, k < draws st /\ id = uuid4 k.

(** The two fixes that [convert_file] applies to the assembled text. *)
Definition post_fixes (org_content : str) : str :=
  dash_dates
    (re_sub fl_M re_table_caption
       (expand [PRef 1; PText ("table " ++ nl ++ "|"); PRef 3]) org_content).

(** *** Double-bracket links, as the specification words them

    The definitions of this part follow the specification, not the source:
    a text is given by its pieces, and each link is converted on its own. *)

(** "resolve (or lazily create, marking as pending) its document
    identifier via the Registry" *)
Definition resolve_page (name : str) : M str :=
  fun st =>
    match page_ids st !! name with
    | Some id => (id, st)
    | None =>
        (uuid4 (draws st),
         set_missing_pages (fun s => {[ name ]} ∪ s)
           (set_page_ids <[ name := uuid4 (draws st) ]> (set_draws S st)))
    end.

(** The text of a link before its first bar, and the text after it when
    there is a bar. *)
Fixpoint bar_split (link_text : str) : str * option str :=
  match link_text with
  | [] => ([], None)
  | c :: s =>
      if Ascii.eqb c "|" then ([], Some s)
      else (c :: fst (bar_split s), snd (bar_split s))
  end.

(** The name a link refers to: trimmed, then normalized. *)
Definition link_target (link_text : str) : str :=
  normalize_page_name (strip (fst (bar_split link_text))).

(** The text a converted link shows: the alias when there is one, otherwise
    the name as it is written; trimmed, not normalized. *)
Definition link_display (link_text : str) : str :=
  match snd (bar_split link_text) with
  | Some alias => strip alias
  | None => strip (fst (bar_split link_text))
  end.

(** "a target-dialect link of the form [[id:<identifier>][<display>]]" *)
Definition typed_link (id display : str) : str :=
  "[[id:" ++ id ++ "][" ++ display ++ "]]".

(** A text in pieces: plain text, and double-bracket links by the text
    between their brackets. *)
Inductive piece_of_text :=
| Plain (s : list ascii)
| DoubleLink (link_text : list ascii).

Definition source_text (p : piece_of_text) : str :=
  match p with
  | Plain s => s
  | DoubleLink t => "[[" ++ t ++ "]]"
  end.

Definition convert_piece (p : piece_of_text) : M str :=
  match p with
  | Plain s => ret s
  | DoubleLink t =>
      let* id := resolve_page (link_target t) in
      ret (typed_link id (link_display t))
  end.

Fixpoint convert_pieces (ps : list piece_of_text) : M str :=
  match ps with
  | [] => ret []
  | p :: ps' =>
      let* out := convert_piece p in
      let* outs := convert_pieces ps' in
      ret (out ++ outs)
  end.

End Converter.

(** Text without square brackets. *)
Definition no_bracket (s : list ascii) : bool :=
  forallb (fun c => negb (Ascii.eqb c "[" || Ascii.eqb c "]")) s.

(** Plain text between links: every opening bracket in it is followed by a
    character that is not an opening bracket. *)
Fixpoint no_double_open (s : list ascii) : bool :=
  match s with
  | [] => true
  | c :: s' =>
      (if Ascii.eqb c "["
       then match s' with d :: _ => negb (Ascii.eqb d "[") | [] => false end
       else true)
      && no_double_open s'
  end.

Definition well_formed_piece (p : piece_of_text) : bool :=
  match p with
  | Plain s => no_double_open s
  | DoubleLink t => negb (str_eqb t []) && no_bracket t
  end.

(** No match of [r] starts inside the text [t], whatever is around it. *)
Definition quiet (fl : flags) (r : regex) (t : list ascii) : Prop :=
  forall pre rest t1 c t2,
    t = t1 ++ c :: t2 -> match_at fl r (rev t1 ++ pre, c :: t2 ++ rest) = None.

(** The identifiers of the pages have no square bracket. *)
Definition plain_ids (st : conv) : Prop :=
  forall name id, page_ids st !! name = Some id -> no_bracket id = true.

(** *** An environment for the examples *)

(** A stream of distinct identifiers. *)
Definition uuid_demo (n : nat) : list ascii :=
  "00000000-0000-4000-8000-" ++ str_of_nat n.

(** A parser that finds no mapping. *)
Definition yaml_demo (text : list ascii) : option (option (list (list ascii * pyval))) :=
  Some None.

Definition now_demo : list ascii := "2024-01-15 12:00:00".

(** *** The expressions of [convert_markdown_to_org] *)

(** "\[\[id:[^\]]+\]\[[^\]]+\]\]" *)
Definition re_org_link : regex :=
  seq [word "[[id:"; plus (Chr (none_of "]")); word "][";
       plus (Chr (none_of "]")); word "]]"].

(** "^\*+\s+.*$", MULTILINE *)
Definition re_org_heading : regex :=
  seq [Bol; plus (lit "*"); plus (Chr ws); star (Chr Dot); Eol].

(** "^(#{1,6})\s+(.+)$", MULTILINE *)
Definition re_md_heading : regex :=
  seq [Bol; Grp 1 (Seq (lit "#") (rep_upto 5 (lit "#"))); plus (Chr ws);
       Grp 2 (plus (Chr Dot)); Eol].

(** "^---+$", MULTILINE *)
Definition re_rule : regex := seq [Bol; word "--"; plus (lit "-"); Eol].

(** "^```(\w+)?\n(.*?)\n```$", MULTILINE and DOTALL *)
Definition re_code_block : regex :=
  seq [Bol; word "```"; opt (Grp 1 (plus (Chr wordc))); lit newline;
       Grp 2 (star_lazy (Chr Dot)); lit newline; word "```"; Eol].

(** "^>\s*(.+)(?:\n^>\s*(.+))*", MULTILINE *)
Definition re_quote : regex :=
  seq [Bol; lit ">"; star (Chr ws); Grp 1 (plus (Chr Dot));
       star (seq [lit newline; Bol; lit ">"; star (Chr ws);
                  Grp 2 (plus (Chr Dot))])].

(** "`([^`\n]+?)`" *)
Definition re_code_span : regex :=
  seq [lit "`"; Grp 1 (plus_lazy (Chr (Cls true [IChar "`"; IChar newline])));
       lit "`"].

(** "\*\*([\s\S]+?)\*\*" *)
Definition re_bold_star : regex :=
  seq [word "**"; Grp 1 (plus_lazy (Chr any)); word "**"].

(** "__([\s\S]+?)__" *)
Definition re_bold_underscore : regex :=
  seq [word "__"; Grp 1 (plus_lazy (Chr any)); word "__"].

(** "(?<!\* )\*([\s\S]+?)\*(?!\* )" *)
Definition re_italic_star : regex :=
  seq [Behind true (lit "*"); lit "*"; Grp 1 (plus_lazy (Chr any));
       lit "*"; Ahead true (lit "*")].

(** "(?<![a-zA-Z0-9_])_([\s\S]+?)_(?![a-zA-Z0-9_])" *)
Definition re_italic_underscore : regex :=
  seq [Behind true (Chr alnum_); lit "_"; Grp 1 (plus_lazy (Chr any));
       lit "_"; Ahead true (Chr alnum_)].

(** "~~([^~\n]+?)~~" *)
Definition re_strike : regex :=
  seq [word "~~"; Grp 1 (plus_lazy (Chr (Cls true [IChar "~"; IChar newline])));
       word "~~"].

(** "(?<!\[)\[([^\]]+?)\]\(([^)]+?)\)" *)
Definition re_md_link : regex :=
  seq [Behind true (lit "["); lit "["; Grp 1 (plus_lazy (Chr (none_of "]")));
       word "]("; Grp 2 (plus_lazy (Chr (none_of ")"))); lit ")"].

(** The escaped token, "\[(.*?)\]\[(.*?)\]", the escaped token. *)
Definition re_temp_link (token : list ascii) : regex :=
  seq [word token; lit "["; Grp 1 (star_lazy (Chr Dot)); word "][";
       Grp 2 (star_lazy (Chr Dot)); lit "]"; word token].

(** A lower-case hexadecimal digit. *)
Definition is_hex (c : ascii) : bool := between 48 57 c || between 97 102 c.


(** Every [x] of [s] is followed, in [s], by a character other than [x]. *)
Fixpoint no_pair (x : ascii) (s : list ascii) : bool :=
  match s with
  | [] => true
  | c :: s' =>
      (if Ascii.eqb c x
       then match s' with d :: _ => negb (Ascii.eqb d x) | [] => false end
       else true)
      && no_pair x s'
  end.

(** Every [x] of [s] comes after a character of the set [cs]; [prev] says
    whether the character before [s] is one. *)
Fixpoint guarded (cs : cset) (x : ascii) (prev : bool) (s : list ascii) : bool :=
  match s with
  | [] => true
  | c :: s' =>
      (if Ascii.eqb c x then prev else true)
      && guarded cs x (cmatch no_flags cs c) s'
  end.

(** The character [x] is not in [s]. *)
Definition free_of (x : ascii) (s : list ascii) : bool :=
  forallb (fun c => negb (Ascii.eqb c x)) s.

(** *** What an expression can start with, and what it needs *)

(** [r] may match without passing a character. *)
Fixpoint nullable (r : regex) : bool :=
  match r with
  | Chr _ => false
  | Seq a b => nullable a && nullable b
  | Alt a b => nullable a || nullable b
  | Grp _ a => nullable a
  | Eps | Star _ _ | Bol | Eol | Ahead _ _ | Behind _ _ => true
  end.

(** [c] may be the first character of a match of [r]. *)
Fixpoint starts (fl : flags) (r : regex) (c : ascii) : bool :=
  match r with
  | Chr cs => cmatch fl cs c
  | Seq a b => starts fl a c || (nullable a && starts fl b c)
  | Alt a b => starts fl a c || starts fl b c
  | Star _ a => starts fl a c
  | Grp _ a => starts fl a c
  | Eps | Bol | Eol | Ahead _ _ | Behind _ _ => false
  end.

(** The characters, all of them. *)
Definition all_chars : list ascii := map ascii_of_nat (List.seq 0 256).

(** Every match of [r] has the character [x] in it. *)
Fixpoint needs (fl : flags) (x : ascii) (r : regex) : bool :=
  match r with
  | Chr cs => forallb (fun c => implb (cmatch fl cs c) (Ascii.eqb c x)) all_chars
  | Seq a b => needs fl x a || needs fl x b
  | Alt a b => needs fl x a && needs fl x b
  | Grp _ a => needs fl x a
  | Eps | Star _ _ | Bol | Eol | Ahead _ _ | Behind _ _ => false
  end.

(** No match of [r] starts in the text [t], its end included, when nothing
    follows [t]. *)
Definition silent (fl : flags) (r : regex) (t : list ascii) : Prop :=
  forall pre t1 t2, t = t1 ++ t2 -> match_at fl r (rev t1 ++ pre, t2) = None.

(** No character of [t] can start a match of [r]. *)
Definition starts_none (fl : flags) (r : regex) (t : list ascii) : bool :=
  forallb (fun c => negb (starts fl r c)) t.

(** *** Plain text *)

(** The characters with which the markup of [convert_markdown_to_org]
    starts. *)
Definition markup_chars : list ascii := "[*#-`>_~|".

Definition plain_char (c : ascii) : bool :=
  negb (existsb (Ascii.eqb c) markup_chars).

(** A text without a character of markup. *)
Definition plain_text (t : list ascii) : bool := forallb plain_char t.

(** *** Page names *)

(** The characters that [normalize_page_name] takes out of a name. *)
Definition unsafe_chars : list ascii := "*`~/<>:|?" ++ [dquote].

Definition safe_char (c : ascii) : bool :=
  negb (existsb (Ascii.eqb c) unsafe_chars).

(** A name that is safe and trimmed. *)
Definition safe_name (n : list ascii) : bool :=
  forallb safe_char n && str_eqb (strip n) n.

(** *** Lines of a table *)

(** A line of a table, from the text of its cells. *)
Definition table_line (cells : list (list ascii)) : list ascii :=
  "|" ++ join "|" cells ++ "|".

(** The text of a cell: no bar and no end of line. *)
Definition cell_text (c : list ascii) : bool := free_of "|" c && no_newline c.

(** *** What a pass keeps of the converter *)

(** From [st] to [st'] the converter has only grown: the identifiers of
    [st] are those of [st'], names may have been added to the missing pages
    and identifiers drawn; the scanned pages, their titles and the files
    written are the same. *)
Definition grows (st st' : conv) : Prop :=
  page_ids st ⊆ page_ids st' /\ block_ids st ⊆ block_ids st'
  /\ existing_pages st' = existing_pages st
  /\ missing_pages st ⊆ missing_pages st'
  /\ file_to_title st' = file_to_title st
  /\ draws st <= draws st'
  /\ written st' = written st.

(** The three passes of [convert_all] that come before the conversion of
    the files. *)
Definition prepare (uuid4 : nat -> list ascii) (now : list ascii) (src : corpus) : M unit :=
  let* _ := scan_existing_pages uuid4 src in
  let* _ := collect_missing_pages src in
  create_missing_pages uuid4 now.

(** The conversion of the files, the last pass of [convert_all]. *)
Definition convert_files (uuid4 : nat -> list ascii)
    (yaml_safe_load : list ascii -> option (option (list (list ascii * pyval))))
    (src : corpus) : M unit :=
  for_each (folders src) (fun folder =>
    for_each (snd folder) (fun file =>
      let final_stem := dash_dates (fst file) in
      let output_file := fst folder ++ "/" ++ final_stem ++ ".org" in
      convert_file uuid4 yaml_safe_load (fst file) (snd file) output_file)).

(** A name is registered: it is a scanned page, with an identifier and a
    title. *)
Definition registered (name : list ascii) (st : conv) : Prop :=
  name ∈ existing_pages st /\ is_Some (page_ids st !! name)
  /\ is_Some (file_to_title st !! name).

(** The files of a source directory. *)
Definition files (src : corpus) : list (list ascii * list ascii) :=
  pages src ++ journals src.

(** From [st] to [st'] only names were added to the missing pages, none of
    them empty and none a scanned page. *)
Definition collected (st st' : conv) : Prop :=
  page_ids st' = page_ids st /\ block_ids st' = block_ids st
  /\ existing_pages st' = existing_pages st
  /\ file_to_title st' = file_to_title st
  /\ draws st' = draws st /\ written st' = written st
  /\ forall name, name ∈ missing_pages st' ->
       name ∈ missing_pages st \/ (name <> [] /\ name ∉ existing_pages st).

(** *** The identifiers of the registry *)

(** Every identifier of a page or of a block is one that was drawn. *)
Definition ids_drawn (uuid4 : nat -> list ascii) (st : conv) : Prop :=
  (forall name id, page_ids st !! name = Some id ->
     exists k, k < draws st /\ id = uuid4 k)
  /\ (forall ref id, block_ids st !! ref = Some id ->
        exists k, k < draws st /\ id = uuid4 k).

(** No two pages, no two blocks, and no page and block have the same
    identifier. *)
Definition ids_distinct (st : conv) : Prop :=
  (forall n1 n2 id,
     page_ids st !! n1 = Some id -> page_ids st !! n2 = Some id -> n1 = n2)
  /\ (forall r1 r2 id,
        block_ids st !! r1 = Some id -> block_ids st !! r2 = Some id -> r1 = r2)
  /\ (forall name ref id,
        page_ids st !! name = Some id -> block_ids st !! ref = Some id -> False).

(** *** Titles and output *)

(** The keys that [create_org_header] leaves out of the drawer. *)
Definition reserved_key (key : list ascii) : bool :=
  str_eqb (upper key) "ID" || str_eqb (upper key) "TITLE".

(** A parser that finds a list as title. *)
Definition yaml_list_demo (text : list ascii)
    : option (option (list (list ascii * pyval))) :=
  Some (Some [("title" : list ascii, VList ["a" : list ascii; "b" : list ascii] "['a', 'b']")]).

(** *** Emphasis *)

(** The first eight characters of every identifier are hexadecimal digits,
    as those of [uuid.uuid4()] are. *)
Definition hex_supply (uuid4 : nat -> list ascii) : Prop :=
  forall n, forallb is_hex (take 8 (uuid4 n)) = true.

(** A phrase: a plain text of one line that is not empty and does not start
    with white space. *)
Definition phrase (t : list ascii) : bool :=
  match t with [] => false | c :: _ => negb (is_space c) end
  && plain_text t && no_newline t.

(** No [b] of [s] comes right after an [a]; [prev] says whether the
    character before [s] is an [a]. *)
Fixpoint no_seq_from (a b : ascii) (prev : bool) (s : list ascii) : bool :=
  match s with
  | [] => true
  | c :: s' => negb (Ascii.eqb c b && prev) && no_seq_from a b (Ascii.eqb c a) s'
  end.

(** *** The stages of [convert_markdown_to_org]

    The pass for given placeholders, in the groups in which it rewrites the
    text: what is kept aside, the blocks, the inline markup, the tables,
    the placeholders, and what was kept aside. *)

(** The placeholder of a kind of markup. *)
Definition token (kind h : list ascii) : list ascii :=
  "##TEMP_" ++ kind ++ "_" ++ h ++ "##".

Definition preserve_org (m : mobj) (org_elements : list (list ascii))
    : list ascii * list (list ascii) :=
  ("__ORG_ELEMENT_" ++ str_of_nat (length org_elements) ++ "__",
   org_elements ++ [m_all m]).

Definition preserve_stage (content : list ascii) : list ascii * list (list ascii) :=
  let r := re_sub_st no_flags re_org_link preserve_org content [] in
  re_sub_st fl_M re_org_heading preserve_org (fst r) (snd r).

Definition block_stages (content : list ascii) : list ascii :=
  let content :=
    re_sub fl_M re_md_heading
      (fun m => stars (length (group' m 1)) ++ " " ++ group' m 2) content in
  let content := re_sub fl_M re_rule (fun _ => "-----") content in
  let content :=
    re_sub fl_MS re_code_block
      (fun m => "#+BEGIN_SRC " ++ group' m 1 ++ nl ++ group' m 2 ++ nl
                ++ "#+END_SRC") content in
  re_sub fl_M re_quote
    (fun m => "#+BEGIN_QUOTE" ++ nl
              ++ replace ">" "" (replace "> " "" (m_all m)) ++ nl
              ++ "#+END_QUOTE") content.

Definition inline_stages (h1 h2 h3 h4 h5 content : list ascii) : list ascii :=
  let content :=
    re_sub no_flags re_code_span
      (expand [PText (token "CODE" h1); PRef 1; PText (token "CODE" h1)]) content in
  let content :=
    re_sub no_flags re_bold_star
      (expand [PText (token "BOLD" h2); PRef 1; PText (token "BOLD" h2)]) content in
  let content :=
    re_sub no_flags re_bold_underscore
      (expand [PText (token "BOLD" h2); PRef 1; PText (token "BOLD" h2)]) content in
  let content :=
    re_sub no_flags re_italic_star
      (expand [PText (token "ITALIC" h3); PRef 1; PText (token "ITALIC" h3)]) content in
  let content :=
    re_sub no_flags re_italic_underscore
      (expand [PText (token "ITALIC" h3); PRef 1; PText (token "ITALIC" h3)]) content in
  let content :=
    re_sub no_flags re_strike
      (expand [PText (token "STRIKE" h4); PRef 1; PText (token "STRIKE" h4)]) content in
  re_sub no_flags re_md_link
    (fun m => token "LINK" h5 ++ "[" ++ group' m 2 ++ "][" ++ group' m 1 ++ "]"
              ++ token "LINK" h5) content.

Definition token_stages (h1 h2 h3 h4 h5 content : list ascii) : list ascii :=
  let content := replace (token "CODE" h1) "=" content in
  let content := replace (token "BOLD" h2) "*" content in
  let content := replace (token "ITALIC" h3) "/" content in
  let content := replace (token "STRIKE" h4) "+" content in
  re_sub no_flags (re_temp_link (token "LINK" h5))
    (expand [PText "[["; PRef 1; PText "]["; PRef 2; PText "]]"]) content.

Definition markdown_with (h1 h2 h3 h4 h5 content : list ascii) : list ascii :=
  let r := preserve_stage content in
  restore_org 0 (snd r)
    (token_stages h1 h2 h3 h4 h5
       (convert_tables (inline_stages h1 h2 h3 h4 h5 (block_stages (fst r))))).

(** The text [old] starts nowhere in [u], when [rest] follows [u]. *)
Definition absent_in (old u rest : list ascii) : Prop :=
  forall u1 c u2, u = u1 ++ c :: u2 -> startswith old (c :: u2 ++ rest) = false.

(** A stream of identifiers whose first eight characters change from one
    identifier to the next. *)
Definition uuid_varied (n : nat) : list ascii :=
  repeat (nth (n mod 16) (list_ascii_of_string "0123456789abcdef") "0"%char) 8
  ++ "-0000-4000-8000-" ++ str_of_nat n.

(** * Properties *)

(** ** Facts about texts *)

Lemma lstrip_starts (s : str) :
  match lstrip s with c :: _ => is_space c = false | [] => True end.
Proof.
  induction s as [|c s IH]; simpl; [exact I|].
  destruct (is_space c) eqn:E; [exact IH | exact E].
Qed.

Lemma lstrip_fixed (s : str) :
  match s with c :: _ => is_space c = false | [] => True end -> lstrip s = s.
Proof. destruct s as [|c s]; simpl; [reflexivity|]. intros ->. reflexivity. Qed.

Lemma rstrip_starts (s : str) :
  match s with c :: _ => is_space c = false | [] => True end ->
  match rstrip s with c :: _ => is_space c = false | [] => True end.
Proof.
  destruct s as [|c s]; simpl; [trivial|]. intros E.
  destruct (rstrip s); [rewrite E; simpl|]; exact E.
Qed.

Lemma rstrip_idem (s : str) : rstrip (rstrip s) = rstrip s.
Proof.
  induction s as [|c s IH]; simpl; [reflexivity|].
  destruct (rstrip s) as [|d r] eqn:E.
  - destruct (is_space c) eqn:Ec; simpl; rewrite ?Ec; reflexivity.
  - simpl in *. rewrite IH. reflexivity.
Qed.

Lemma strip_idem (s : str) : strip (strip s) = strip s.
Proof.
  unfold strip.
  rewrite (lstrip_fixed (rstrip (lstrip s))).
  - apply rstrip_idem.
  - apply rstrip_starts, lstrip_starts.
Qed.

Lemma Forall_lstrip (P : ascii -> Prop) (s : str) : Forall P s -> Forall P (lstrip s).
Proof.
  induction 1 as [|c s Hc Hs IH]; simpl; [constructor|].
  destruct (is_space c); [exact IH | constructor; assumption].
Qed.

Lemma Forall_rstrip (P : ascii -> Prop) (s : str) : Forall P s -> Forall P (rstrip s).
Proof.
  induction 1 as [|c s Hc Hs IH]; simpl; [constructor|].
  destruct (rstrip s).
  - destruct (is_space c); repeat constructor; assumption.
  - constructor; assumption.
Qed.

Lemma Forall_strip (P : ascii -> Prop) (s : str) : Forall P s -> Forall P (strip s).
Proof. intros H. apply Forall_rstrip, Forall_lstrip, H. Qed.

(** Replacing a one-character text is a character-wise substitution. *)
Lemma replace_char (c : ascii) (new s : str) :
  replace [c] new s = flat_map (fun x => if Ascii.eqb c x then new else [x]) s.
Proof.
  unfold replace. induction s as [|x s IH]; simpl; [reflexivity|].
  rewrite andb_true_r. destruct (Ascii.eqb c x); simpl; rewrite IH; reflexivity.
Qed.

(** ** Facts about the matcher *)

Lemma consumed_app (pre pre' a b : str) : consumed (pre, a ++ b) (pre', b) = a.
Proof.
  unfold consumed; simpl. rewrite length_app.
  replace (length a + length b - length b) with (length a) by lia.
  apply take_app_length.
Qed.

Lemma consumed_one (pre pre' : str) (c : ascii) (s : str) :
  consumed (pre, c :: s) (pre', s) = [c].
Proof. apply (consumed_app pre pre' [c] s). Qed.

(** A one-character expression matches where the character is in the set. *)
Lemma match_at_chr (fl : flags) (cs : cset) (pre suf : str) :
  match_at fl (Chr cs) (pre, suf) =
  match suf with
  | c :: s' => if cmatch fl cs c then Some {| m_all := [c]; m_caps := [] |} else None
  | [] => None
  end.
Proof.
  unfold match_at; simpl. destruct suf as [|c s']; [reflexivity|].
  destruct (cmatch fl cs c); [|reflexivity]. rewrite consumed_one. reflexivity.
Qed.

(** Deleting the characters of a set is a filter. *)
Lemma sub_loop_delete_chr (fl : flags) (cs : cset) (s pre : str) :
  fst (sub_loop fl (Chr cs) (fun _ (_ : unit) => ([], tt)) pre s 0 tt)
  = List.filter (fun c => negb (cmatch fl cs c)) s.
Proof.
  revert pre. induction s as [|c s IH]; intros pre.
  - reflexivity.
  - cbn [sub_loop List.filter]. rewrite match_at_chr.
    destruct (cmatch fl cs c) eqn:E; cbn; rewrite IH; reflexivity.
Qed.

Lemma re_sub_delete_chr (fl : flags) (cs : cset) (s : str) :
  re_sub fl (Chr cs) (fun _ => []) s = List.filter (fun c => negb (cmatch fl cs c)) s.
Proof. apply sub_loop_delete_chr. Qed.

(** ** Page names *)

Section Normalize.

Let markup (c : ascii) : bool := cmatch no_flags (one_of "*`~") c.
Let illegal (c : ascii) : bool :=
  cmatch no_flags (Cls false (map IChar ("<>:" ++ dquote :: "|?*"))) c.
Let slash (c : ascii) : str := if Ascii.eqb "/" c then "___" else [c].

(** The name as a composition of character-wise steps. *)
Lemma normalize_page_name_steps (n : str) :
  normalize_page_name n =
  strip (List.filter (fun c => negb (illegal c))
           (flat_map slash (List.filter (fun c => negb (markup c)) n))).
Proof.
  unfold normalize_page_name. rewrite !re_sub_delete_chr.
  change (list_ascii_of_string "/") with ["/"%char]. rewrite replace_char.
  reflexivity.
Qed.

Let clean (c : ascii) : Prop :=
  markup c = false /\ Ascii.eqb "/" c = false /\ illegal c = false.

Lemma normalize_page_name_clean (n : str) : Forall clean (normalize_page_name n).
Proof.
  rewrite normalize_page_name_steps. apply Forall_strip.
  apply List.Forall_forall. intros c Hc.
  apply List.filter_In in Hc as [Hc Hill].
  apply negb_true_iff in Hill.
  apply List.in_flat_map in Hc as (x & Hx & Hc).
  apply List.filter_In in Hx as [_ Hx]. apply negb_true_iff in Hx.
  unfold slash in Hc. destruct (Ascii.eqb "/" x) eqn:E.
  - assert (c = "_"%char) as ->.
    { simpl in Hc. intuition congruence. }
    refine (conj _ (conj _ Hill)); reflexivity.
  - destruct Hc as [<-|[]]. refine (conj Hx (conj E Hill)).
Qed.

Lemma clean_steps_fixed (t : str) :
  Forall clean t ->
  List.filter (fun c => negb (illegal c))
    (flat_map slash (List.filter (fun c => negb (markup c)) t)) = t.
Proof.
  induction 1 as [|c t (Hm & Hs & Hi) _ IH]; [reflexivity|].
  cbn [List.filter]. rewrite Hm. cbn [negb flat_map].
  unfold slash at 1. rewrite Hs. cbn [app List.filter]. rewrite Hi. cbn [negb].
  f_equal. exact IH.
Qed.

(** C7. Normalizing a page name is idempotent: a normalized name is left
    unchanged by [normalize_page_name]. The result depends on the argument
    alone. *)
Theorem normalize_page_name_idempotent (n : str) :
  normalize_page_name (normalize_page_name n) = normalize_page_name n.
Proof.
  rewrite (normalize_page_name_steps (normalize_page_name n)).
  rewrite clean_steps_fixed by apply normalize_page_name_clean.
  rewrite normalize_page_name_steps. apply strip_idem.
Qed.

End Normalize.

(** *** The matcher, one constructor at a time *)

Lemma rmatch_seq fl a b R p cp k :
  rmatch fl (Seq a b) R p cp k
  = rmatch fl a R p cp (fun p' cp' => rmatch fl b R p' cp' k).
Proof. reflexivity. Qed.

Lemma rmatch_alt fl a b R p cp k :
  rmatch fl (Alt a b) R p cp k
  = match rmatch fl a R p cp k with
    | Some x => Some x
    | None => rmatch fl b R p cp k
    end.
Proof. reflexivity. Qed.

Lemma rmatch_grp fl n a R p cp k :
  rmatch fl (Grp n a) R p cp k
  = rmatch fl a R p cp (fun p' cp' => k p' ((n, consumed p p') :: cp')).
Proof. reflexivity. Qed.

Lemma rmatch_chr_cons fl cs R pre c s cp k :
  rmatch fl (Chr cs) R (pre, c :: s) cp k
  = if cmatch fl cs c then k (c :: pre, s) cp else None.
Proof. reflexivity. Qed.

Lemma rmatch_chr_nil fl cs R pre cp k :
  rmatch fl (Chr cs) R (pre, []) cp k = None.
Proof. reflexivity. Qed.

Lemma rmatch_star fl g a R p cp k :
  rmatch fl (Star g a) R p cp k
  = star_loop g (rmatch fl a R) k (length (snd p)) p cp.
Proof. reflexivity. Qed.

(** *** Repetition of a one-character expression *)

Lemma star_loop_greedy_chr fl cs R k cp fuel suf pre :
  length suf <= fuel ->
  star_loop true (rmatch fl (Chr cs) R) k fuel (pre, suf) cp
  = greedy_run (cmatch fl cs) (fun p => k p cp) pre suf.
Proof.
  revert suf pre. induction fuel as [|f IH]; intros suf pre Hlen.
  - destruct suf; [reflexivity | simpl in Hlen; lia].
  - destruct suf as [|c s]; [reflexivity|].
    cbn [star_loop greedy_run]. rewrite rmatch_chr_cons.
    destruct (cmatch fl cs c); [|reflexivity].
    cbn [snd]. replace (length s <? length (c :: s)) with true
      by (symmetry; apply Nat.ltb_lt; simpl; lia).
    rewrite IH by (simpl in Hlen; lia). reflexivity.
Qed.

Lemma star_loop_lazy_chr fl cs R k cp fuel suf pre :
  length suf <= fuel ->
  star_loop false (rmatch fl (Chr cs) R) k fuel (pre, suf) cp
  = lazy_run (cmatch fl cs) (fun p => k p cp) pre suf.
Proof.
  revert suf pre. induction fuel as [|f IH]; intros suf pre Hlen.
  - destruct suf; [|simpl in Hlen; lia]. cbn. destruct (k _ _); reflexivity.
  - destruct suf as [|c s]; cbn [star_loop lazy_run];
      destruct (k _ cp); try reflexivity.
    rewrite rmatch_chr_cons. destruct (cmatch fl cs c); [|reflexivity].
    cbn [snd]. replace (length s <? length (c :: s)) with true
      by (symmetry; apply Nat.ltb_lt; simpl; lia).
    apply IH. simpl in Hlen; lia.
Qed.

Lemma rmatch_star_greedy_chr fl cs R pre suf cp k :
  rmatch fl (Star true (Chr cs)) R (pre, suf) cp k
  = greedy_run (cmatch fl cs) (fun p => k p cp) pre suf.
Proof. rewrite rmatch_star. apply star_loop_greedy_chr. reflexivity. Qed.

Lemma rmatch_star_lazy_chr fl cs R pre suf cp k :
  rmatch fl (Star false (Chr cs)) R (pre, suf) cp k
  = lazy_run (cmatch fl cs) (fun p => k p cp) pre suf.
Proof. rewrite rmatch_star. apply star_loop_lazy_chr. reflexivity. Qed.

(** A greedy run stops at the first character that is not accepted. *)
Lemma greedy_run_stop {R} ok (k : pos -> option R) pre b :
  match b with c :: _ => ok c = false | [] => True end ->
  greedy_run ok k pre b = k (pre, b).
Proof. destruct b as [|c b]; simpl; [reflexivity|]. intros ->. reflexivity. Qed.

(** A greedy run over the accepted characters [a]: the continuation after
    the whole of [a] first, then the positions inside [a]. *)
Lemma greedy_run_app {R} ok (k : pos -> option R) a : forall pre b,
  forallb ok a = true ->
  greedy_run ok k pre (a ++ b)
  = match greedy_run ok k (rev a ++ pre) b with
    | Some x => Some x
    | None => fallback k pre a b
    end.
Proof.
  induction a as [|c a IH]; intros pre b Ha.
  - simpl. destruct (greedy_run ok k pre b); reflexivity.
  - simpl in Ha. apply andb_true_iff in Ha as [Hc Ha].
    cbn [app greedy_run fallback]. rewrite Hc, IH by exact Ha.
    cbn [rev]. rewrite <- app_assoc. cbn [app].
    destruct (greedy_run ok k (rev a ++ c :: pre) b); reflexivity.
Qed.

Lemma fallback_none {R} (k : pos -> option R) a : forall pre b,
  (forall a1 c a2, a = a1 ++ c :: a2 -> k (rev a1 ++ pre, c :: a2 ++ b) = None) ->
  fallback k pre a b = None.
Proof.
  induction a as [|c a IH]; intros pre b H; [reflexivity|].
  cbn [fallback]. rewrite IH.
  - apply (H [] c a). reflexivity.
  - intros a1 d a2 ->. specialize (H (c :: a1) d a2 eq_refl).
    cbn [rev] in H. rewrite <- app_assoc in H. exact H.
Qed.

(** The first position given back is the one before the last character. *)
Lemma fallback_snoc {R} (k : pos -> option R) a : forall pre c b,
  fallback k pre (a ++ [c]) b
  = match k (rev a ++ pre, c :: b) with
    | Some x => Some x
    | None => fallback k pre a (c :: b)
    end.
Proof.
  induction a as [|d a IH]; intros pre c b.
  - cbn. destruct (k (pre, c :: b)); reflexivity.
  - cbn [app fallback]. rewrite IH. cbn [rev]. rewrite <- !app_assoc. cbn [app].
    destruct (k (rev a ++ d :: pre, c :: b)); reflexivity.
Qed.

(** A lazy run passes the characters at which the continuation fails. *)
Lemma lazy_run_app {R} ok (k : pos -> option R) a : forall pre b,
  forallb ok a = true ->
  (forall a1 c a2, a = a1 ++ c :: a2 -> k (rev a1 ++ pre, c :: a2 ++ b) = None) ->
  lazy_run ok k pre (a ++ b) = lazy_run ok k (rev a ++ pre) b.
Proof.
  induction a as [|c a IH]; intros pre b Ha H; [reflexivity|].
  simpl in Ha. apply andb_true_iff in Ha as [Hc Ha].
  cbn [app lazy_run]. pose proof (H [] c a eq_refl) as H0. cbn in H0.
  rewrite H0, Hc.
  rewrite IH; [cbn [rev]; rewrite <- app_assoc; reflexivity | exact Ha |].
  intros a1 d a2 ->. specialize (H (c :: a1) d a2 eq_refl).
  cbn [rev] in H. rewrite <- app_assoc in H. exact H.
Qed.

Lemma lazy_run_here {R} ok (k : pos -> option R) pre b x :
  k (pre, b) = Some x -> lazy_run ok k pre b = Some x.
Proof. destruct b; simpl; intros ->; reflexivity. Qed.

Lemma lazy_run_stop {R} ok (k : pos -> option R) pre b :
  match b with c :: _ => ok c = false | [] => True end ->
  lazy_run ok k pre b = k (pre, b).
Proof.
  destruct b as [|c b]; simpl.
  - destruct (k (pre, [])); reflexivity.
  - intros ->. destruct (k (pre, c :: b)); reflexivity.
Qed.

(** *** [span] *)

Lemma span_app ok s : fst (span ok s) ++ snd (span ok s) = s.
Proof.
  induction s as [|c s IH]; [reflexivity|]. simpl.
  destruct (ok c); simpl; [f_equal; exact IH | reflexivity].
Qed.

Lemma span_fst ok s : forallb ok (fst (span ok s)) = true.
Proof.
  induction s as [|c s IH]; [reflexivity|]. simpl.
  destruct (ok c) eqn:E; simpl; [rewrite E; exact IH | reflexivity].
Qed.

Lemma span_snd ok s :
  match snd (span ok s) with c :: _ => ok c = false | [] => True end.
Proof.
  induction s as [|c s IH]; [exact I|]. simpl.
  destruct (ok c) eqn:E; simpl; [exact IH | exact E].
Qed.

Lemma span_run ok a b :
  forallb ok a = true ->
  match b with c :: _ => ok c = false | [] => True end ->
  span ok (a ++ b) = (a, b).
Proof.
  intros Ha Hb. induction a as [|c a IH]; simpl.
  - destruct b as [|d b]; [reflexivity|]. simpl. rewrite Hb. reflexivity.
  - simpl in Ha. apply andb_true_iff in Ha as [-> Ha]. rewrite (IH Ha). reflexivity.
Qed.

Ltac list_norm :=
  progress (cbn [rev app];
            rewrite ?app_nil_r, ?rev_app_distr, ?rev_involutive, <- ?app_assoc;
            cbn [rev app]).

(** *** Character sets without flags *)

Lemma cmatch_ws c : cmatch no_flags ws c = is_space c.
Proof. unfold cmatch, ws; simpl. apply orb_false_r. Qed.

Lemma cmatch_dot c : cmatch no_flags Dot c = negb (Ascii.eqb c newline).
Proof. reflexivity. Qed.

Lemma cmatch_lit d c : cmatch no_flags (Lit d) c = Ascii.eqb c d.
Proof. reflexivity. Qed.

Lemma greedy_run_ext {R} ok ok' (k : pos -> option R) :
  (forall c, ok c = ok' c) ->
  forall suf pre, greedy_run ok k pre suf = greedy_run ok' k pre suf.
Proof.
  intros E. induction suf as [|c s IH]; intros pre; [reflexivity|].
  simpl. rewrite E, IH. reflexivity.
Qed.

Lemma consumed_all pre pre' a : consumed (pre, a) (pre', []) = a.
Proof. rewrite <- (app_nil_r a) at 1. apply consumed_app. Qed.

(** ["(.+)"] on a text with no newline takes the whole of it, when what
    follows accepts the end of the text. *)
Lemma rmatch_grp_dot_plus {R} (K : pos -> caps -> option R) n q b cp :
  no_newline b = true -> b <> [] ->
  (forall q' cp', K (q', []) cp' <> None) ->
  rmatch no_flags (Grp n (plus (Chr Dot))) R (q, b) cp K
  = K (rev b ++ q, []) ((n, b) :: cp).
Proof.
  intros Hb Hne HK. destruct b as [|d b]; [congruence|]. clear Hne.
  simpl in Hb. apply andb_true_iff in Hb as [Hd Hb].
  rewrite rmatch_grp. unfold plus. rewrite rmatch_seq, rmatch_chr_cons.
  rewrite cmatch_dot, Hd, rmatch_star_greedy_chr.
  rewrite (greedy_run_ext _ (fun c => negb (Ascii.eqb c newline))) by apply cmatch_dot.
  rewrite <- (app_nil_r b) at 1. rewrite greedy_run_app by exact Hb.
  cbn [greedy_run rev]. rewrite consumed_all, <- app_assoc. cbn [app].
  destruct (K (rev b ++ d :: q, []) ((n, d :: b) :: cp)) eqn:E; [reflexivity|].
  exfalso. exact (HK _ _ E).
Qed.

Lemma is_space_not c d : is_space c = true -> is_space d = false -> Ascii.eqb c d = false.
Proof.
  intros Hc Hd. destruct (Ascii.eqb_spec c d) as [->|]; [congruence | reflexivity].
Qed.

(** ["\s+(.+)"] on a text with no newline, when what follows accepts the end
    of the text. *)
Lemma rmatch_ws_text {R} (K : pos -> caps -> option R) n pre r cp :
  no_newline r = true ->
  (forall q' cp', K (q', []) cp' <> None) ->
  rmatch no_flags (plus (Chr ws)) R (pre, r) cp
    (fun p1 cp1 => rmatch no_flags (Grp n (plus (Chr Dot))) R p1 cp1 K)
  = match ws_text r with
    | Some t => K (rev r ++ pre, []) ((n, t) :: cp)
    | None => None
    end.
Proof.
  intros Hr HK. unfold plus at 1. rewrite rmatch_seq.
  destruct r as [|c r]; [reflexivity|].
  rewrite rmatch_chr_cons, cmatch_ws. unfold ws_text.
  destruct (is_space c) eqn:Ec; [|reflexivity].
  simpl in Hr. apply andb_true_iff in Hr as [_ Hr].
  rewrite rmatch_star_greedy_chr.
  rewrite (greedy_run_ext _ is_space) by apply cmatch_ws.
  pose proof (span_app is_space r) as Hsplit.
  pose proof (span_fst is_space r) as Ha.
  pose proof (span_snd is_space r) as Hstop.
  destruct (span is_space r) as [a b]; cbn [fst snd] in *. subst r.
  assert (Hnb : no_newline b = true).
  { unfold no_newline in *. rewrite forallb_app in Hr.
    apply andb_true_iff in Hr as [_ Hr]. exact Hr. }
  assert (Hna : no_newline a = true).
  { unfold no_newline in *. rewrite forallb_app in Hr.
    apply andb_true_iff in Hr as [Hr _]. exact Hr. }
  rewrite greedy_run_app by exact Ha.
  rewrite greedy_run_stop by exact Hstop.
  destruct b as [|d b].
  - (* nothing after the white space *)
    rewrite rmatch_chr_nil || (rewrite rmatch_grp; unfold plus; rewrite rmatch_seq, rmatch_chr_nil).
    destruct (rev a) as [|e a'] eqn:Erev.
    + apply (f_equal (@rev ascii)) in Erev. rewrite rev_involutive in Erev.
      subst a. reflexivity.
    + apply (f_equal (@rev ascii)) in Erev. rewrite rev_involutive in Erev.
      cbn [rev] in Erev. subst a. rewrite fallback_snoc.
      rewrite rmatch_grp_dot_plus; [| | discriminate | exact HK].
      * replace (rev (c :: (rev a' ++ [e]) ++ []) ++ pre)
          with (rev [e] ++ rev (rev a') ++ c :: pre) by (repeat list_norm; reflexivity).
        destruct (K _ _) eqn:E; [reflexivity | exfalso; exact (HK _ _ E)].
      * unfold no_newline in *. rewrite forallb_app in Hna.
        apply andb_true_iff in Hna as [_ Hna]. exact Hna.
  - rewrite rmatch_grp_dot_plus; [| exact Hnb | discriminate | exact HK].
    destruct (K (rev (d :: b) ++ rev a ++ c :: pre, []) ((n, d :: b) :: cp)) eqn:E;
      [|exfalso; exact (HK _ _ E)].
    rewrite <- E. f_equal. f_equal. repeat list_norm. reflexivity.
Qed.

Lemma rmatch_bol_start fl R s cp (k : pos -> caps -> option R) :
  rmatch fl Bol R ([], s) cp k = k ([], s) cp.
Proof. reflexivity. Qed.

Lemma rmatch_eol_end fl R q cp (k : pos -> caps -> option R) :
  rmatch fl Eol R (q, []) cp k = k (q, []) cp.
Proof. reflexivity. Qed.

Lemma option_first_none {A} (x : option A) :
  match x with Some y => Some y | None => None end = x.
Proof. destruct x; reflexivity. Qed.

(** ["\s+(.+)$"] and ["\s+(.+)"] at the end of an expression. *)
Lemma rmatch_ws_text_eol {R} (K : pos -> caps -> option R) n pre r cp :
  no_newline r = true ->
  (forall q' cp', K (q', []) cp' <> None) ->
  rmatch no_flags (Seq (plus (Chr ws)) (Seq (Grp n (plus (Chr Dot))) Eol)) R (pre, r) cp K
  = match ws_text r with
    | Some t => K (rev r ++ pre, []) ((n, t) :: cp)
    | None => None
    end.
Proof.
  intros Hr HK.
  exact (rmatch_ws_text (fun p cp => rmatch no_flags Eol R p cp K) n pre r cp Hr HK).
Qed.

Lemma rmatch_ws_text_last {R} (K : pos -> caps -> option R) n pre r cp :
  no_newline r = true ->
  (forall q' cp', K (q', []) cp' <> None) ->
  rmatch no_flags (Seq (plus (Chr ws)) (Grp n (plus (Chr Dot)))) R (pre, r) cp K
  = match ws_text r with
    | Some t => K (rev r ++ pre, []) ((n, t) :: cp)
    | None => None
    end.
Proof. intros Hr HK. exact (rmatch_ws_text K n pre r cp Hr HK). Qed.

Lemma no_newline_app a b :
  no_newline (a ++ b) = true -> no_newline a = true /\ no_newline b = true.
Proof. unfold no_newline. rewrite forallb_app. apply andb_true_iff. Qed.

Lemma forallb_split {A} (f : A -> bool) a1 c a2 :
  forallb f (a1 ++ c :: a2) = true -> f c = true.
Proof.
  rewrite forallb_app. intros H. apply andb_true_iff in H as [_ H].
  simpl in H. apply andb_true_iff in H as [H _]. exact H.
Qed.

(** *** The expression of a list item *)

Lemma re_list_item_spec (line : str) :
  no_newline line = true ->
  re_match no_flags re_list_item line
  = match list_item line with
    | Some (indent, text) =>
        Some {| m_all := line; m_caps := [(2, text); (1, indent)] |}
    | None => None
    end.
Proof.
  intros Hline. unfold re_match, match_at, re_list_item, list_item.
  cbn [seq]. rewrite rmatch_seq, rmatch_bol_start, rmatch_seq, rmatch_grp.
  unfold star. rewrite rmatch_star_greedy_chr.
  rewrite (greedy_run_ext _ is_space) by apply cmatch_ws.
  pose proof (span_app is_space line) as Hsplit.
  pose proof (span_fst is_space line) as Hind.
  pose proof (span_snd is_space line) as Hstop.
  destruct (span is_space line) as [ind rest]; cbn [fst snd] in *.
  subst line. apply no_newline_app in Hline as [_ Hrest].
  rewrite greedy_run_app by exact Hind.
  rewrite greedy_run_stop by exact Hstop.
  rewrite (fallback_none _ ind).
  2:{ intros a1 c a2 ->. rewrite rmatch_seq. unfold lit. rewrite rmatch_chr_cons.
      rewrite cmatch_lit, (is_space_not c "-"); [reflexivity| |reflexivity].
      exact (forallb_split _ _ _ _ Hind). }
  rewrite option_first_none, rmatch_seq. unfold lit.
  destruct rest as [|d r]; [reflexivity|].
  rewrite rmatch_chr_cons, cmatch_lit.
  destruct (Ascii.eqb d "-"); [|reflexivity].
  simpl in Hrest. apply andb_true_iff in Hrest as [_ Hr].
  rewrite rmatch_ws_text_eol; [| exact Hr | discriminate].
  destruct (ws_text r) as [t|]; [|reflexivity].
  cbn [option_map]. rewrite consumed_all, consumed_app. reflexivity.
Qed.

(** *** The expression of a checkbox *)

Ltac rstep :=
  progress (rewrite ?rmatch_seq, ?rmatch_grp, ?rmatch_alt, ?rmatch_chr_cons,
              ?rmatch_chr_nil, ?cmatch_lit; cbv beta).

Lemma re_checkbox_spec (text : str) :
  no_newline text = true ->
  re_match no_flags re_checkbox text
  = match text with
    | a :: c :: b :: r =>
        if Ascii.eqb a "[" && Ascii.eqb b "]"
           && (Ascii.eqb c " " || Ascii.eqb c "x" || Ascii.eqb c "X")
        then match ws_text r with
             | Some t => Some {| m_all := text; m_caps := [(2, t); (1, [c])] |}
             | None => None
             end
        else None
    | _ => None
    end.
Proof.
  intros Htext. unfold re_match, match_at, re_checkbox. cbn [seq alt]. unfold lit.
  destruct text as [|a [|c [|b r]]].
  - reflexivity.
  - rstep. destruct (Ascii.eqb a "["); [|reflexivity]. repeat rstep. reflexivity.
  - rstep. destruct (Ascii.eqb a "["); [|reflexivity]. repeat rstep.
    destruct (Ascii.eqb c " "), (Ascii.eqb c "x"), (Ascii.eqb c "X");
      repeat rstep; reflexivity.
  - assert (Hr : no_newline r = true).
    { simpl in Htext. repeat (apply andb_true_iff in Htext as [_ Htext]). exact Htext. }
    rstep. destruct (Ascii.eqb a "["); [|reflexivity].
    rewrite rmatch_seq, rmatch_grp, !rmatch_alt, !rmatch_chr_cons, !cmatch_lit.
    cbv beta. rewrite !rmatch_seq, !rmatch_chr_cons, !cmatch_lit.
    destruct (Ascii.eqb b "]").
    2:{ destruct (Ascii.eqb c " "), (Ascii.eqb c "x"), (Ascii.eqb c "X"); reflexivity. }
    rewrite !rmatch_ws_text_last by (exact Hr || discriminate).
    rewrite !consumed_one, !consumed_all.
    destruct (ws_text r) as [t|].
    + destruct (Ascii.eqb c " "); [reflexivity|].
      destruct (Ascii.eqb c "x"); [reflexivity|].
      destruct (Ascii.eqb c "X"); reflexivity.
    + destruct (Ascii.eqb c " "), (Ascii.eqb c "x"), (Ascii.eqb c "X"); reflexivity.
Qed.

(** *** Literal words *)

Lemma startswith_app (w s : str) :
  startswith w s = true -> s = w ++ drop (length w) s.
Proof.
  revert s. induction w as [|c w IH]; intros s H; [reflexivity|].
  destruct s as [|x s]; [discriminate|]. simpl in H.
  apply andb_true_iff in H as [Hc H]. apply Ascii.eqb_eq in Hc as ->.
  simpl. f_equal. apply IH, H.
Qed.

Lemma startswith_prefix (w s : str) : startswith w (w ++ s) = true.
Proof. induction w as [|c w IH]; [reflexivity|]. simpl. rewrite Ascii.eqb_refl. exact IH. Qed.

Lemma rmatch_word {R} (w : str) : forall pre s cp (k : pos -> caps -> option R),
  rmatch no_flags (word w) R (pre, s) cp k
  = if startswith w s then k (rev w ++ pre, drop (length w) s) cp else None.
Proof.
  induction w as [|c w IH]; intros pre s cp k; [reflexivity|].
  assert (Hstep : rmatch no_flags (Seq (lit c) (word w)) R (pre, s) cp k
            = if startswith (c :: w) s
              then k (rev (c :: w) ++ pre, drop (length (c :: w)) s) cp else None).
  { rewrite rmatch_seq. unfold lit. destruct s as [|x s]; [reflexivity|].
    rewrite rmatch_chr_cons, cmatch_lit. cbn [startswith].
    rewrite (Ascii.eqb_sym c x). destruct (Ascii.eqb_spec x c) as [->|]; [|reflexivity].
    rewrite IH. cbn [andb rev length drop]. rewrite <- app_assoc. reflexivity. }
  destruct w as [|c' w]; [|exact Hstep].
  rewrite <- Hstep. rewrite rmatch_seq. reflexivity.
Qed.

Lemma consumed_word pre pre' (w s : str) :
  startswith w s = true -> consumed (pre, s) (pre', drop (length w) s) = w.
Proof.
  intros H. rewrite (startswith_app w s H) at 1. apply consumed_app.
Qed.

Lemma no_newline_drop n (s : str) : no_newline s = true -> no_newline (drop n s) = true.
Proof.
  intros H. rewrite <- (take_drop n s) in H. apply no_newline_app in H as [_ H]. exact H.
Qed.

(** *** The expression of a task keyword *)

Lemma re_task_spec (text : str) :
  no_newline text = true ->
  re_match no_flags re_task text
  = match task_keyword text with
    | Some (kw, body) => Some {| m_all := text; m_caps := [(2, body); (1, kw)] |}
    | None => None
    end.
Proof.
  intros Htext. unfold re_match, match_at, re_task, task_keyword, task_keywords.
  cbn [seq alt]. rewrite rmatch_seq, rmatch_bol_start, rmatch_seq, rmatch_grp.
  rewrite !rmatch_alt, !rmatch_word. cbv beta.
  cbn [task_keyword_in].
  repeat match goal with
  | |- context [startswith ?kw text] =>
      let E := fresh "E" in
      destruct (startswith kw text) eqn:E;
      [ rewrite (rmatch_ws_text_eol _ 2 (rev kw ++ []))
          by (apply no_newline_drop, Htext || discriminate);
        rewrite (consumed_word _ _ _ _ E);
        destruct (ws_text (drop (length kw) text));
        [rewrite consumed_all; reflexivity|]
      | ]
  end.
  all: reflexivity.
Qed.

(** ** The list-to-outline pass *)

Lemma ws_text_no_newline r t :
  ws_text r = Some t -> no_newline r = true -> no_newline t = true.
Proof.
  unfold ws_text. destruct r as [|c r]; [discriminate|].
  destruct (is_space c); [|discriminate].
  pose proof (span_app is_space r) as Hsplit.
  destruct (span is_space r) as [a b]; cbn [fst snd] in *.
  intros Ht Hr. simpl in Hr. apply andb_true_iff in Hr as [_ Hr].
  rewrite <- Hsplit in Hr. apply no_newline_app in Hr as [Ha Hb].
  destruct b as [|d b].
  - destruct (rev a) as [|e a'] eqn:Erev; [discriminate|]. injection Ht as <-.
    apply (f_equal (@rev ascii)) in Erev. rewrite rev_involutive in Erev. subst a.
    cbn [rev] in Ha. apply no_newline_app in Ha as [_ Ha]. exact Ha.
  - injection Ht as <-. exact Hb.
Qed.

Lemma list_item_no_newline line indent text :
  list_item line = Some (indent, text) -> no_newline line = true ->
  no_newline text = true.
Proof.
  unfold list_item. pose proof (span_app is_space line) as Hsplit.
  destruct (span is_space line) as [a b]; cbn [fst snd] in *.
  destruct b as [|c r]; [discriminate|]. destruct (Ascii.eqb c "-"); [|discriminate].
  destruct (ws_text r) as [t|] eqn:Et; [|discriminate]. cbn. intros [= <- <-] Hline.
  rewrite <- Hsplit in Hline. apply no_newline_app in Hline as [_ Hline].
  simpl in Hline. apply andb_true_iff in Hline as [_ Hr].
  exact (ws_text_no_newline r t Et Hr).
Qed.

Lemma count_indent (indent : str) :
  count_char tab indent * 2 + count_char " " indent = normalized_indent indent.
Proof.
  unfold count_char. induction indent as [|c s IH]; [reflexivity|].
  cbn [List.filter normalized_indent].
  destruct (Ascii.eqb_spec c tab) as [->|Ht].
  - change (Ascii.eqb tab " ") with false. cbn [length]. lia.
  - destruct (Ascii.eqb c " "); cbn [length]; lia.
Qed.

Lemma task_keyword_in_mem kws text kw body :
  task_keyword_in kws text = Some (kw, body) -> In kw kws.
Proof.
  induction kws as [|k kws IH]; [discriminate|]. cbn [task_keyword_in].
  destruct (if startswith k text then _ else _).
  - intros [= <- <-]. left. reflexivity.
  - intros H. right. exact (IH H).
Qed.

Lemma task_states_keyword kw :
  In kw task_keywords -> dict_get task_states kw "TODO" = keyword_state kw.
Proof.
  intros H. repeat (destruct H as [<-|H]; [vm_compute; reflexivity|]). destruct H.
Qed.

Lemma checkbox_state c :
  (if str_eqb (lower [c]) "x" then "DONE" : str else "TODO")
  = if Ascii.eqb c "x" || Ascii.eqb c "X" then "DONE" : str else "TODO".
Proof.
  destruct c as [[] [] [] [] [] [] [] []]; vm_compute; reflexivity.
Qed.

Ltac groups := cbn [group' group m_caps cap_get Nat.eqb option_map].

Lemma keyword_heading (level : nat) (text : str) :
  no_newline text = true ->
  match re_match no_flags re_task text with
  | Some task_match =>
      stars level ++ " " ++ dict_get task_states (group' task_match 1) "TODO"
        ++ " " ++ group' task_match 2
  | None => stars level ++ " " ++ text
  end
  = stars level ++ " " ++
    match task_keyword text with
    | Some (kw, body) => keyword_state kw ++ " " ++ body
    | None => text
    end.
Proof.
  intros Htext. rewrite re_task_spec by exact Htext.
  destruct (task_keyword text) as [[kw body]|] eqn:Ek; [|reflexivity]. groups.
  rewrite task_states_keyword by exact (task_keyword_in_mem _ _ _ _ Ek). reflexivity.
Qed.

(** The loop body of [convert_hierarchical_structure] is the outline line
    of the specification, on every line. *)
Lemma convert_line_outline (line : str) :
  no_newline line = true -> convert_line line = outline_line line.
Proof.
  intros Hline. unfold convert_line, outline_line.
  rewrite re_list_item_spec by exact Hline.
  destruct (list_item line) as [[indent text]|] eqn:Eitem; [|reflexivity].
  pose proof (list_item_no_newline _ _ _ Eitem Hline) as Htext.
  groups. rewrite count_indent, Nat.min_comm. fold (outline_depth indent).
  pose proof (keyword_heading (outline_depth indent) text Htext) as Hkw.
  rewrite re_checkbox_spec by exact Htext.
  unfold task_heading, checkbox_marker.
  destruct text as [|a [|c [|b r]]]; try exact Hkw.
  rewrite andb_comm.
  destruct (Ascii.eqb c " ") eqn:Esp; cbn [orb andb].
  - destruct (Ascii.eqb a "[" && Ascii.eqb b "]") eqn:Eab; [|exact Hkw].
    destruct (ws_text r) as [t|]; [|exact Hkw]. groups.
    rewrite checkbox_state. apply Ascii.eqb_eq in Esp as ->. reflexivity.
  - destruct (Ascii.eqb c "x" || Ascii.eqb c "X") eqn:Ex; cbn [andb];
      destruct (Ascii.eqb a "[" && Ascii.eqb b "]") eqn:Eab; try exact Hkw.
    destruct (ws_text r) as [t|]; [|exact Hkw]. groups.
    rewrite checkbox_state, Ex. reflexivity.
Qed.

(** *** Lines *)

Lemma split_on_line (x rest : str) :
  no_newline x = true ->
  split_on newline (x ++ newline :: rest) = x :: split_on newline rest.
Proof.
  induction x as [|c x IH]; intros Hx.
  - cbn [app split_on]. destruct (split_on newline rest) eqn:E; [|reflexivity].
    destruct rest as [|d rest]; [discriminate|]. cbn [split_on] in E.
    destruct (split_on newline rest); [discriminate|].
    destruct (Ascii.eqb d newline); discriminate.
  - simpl in Hx. apply andb_true_iff in Hx as [Hc Hx].
    cbn [app split_on]. rewrite (IH Hx).
    apply negb_true_iff in Hc. rewrite Hc. reflexivity.
Qed.

Lemma split_on_last (x : str) :
  no_newline x = true -> split_on newline x = [x].
Proof.
  induction x as [|c x IH]; intros Hx; [reflexivity|].
  simpl in Hx. apply andb_true_iff in Hx as [Hc Hx].
  cbn [split_on]. rewrite (IH Hx). apply negb_true_iff in Hc. rewrite Hc. reflexivity.
Qed.

(** A text is split into the lines it was joined from. *)
Lemma split_on_join (lines : list str) :
  lines <> [] -> forallb no_newline lines = true ->
  split_on newline (join [newline] lines) = lines.
Proof.
  induction lines as [|x lines IH]; [congruence|]. intros _ H.
  simpl in H. apply andb_true_iff in H as [Hx H].
  destruct lines as [|y lines].
  - apply split_on_last, Hx.
  - change (join [newline] (x :: y :: lines))
      with (x ++ newline :: join [newline] (y :: lines)).
    rewrite split_on_line by exact Hx. f_equal. apply IH; [discriminate | exact H].
Qed.

Lemma map_ext_forallb {A B} (f g : A -> B) (p : A -> bool) (l : list A) :
  (forall x, p x = true -> f x = g x) -> forallb p l = true -> map f l = map g l.
Proof.
  intros E. induction l as [|x l IH]; [reflexivity|]. simpl.
  intros H. apply andb_true_iff in H as [Hx H]. rewrite (E x Hx), (IH H). reflexivity.
Qed.

(** The pass rewrites a text line by line, each line into its outline
    line. *)
Lemma convert_hierarchical_structure_lines (lines : list str) :
  lines <> [] -> forallb no_newline lines = true ->
  convert_hierarchical_structure (join [newline] lines)
  = join [newline] (map outline_line lines).
Proof.
  intros Hne Hl. unfold convert_hierarchical_structure.
  rewrite split_on_join by assumption. f_equal.
  apply (map_ext_forallb _ _ no_newline); [apply convert_line_outline | exact Hl].
Qed.

(** *** List items *)

Lemma ws_text_run (sp body : str) :
  sp <> [] -> forallb is_space sp = true ->
  match body with c :: _ => is_space c = false | [] => False end ->
  ws_text (sp ++ body) = Some body.
Proof.
  intros Hne Hsp Hbody. destruct sp as [|c sp]; [congruence|].
  simpl in Hsp. apply andb_true_iff in Hsp as [Hc Hsp].
  cbn [app ws_text]. rewrite Hc.
  destruct body as [|d body]; [destruct Hbody|].
  rewrite span_run by assumption. reflexivity.
Qed.

Lemma ws_text_some (sp text : str) :
  sp <> [] -> forallb is_space sp = true -> text <> [] ->
  exists t, ws_text (sp ++ text) = Some t.
Proof.
  intros Hne Hsp Htext. destruct sp as [|c sp]; [congruence|].
  simpl in Hsp. apply andb_true_iff in Hsp as [Hc Hsp].
  cbn [app ws_text]. rewrite Hc.
  pose proof (span_app is_space (sp ++ text)) as Hsplit.
  destruct (span is_space (sp ++ text)) as [a b]; cbn [fst snd] in *.
  destruct b as [|d b]; [|eexists; reflexivity].
  rewrite app_nil_r in Hsplit. subst a.
  destruct (rev (sp ++ text)) as [|e r] eqn:E; [|eexists; reflexivity].
  apply (f_equal (@length ascii)) in E. rewrite length_rev, length_app in E.
  destruct text; [congruence | simpl in E; lia].
Qed.

Lemma list_item_parts (indent rest : str) :
  forallb is_space indent = true ->
  list_item (indent ++ "-" ++ rest) = option_map (pair indent) (ws_text rest).
Proof.
  intros Hind. unfold list_item.
  change (indent ++ "-" ++ rest) with (indent ++ "-"%char :: rest).
  rewrite span_run; [reflexivity | exact Hind | reflexivity].
Qed.

(** A list item with its text: the heading of its depth and task state. *)
Lemma convert_line_item (indent sp text : str) :
  forallb is_space indent = true ->
  sp <> [] -> forallb is_space sp = true ->
  match text with c :: _ => is_space c = false | [] => False end ->
  no_newline (indent ++ "-" ++ sp ++ text) = true ->
  convert_line (indent ++ "-" ++ sp ++ text)
  = stars (outline_depth indent) ++ " " ++ task_heading text.
Proof.
  intros Hind Hne Hsp Htext Hline.
  rewrite convert_line_outline by exact Hline. unfold outline_line.
  rewrite list_item_parts, ws_text_run by assumption. reflexivity.
Qed.


(** C8. In the list-to-outline pass, every line made of optional leading
    white space, a dash, white space and text becomes a heading line whose
    depth is min(6, floor(normalized_indent/2) + 1), where the indentation
    counts a tab as 2 and a space as 1: the line is rewritten in place, to
    that many stars, a space and the heading text. "- TODO buy milk" becomes
    the first-level heading "* TODO buy milk", and the same line behind four
    spaces a third-level heading. *)
Theorem list_item_heading_depth :
  (forall (before after : list str) (indent sp text : str),
     forallb is_space indent = true ->
     sp <> [] -> forallb is_space sp = true -> text <> [] ->
     forallb no_newline (before ++ [indent ++ "-" ++ sp ++ text] ++ after) = true ->
     exists out_before body out_after,
       convert_hierarchical_structure
         (join [newline] (before ++ [indent ++ "-" ++ sp ++ text] ++ after))
       = join [newline]
           (out_before
            ++ [stars (Nat.min 6 (normalized_indent indent / 2 + 1)) ++ " " ++ body]
            ++ out_after)
       /\ length out_before = length before
       /\ length out_after = length after)
  /\ convert_hierarchical_structure "- TODO buy milk" = "* TODO buy milk"
  /\ convert_hierarchical_structure "    - TODO buy milk" = "*** TODO buy milk".
Proof.
  split; [|split; vm_compute; reflexivity].
  intros before after indent sp text Hind Hne Hsp Htext Hlines.
  destruct (ws_text_some sp text Hne Hsp Htext) as [t Ht].
  exists (map outline_line before), (task_heading t), (map outline_line after).
  rewrite convert_hierarchical_structure_lines;
    [| destruct before; discriminate | exact Hlines].
  rewrite !map_app. cbn [map]. unfold outline_line at 2.
  rewrite list_item_parts, Ht by exact Hind. cbn [option_map].
  rewrite !length_map. repeat split; reflexivity.
Qed.

Lemma list_item_heading_depth_witness :
  exists out_before body out_after,
    convert_hierarchical_structure
      (join [newline] (["Notes" : str] ++ [[tab] ++ "-" ++ " " ++ "item"] ++ ["end" : str]))
    = join [newline]
        (out_before
         ++ [stars (Nat.min 6 (normalized_indent [tab] / 2 + 1)) ++ " " ++ body]
         ++ out_after)
    /\ length out_before = 1 /\ length out_after = 1.
Proof.
  apply (proj1 list_item_heading_depth ["Notes" : str] ["end" : str] [tab] " " "item");
    (reflexivity || discriminate).
Defined.

Lemma task_heading_checkbox (c : ascii) (sp body : str) :
  c = " "%char \/ c = "x"%char \/ c = "X"%char ->
  sp <> [] -> forallb is_space sp = true ->
  match body with d :: _ => is_space d = false | [] => False end ->
  task_heading ("[" ++ [c] ++ "]" ++ sp ++ body)
  = (if Ascii.eqb c " " then "TODO" else "DONE") ++ " " ++ body.
Proof.
  intros Hc Hne Hsp Hbody. unfold task_heading, checkbox_marker.
  cbn [list_ascii_of_string app Ascii.eqb Bool.eqb andb].
  rewrite ws_text_run by assumption.
  destruct Hc as [->|[->| ->]]; reflexivity.
Qed.

Lemma task_heading_keyword (kw sp body : str) :
  In kw task_keywords ->
  sp <> [] -> forallb is_space sp = true ->
  match body with d :: _ => is_space d = false | [] => False end ->
  task_heading (kw ++ sp ++ body) = keyword_state kw ++ " " ++ body.
Proof.
  intros Hkw Hne Hsp Hbody. unfold task_heading, task_keyword, task_keywords in *.
  repeat (destruct Hkw as [<-|Hkw];
    [ cbn [list_ascii_of_string app checkbox_marker Ascii.eqb Bool.eqb andb
           task_keyword_in startswith length skipn];
      rewrite ?drop_0, ws_text_run by assumption; reflexivity |]).
  destruct Hkw.
Qed.

(** ** Substitution, piece by piece *)

Section SubLoop.

Context {S : Type} (fl : flags) (r : regex) (f : mobj -> S -> list ascii * S).

(** The characters of a match are passed without a look. *)
Lemma sub_loop_skip (a : str) : forall pre rest st,
  sub_loop fl r f pre (a ++ rest) (length a) st
  = sub_loop fl r f (rev a ++ pre) rest 0 st.
Proof.
  induction a as [|c a IH]; intros pre rest st; [reflexivity|].
  cbn [app length sub_loop rev]. rewrite IH, <- app_assoc. reflexivity.
Qed.

(** A text in which no match starts is copied. *)
Lemma sub_loop_copy (t : str) : forall pre rest st,
  (forall t1 c t2, t = t1 ++ c :: t2 ->
     match_at fl r (rev t1 ++ pre, c :: t2 ++ rest) = None) ->
  sub_loop fl r f pre (t ++ rest) 0 st
  = (t ++ fst (sub_loop fl r f (rev t ++ pre) rest 0 st),
     snd (sub_loop fl r f (rev t ++ pre) rest 0 st)).
Proof.
  induction t as [|c t IH]; intros pre rest st H.
  - cbn [app rev]. destruct (sub_loop fl r f pre rest 0 st); reflexivity.
  - cbn [app sub_loop]. pose proof (H [] c t eq_refl) as H0. cbn [rev app] in H0.
    rewrite H0. cbn [fst snd]. rewrite IH.
    + cbn [fst snd rev]. rewrite <- app_assoc. reflexivity.
    + intros t1 d t2 ->. specialize (H (c :: t1) d t2 eq_refl).
      cbn [rev] in H. rewrite <- app_assoc in H. exact H.
Qed.

(** A match is replaced and the scan goes on after it. *)
Lemma sub_loop_match (a : str) pre rest st m :
  a <> [] ->
  match_at fl r (pre, a ++ rest) = Some m -> m_all m = a ->
  sub_loop fl r f pre (a ++ rest) 0 st
  = (fst (f m st) ++ fst (sub_loop fl r f (rev a ++ pre) rest 0 (snd (f m st))),
     snd (sub_loop fl r f (rev a ++ pre) rest 0 (snd (f m st)))).
Proof.
  intros Hne Hm Hall. destruct a as [|c a]; [congruence|].
  cbn [app sub_loop]. cbn [app] in Hm. rewrite Hm, Hall. cbn [length].
  rewrite sub_loop_skip. cbn [rev]. rewrite <- app_assoc. reflexivity.
Qed.

Lemma sub_loop_end pre st :
  match_at fl r (pre, []) = None -> sub_loop fl r f pre [] 0 st = ([], st).
Proof. intros H. cbn [sub_loop]. rewrite H. reflexivity. Qed.

(** A state property kept by the replacement function is kept by the
    substitution. *)
Lemma sub_loop_invariant (P : S -> Prop) :
  (forall m st, P st -> P (snd (f m st))) ->
  forall suf pre skip st, P st -> P (snd (sub_loop fl r f pre suf skip st)).
Proof.
  intros Hf. induction suf as [|c suf IH]; intros pre skip st Hst.
  - destruct skip; cbn [sub_loop]; [|exact Hst].
    destruct (match_at fl r (pre, [])); [apply Hf, Hst | exact Hst].
  - destruct skip; cbn [sub_loop]; [|apply IH, Hst].
    destruct (match_at fl r (pre, c :: suf)) as [m|]; [|apply IH, Hst].
    destruct (length (m_all m)); cbn [snd]; apply IH, Hf, Hst.
Qed.

End SubLoop.

Lemma quiet_app fl r a b : quiet fl r a -> quiet fl r b -> quiet fl r (a ++ b).
Proof.
  intros Ha Hb pre rest t1 c t2 E.
  apply List.app_eq_app in E as (l & [[-> E]|[-> ->]]).
  - destruct l as [|d a2].
    + cbn [app] in E. subst b.
      apply (Hb (rev t1 ++ pre) rest [] c t2 eq_refl).
    + cbn [app] in E. injection E as <- ->. rewrite <- app_assoc.
      apply (Ha pre (b ++ rest) t1 c a2 eq_refl).
  - rewrite rev_app_distr, <- app_assoc.
    apply (Hb (rev a ++ pre) rest l c t2 eq_refl).
Qed.

(** A quiet text is left as it is. *)
Lemma sub_loop_quiet {S} fl r (f : mobj -> S -> str * S) t pre st :
  quiet fl r t -> match_at fl r (rev t ++ pre, []) = None ->
  sub_loop fl r f pre t 0 st = (t, st).
Proof.
  intros Hq Hend. rewrite <- (app_nil_r t) at 1.
  rewrite sub_loop_copy by (intros t1 c t2 E; apply (Hq pre [] t1 c t2 E)).
  rewrite sub_loop_end by exact Hend. cbn [fst snd]. rewrite app_nil_r. reflexivity.
Qed.

(** ** Double-bracket links *)

(** *** Where the expressions match *)

Lemma cmatch_not_close c :
  cmatch no_flags (none_of "]") c = negb (Ascii.eqb c "]").
Proof. unfold cmatch, none_of; simpl. rewrite orb_false_r. reflexivity. Qed.

Lemma match_at_word_first (w : str) (r : regex) pre s :
  startswith w s = false -> match_at no_flags (Seq (word w) r) (pre, s) = None.
Proof.
  intros H. unfold match_at. rewrite rmatch_seq, rmatch_word, H. reflexivity.
Qed.

(** The text between the brackets: the longest run without a closing
    bracket, when what follows fails before any other character. *)
Lemma rmatch_link_text {R} (K : pos -> caps -> option R) pre a b cp :
  forallb (fun c => negb (Ascii.eqb c "]")) a = true ->
  match b with c :: _ => Ascii.eqb c "]" = true | [] => True end ->
  (forall q c s cp', Ascii.eqb c "]" = false -> K (q, c :: s) cp' = None) ->
  rmatch no_flags (Grp 1 (plus_lazy (Chr (none_of "]")))) R (pre, a ++ b) cp K
  = match a with
    | [] => None
    | _ :: _ => K (rev a ++ pre, b) ((1, a) :: cp)
    end.
Proof.
  intros Ha Hb HK. rewrite rmatch_grp. unfold plus_lazy. rewrite rmatch_seq.
  destruct a as [|c a].
  - destruct b as [|d b]; [reflexivity|]. cbn [app].
    rewrite rmatch_chr_cons, cmatch_not_close, Hb. reflexivity.
  - simpl in Ha. apply andb_true_iff in Ha as [Hc Ha].
    cbn [app]. rewrite rmatch_chr_cons, cmatch_not_close, Hc.
    rewrite rmatch_star_lazy_chr.
    rewrite lazy_run_app.
    + rewrite lazy_run_stop.
      * rewrite (consumed_app pre _ (c :: a) b). cbn [rev]. rewrite <- app_assoc.
        reflexivity.
      * destruct b as [|d b]; [exact I|]. rewrite cmatch_not_close, Hb. reflexivity.
    + clear -Ha. induction a as [|x a IH]; [reflexivity|]. simpl in *.
      apply andb_true_iff in Ha as [Hx Ha]. rewrite cmatch_not_close, Hx. exact (IH Ha).
    + intros a1 x a2 ->. apply HK.
      apply negb_true_iff. exact (forallb_split _ _ _ _ Ha).
Qed.

Lemma word_close_fails {R} (r : regex) (K : pos -> caps -> option R) q c s cp :
  Ascii.eqb c "]" = false ->
  rmatch no_flags (Seq (word "]]") r) R (q, c :: s) cp K = None.
Proof.
  intros H. rewrite rmatch_seq, rmatch_word. cbn [list_ascii_of_string startswith].
  rewrite Ascii.eqb_sym, H. reflexivity.
Qed.

(** A link is matched as a whole, its text in group 1. *)
Lemma match_at_double_link pre t rest :
  t <> [] -> forallb (fun c => negb (Ascii.eqb c "]")) t = true ->
  match_at no_flags re_double_link (pre, ("[[" ++ t ++ "]]") ++ rest)
  = Some {| m_all := "[[" ++ t ++ "]]"; m_caps := [(1, t)] |}.
Proof.
  intros Hne Ht. unfold match_at, re_double_link. cbn [seq].
  rewrite rmatch_seq, rmatch_word. rewrite <- !app_assoc.
  rewrite startswith_prefix.
  change (drop (length "[[") ("[[" ++ t ++ "]]" ++ rest)) with (t ++ "]]" ++ rest).
  rewrite rmatch_seq.
  rewrite (rmatch_link_text _ _ t ("]]" ++ rest)); [| exact Ht | reflexivity |].
  - destruct t as [|c t]; [congruence|].
    rewrite rmatch_word, startswith_prefix.
    change (drop (length "]]") ("]]" ++ rest)) with rest.
    f_equal. f_equal.
    rewrite (app_assoc "[[" (c :: t)), (app_assoc _ "]]" rest).
    apply consumed_app.
  - intros q c s cp' Hc. rewrite rmatch_word.
    cbn [list_ascii_of_string startswith]. rewrite Ascii.eqb_sym, Hc. reflexivity.
Qed.

(** The second expression does not match where a closing bracket is
    followed by something else. *)
Lemma match_at_strict_open pre a rest :
  forallb (fun c => negb (Ascii.eqb c "]")) a = true ->
  match rest with c :: _ => Ascii.eqb c "]" = false | [] => True end ->
  match_at no_flags re_double_link_strict (pre, "[[" ++ a ++ "]" ++ rest) = None.
Proof.
  intros Ha Hrest. unfold match_at, re_double_link_strict. cbn [seq].
  rewrite rmatch_seq, rmatch_word, startswith_prefix.
  change (drop (length "[[") ("[[" ++ a ++ "]" ++ rest)) with (a ++ "]" ++ rest).
  rewrite rmatch_seq.
  rewrite (rmatch_link_text _ _ a ("]" ++ rest)); [| exact Ha | reflexivity |].
  - destruct a as [|c a]; [reflexivity|].
    rewrite rmatch_seq, rmatch_word. cbn [list_ascii_of_string app startswith].
    destruct rest as [|d rest]; [reflexivity|].
    rewrite (Ascii.eqb_sym "]" d), Hrest. reflexivity.
  - intros q c s cp' Hc. apply word_close_fails, Hc.
Qed.

(** *** Plain text *)

Lemma no_double_open_suffix t1 s : no_double_open (t1 ++ s) = true -> no_double_open s = true.
Proof.
  induction t1 as [|c t1 IH]; [trivial|]. cbn [app no_double_open].
  intros H. apply andb_true_iff in H as [_ H]. exact (IH H).
Qed.

Lemma no_double_open_start c t2 rest :
  no_double_open (c :: t2) = true -> startswith "[[" (c :: t2 ++ rest) = false.
Proof.
  cbn [no_double_open list_ascii_of_string startswith]. intros H.
  apply andb_true_iff in H as [H _]. rewrite (Ascii.eqb_sym "[" c).
  destruct (Ascii.eqb c "["); [|reflexivity].
  destruct t2 as [|d t2]; [discriminate|]. cbn [app andb].
  rewrite (Ascii.eqb_sym "[" d). apply negb_true_iff in H. rewrite H. reflexivity.
Qed.

Lemma quiet_plain (r : regex) s :
  no_double_open s = true -> quiet no_flags (Seq (word "[[") r) s.
Proof.
  intros Hs pre rest t1 c t2 ->. apply match_at_word_first.
  apply no_double_open_start, (no_double_open_suffix t1), Hs.
Qed.

Lemma match_at_end_word (w : str) (r : regex) pre :
  w <> [] -> match_at no_flags (Seq (word w) r) (pre, []) = None.
Proof. intros H. apply match_at_word_first. destruct w; [congruence | reflexivity]. Qed.

Lemma no_double_open_app a b :
  no_double_open a = true -> no_double_open b = true -> no_double_open (a ++ b) = true.
Proof.
  intros Ha Hb. induction a as [|c a IH]; [exact Hb|].
  cbn [app no_double_open] in *. apply andb_true_iff in Ha as [Hc Ha].
  rewrite (IH Ha), andb_true_r.
  destruct (Ascii.eqb c "["); [|reflexivity].
  destruct a as [|d a]; [discriminate | exact Hc].
Qed.

Lemma no_bracket_no_double_open s : no_bracket s = true -> no_double_open s = true.
Proof.
  induction s as [|c s IH]; [reflexivity|]. cbn [no_bracket forallb no_double_open].
  intros H. apply andb_true_iff in H as [Hc H]. rewrite (IH H), andb_true_r.
  apply negb_true_iff, orb_false_iff in Hc as [-> _]. reflexivity.
Qed.

Lemma no_bracket_not_close s :
  no_bracket s = true -> forallb (fun c => negb (Ascii.eqb c "]")) s = true.
Proof.
  induction s as [|c s IH]; [reflexivity|]. cbn [no_bracket forallb].
  intros H. apply andb_true_iff in H as [Hc H]. rewrite (IH H), andb_true_r.
  apply negb_true_iff, orb_false_iff in Hc as [_ ->]. reflexivity.
Qed.

Lemma no_bracket_app a b : no_bracket (a ++ b) = no_bracket a && no_bracket b.
Proof. apply forallb_app. Qed.

Lemma typed_link_tail id display :
  no_bracket id = true -> no_bracket display = true ->
  no_double_open ("[id:" ++ id ++ "][" ++ display ++ "]]") = true.
Proof.
  intros Hid Hd.
  change ("[id:" ++ id ++ "][" ++ display ++ "]]")
    with ("[id:" ++ id ++ "]" ++ ("[" ++ display ++ "]]")).
  apply (no_double_open_app "[id:"); [reflexivity|].
  apply no_double_open_app; [apply no_bracket_no_double_open, Hid|].
  apply (no_double_open_app "]"); [reflexivity|].
  destruct display as [|d display]; [reflexivity|].
  cbn [list_ascii_of_string app no_double_open].
  cbn [no_bracket forallb] in Hd. apply andb_true_iff in Hd as [Hc Hd].
  apply negb_true_iff, orb_false_iff in Hc as [Hc1 Hc2].
  rewrite Hc1. cbn [negb andb Ascii.eqb Bool.eqb].
  apply (no_double_open_app display "]]");
    [apply no_bracket_no_double_open, Hd | reflexivity].
Qed.

(** A converted link is quiet for the second expression. *)
Lemma quiet_typed_link id display :
  no_bracket id = true -> no_bracket display = true ->
  quiet no_flags re_double_link_strict (typed_link id display).
Proof.
  intros Hid Hd pre rest t1 c t2 E. unfold typed_link in E.
  change ("[[id:" ++ id ++ "][" ++ display ++ "]]")
    with ("["%char :: ("[id:" ++ id ++ "][" ++ display ++ "]]")) in E.
  destruct t1 as [|x t1]; cbn [app] in E; injection E as <- E.
  - subst t2. cbn [rev app].
    match goal with
    | |- match_at _ _ (_, ?s) = _ =>
        replace s
          with ("[[" ++ ("id:" ++ id) ++ "]" ++ ("[" ++ display ++ "]]" ++ rest))
    end.
    + apply match_at_strict_open; [|reflexivity].
      cbn [list_ascii_of_string app forallb]. apply no_bracket_not_close, Hid.
    + repeat (rewrite <- app_assoc || (progress cbn [list_ascii_of_string app])).
      reflexivity.
  - cbn [rev]. rewrite <- app_assoc.
    apply (quiet_plain _ _ (typed_link_tail id display Hid Hd) _ _ _ _ _ E).
Qed.

(** *** The text of a link *)

Lemma split_on_nonempty sep s : split_on sep s <> [].
Proof.
  destruct s as [|c s]; [discriminate|]. cbn [split_on].
  destruct (split_on sep s); [discriminate|]. destruct (Ascii.eqb c sep); discriminate.
Qed.

Lemma join_cons_char sep c l ls :
  join [sep] ((c :: l) :: ls) = c :: join [sep] (l :: ls).
Proof. destruct ls; reflexivity. Qed.

Lemma join_split_on sep s : join [sep] (split_on sep s) = s.
Proof.
  induction s as [|c s IH]; [reflexivity|]. cbn [split_on].
  pose proof (split_on_nonempty sep s) as Hne.
  destruct (split_on sep s) as [|l ls]; [congruence|].
  destruct (Ascii.eqb_spec c sep) as [->|_].
  - change (join [sep] ([] :: l :: ls)) with (sep :: join [sep] (l :: ls)).
    rewrite IH. reflexivity.
  - rewrite join_cons_char, IH. reflexivity.
Qed.

Lemma split_on_bar t :
  split_on "|" t
  = fst (bar_split t)
    :: match snd (bar_split t) with Some rest => split_on "|" rest | None => [] end.
Proof.
  induction t as [|c t IH]; [reflexivity|]. cbn [split_on bar_split].
  pose proof (split_on_nonempty "|" t) as Hne.
  destruct (Ascii.eqb c "|").
  - cbn [fst snd]. destruct (split_on "|" t); [congruence | reflexivity].
  - cbn [fst snd]. rewrite IH. reflexivity.
Qed.

Lemma link_parts t :
  strip (hd [] (split_on "|" t)) = strip (fst (bar_split t))
  /\ match split_on "|" t with
     | _ :: _ :: _ => strip (join "|" (tl (split_on "|" t)))
     | _ => strip (hd [] (split_on "|" t))
     end = link_display t.
Proof.
  rewrite split_on_bar. cbn [hd tl]. split; [reflexivity|]. unfold link_display.
  destruct (snd (bar_split t)) as [rest|]; [|reflexivity].
  pose proof (split_on_nonempty "|" rest) as Hne.
  pose proof (join_split_on "|" rest) as Hj.
  destruct (split_on "|" rest); [congruence|].
  change (list_ascii_of_string "|") with ["|"%char]. rewrite Hj. reflexivity.
Qed.

Lemma no_bracket_lstrip s : no_bracket s = true -> no_bracket (lstrip s) = true.
Proof.
  induction s as [|c s IH]; [trivial|]. cbn [lstrip]. intros H.
  destruct (is_space c); [|exact H]. cbn [no_bracket forallb] in H.
  apply andb_true_iff in H as [_ H]. exact (IH H).
Qed.

Lemma no_bracket_rstrip s : no_bracket s = true -> no_bracket (rstrip s) = true.
Proof.
  induction s as [|c s IH]; [trivial|]. cbn [rstrip no_bracket forallb]. intros H.
  apply andb_true_iff in H as [Hc H]. specialize (IH H).
  destruct (rstrip s).
  - destruct (is_space c); [reflexivity|]. cbn [no_bracket forallb]. rewrite Hc. reflexivity.
  - cbn [no_bracket forallb] in *. rewrite Hc. exact IH.
Qed.

Lemma no_bracket_strip s : no_bracket s = true -> no_bracket (strip s) = true.
Proof. intros H. apply no_bracket_rstrip, no_bracket_lstrip, H. Qed.

Lemma no_bracket_bar_split t :
  no_bracket t = true ->
  no_bracket (fst (bar_split t)) = true
  /\ match snd (bar_split t) with Some rest => no_bracket rest = true | None => True end.
Proof.
  induction t as [|c t IH]; [split; [reflexivity | exact I]|].
  cbn [no_bracket forallb bar_split]. intros H. apply andb_true_iff in H as [Hc H].
  destruct (Ascii.eqb c "|"); cbn [fst snd].
  - split; [reflexivity | exact H].
  - destruct (IH H) as [H1 H2]. split; [|exact H2].
    cbn [no_bracket forallb]. rewrite Hc. exact H1.
Qed.

Lemma no_bracket_link_display t : no_bracket t = true -> no_bracket (link_display t) = true.
Proof.
  intros H. destruct (no_bracket_bar_split t H) as [H1 H2]. unfold link_display.
  destruct (snd (bar_split t)); apply no_bracket_strip; assumption.
Qed.

Section DoubleLinks.

Variable uuid4 : nat -> list ascii.

(** The replacement function on a link is the conversion of the link. *)
Lemma replace_link_piece all t st :
  replace_link uuid4 {| m_all := all; m_caps := [(1, t)] |} st
  = convert_piece uuid4 (DoubleLink t) st.
Proof.
  unfold replace_link, convert_piece, resolve_page, link_target, typed_link.
  cbn [group' group m_caps cap_get Nat.eqb].
  destruct (link_parts t) as [Hname Halias]. rewrite Halias, Hname.
  unfold bind, get, ret, modify, generate_uuid. cbn [fst snd].
  destruct (page_ids st !! normalize_page_name (strip (bar_split t).1)); reflexivity.
Qed.

Hypothesis uuid4_plain : forall n, no_bracket (uuid4 n) = true.

Lemma resolve_page_plain name st :
  plain_ids st ->
  no_bracket (fst (resolve_page uuid4 name st)) = true
  /\ plain_ids (snd (resolve_page uuid4 name st)).
Proof.
  intros Hst. unfold resolve_page.
  destruct (page_ids st !! name) as [id|] eqn:E; cbn [fst snd].
  - split; [exact (Hst _ _ E) | exact Hst].
  - split; [apply uuid4_plain|]. intros n i. cbn [page_ids set_missing_pages set_page_ids].
    destruct (decide (name = n)) as [->|Hn].
    + rewrite lookup_insert_eq. intros [= <-]. apply uuid4_plain.
    + rewrite lookup_insert_ne by exact Hn. apply Hst.
Qed.

(** The first expression converts the links and copies the rest. *)
Lemma first_pass (ps : list piece_of_text) : forall pre st,
  forallb well_formed_piece ps = true ->
  sub_loop no_flags re_double_link (replace_link uuid4) pre
    (concat (map source_text ps)) 0 st
  = convert_pieces uuid4 ps st.
Proof.
  induction ps as [|p ps IH]; intros pre st Hwf.
  - apply sub_loop_end. apply (match_at_end_word "[["). discriminate.
  - cbn [forallb] in Hwf. apply andb_true_iff in Hwf as [Hp Hwf].
    cbn [map concat convert_pieces]. unfold bind at 1 2. unfold ret at 1.
    destruct p as [s|t]; cbn [source_text convert_piece well_formed_piece] in *.
    + rewrite sub_loop_copy.
      * rewrite IH by exact Hwf. reflexivity.
      * intros t1 c t2 E. exact (quiet_plain _ s Hp pre _ t1 c t2 E).
    + apply andb_true_iff in Hp as [Hne Ht].
      assert (t <> []) as Hne'.
      { intros ->. discriminate. }
      erewrite sub_loop_match;
        [ | | apply match_at_double_link;
              [exact Hne' | apply no_bracket_not_close, Ht] | reflexivity ].
      * rewrite replace_link_piece, IH by exact Hwf. reflexivity.
      * destruct t; discriminate.
Qed.

(** The text that the first expression leaves has no match of the second. *)
Lemma convert_pieces_quiet (ps : list piece_of_text) : forall st,
  forallb well_formed_piece ps = true -> plain_ids st ->
  quiet no_flags re_double_link_strict (fst (convert_pieces uuid4 ps st)).
Proof.
  induction ps as [|p ps IH]; intros st Hwf Hst.
  - intros pre rest t1 c t2 E. destruct t1; discriminate.
  - cbn [forallb] in Hwf. apply andb_true_iff in Hwf as [Hp Hwf].
    cbn [convert_pieces]. unfold bind at 1 2. unfold ret at 1. cbn [fst].
    apply quiet_app.
    + destruct p as [s|t]; cbn [convert_piece well_formed_piece] in *.
      * apply (quiet_plain _ s Hp).
      * apply andb_true_iff in Hp as [_ Ht]. unfold bind, ret. cbn [fst].
        apply quiet_typed_link;
          [apply resolve_page_plain, Hst | apply no_bracket_link_display, Ht].
    + apply IH; [exact Hwf|].
      destruct p as [s|t]; cbn [convert_piece]; [exact Hst|].
      unfold bind, ret. cbn [snd]. apply resolve_page_plain, Hst.
Qed.

End DoubleLinks.

(** *** The identifiers of the examples *)

Lemma string_of_uint_plain d :
  no_bracket (list_ascii_of_string (NilEmpty.string_of_uint d)) = true.
Proof. induction d; cbn; try exact IHd; reflexivity. Qed.

Lemma uuid_demo_plain n : no_bracket (uuid_demo n) = true.
Proof.
  unfold uuid_demo, str_of_nat. rewrite no_bracket_app, string_of_uint_plain. reflexivity.
Qed.

Lemma str_of_nat_inj n m : str_of_nat n = str_of_nat m -> n = m.
Proof.
  unfold str_of_nat. intros H.
  apply (f_equal string_of_list_ascii) in H.
  rewrite !string_of_list_ascii_of_string in H.
  apply (f_equal NilEmpty.uint_of_string) in H. rewrite !NilEmpty.usu in H.
  injection H as H. apply DecimalNat.Unsigned.to_uint_inj, H.
Qed.

Lemma uuid_demo_inj n m : uuid_demo n = uuid_demo m -> n = m.
Proof. unfold uuid_demo. intros H. apply app_inv_head in H. apply str_of_nat_inj, H. Qed.




(** ** The header of a converted document *)

Lemma fold_left_extends {A} (g : list ascii -> A -> list ascii) (l : list A) :
  (forall h x, exists s, g h x = h ++ s) ->
  forall init, exists rest, fold_left g l init = init ++ rest.
Proof.
  intros Hg. induction l as [|x l IH]; intros init.
  - exists []. cbn. rewrite app_nil_r. reflexivity.
  - cbn [fold_left]. destruct (Hg init x) as [s ->].
    destruct (IH (init ++ s)) as [rest ->]. exists (s ++ rest).
    rewrite <- app_assoc. reflexivity.
Qed.

Section Header.

Variable uuid4 : nat -> list ascii.
Variable yaml_safe_load : list ascii -> option (option (list (list ascii * pyval))).

Lemma create_org_header_start title properties st :
  exists rest,
    fst (create_org_header uuid4 title properties st)
    = (":PROPERTIES:" ++ nl ++ ":ID: " ++ header_identifier uuid4 title st ++ nl)
      ++ rest.
Proof.
  unfold create_org_header. cbv [bind get ret modify generate_uuid].
  cbn [fst snd page_ids draws set_draws]. fold (header_identifier uuid4 title st).
  match goal with
  | |- context [fold_left ?g properties ?i] =>
      assert (Hg : forall h x, exists s, g h x = h ++ s);
      [| destruct (fold_left_extends g properties Hg i) as [mid ->] ]
  end.
  - intros h kv. cbv zeta.
    destruct (str_eqb (upper kv.1) "ID" || str_eqb (upper kv.1) "TITLE").
    + exists []. rewrite app_nil_r. reflexivity.
    + eexists. reflexivity.
  - destruct (props_get "tags" properties) as [tags|];
      eexists; rewrite <- !app_assoc; reflexivity.
Qed.

Lemma create_org_header_state title properties st :
  snd (create_org_header uuid4 title properties st) = set_draws S st.
Proof. reflexivity. Qed.

(** The document that [convert_file] writes: the header of the display
    title, then the converted text. *)
Lemma convert_file_written stem content output_path st :
  exists body st1,
    let properties := fst (extract_properties yaml_safe_load content) in
    let title := display_title properties (file_to_title st) stem in
    snd (convert_file uuid4 yaml_safe_load stem content output_path st)
    = match title with
      | VList _ _ => st1
      | _ =>
          set_written
            <[ output_path :=
                 post_fixes (fst (create_org_header uuid4 title properties st1)
                             ++ strip body) ]>
            (snd (create_org_header uuid4 title properties st1))
      end.
Proof.
  eexists. eexists. cbv zeta.
  unfold convert_file, post_fixes, display_title, bind, get. cbn [fst snd].
  destruct (match props_get "title" (extract_properties yaml_safe_load content).1 with
            | Some v => if py_truthy v then v
                        else VStr (dict_get (file_to_title st) stem stem)
            | None => VStr (dict_get (file_to_title st) stem stem)
            end); reflexivity.
Qed.

End Header.

(** C2. The identifier in the :PROPERTIES: header of a converted document
    is looked up in the map of page identifiers under the display title
    (the title property, else the title found by the scan, else the file
    stem), not under the name of the document. When the title is not a key
    of the map, the identifier is a new one; the header leaves the
    registries as they are, so no name has this identifier, and every
    identifier that a link resolves to afterwards differs from it. *)
Theorem header_identifier_by_title
    (uuid4 : nat -> list ascii)
    (yaml_safe_load : list ascii -> option (option (list (list ascii * pyval))))
    (title : pyval) (properties : list (list ascii * pyval)) (st : conv) :
  (forall n m, uuid4 n = uuid4 m -> n = m) ->
  drawn_ids uuid4 st ->
  let out := create_org_header uuid4 title properties st in
  (forall stem content output_path st0,
     exists body st1,
       let properties := fst (extract_properties yaml_safe_load content) in
       let title := display_title properties (file_to_title st0) stem in
       snd (convert_file uuid4 yaml_safe_load stem content output_path st0)
       = match title with
         | VList _ _ => st1
         | _ =>
             set_written
               <[ output_path :=
                    post_fixes (fst (create_org_header uuid4 title properties st1)
                                ++ strip body) ]>
               (snd (create_org_header uuid4 title properties st1))
         end)
  /\ (exists rest,
        fst out
        = (":PROPERTIES:" ++ nl ++ ":ID: " ++ header_identifier uuid4 title st ++ nl)
          ++ rest)
  /\ page_ids (snd out) = page_ids st
  /\ block_ids (snd out) = block_ids st
  /\ missing_pages (snd out) = missing_pages st
  /\ ((forall t, title = VStr t -> page_ids st !! t = None) ->
      header_identifier uuid4 title st = uuid4 (draws st)
      /\ (forall name id, page_ids (snd out) !! name = Some id ->
            id <> header_identifier uuid4 title st)
      /\ (forall name,
            fst (resolve_page uuid4 name (snd out))
            <> header_identifier uuid4 title st)).
Proof.
  intros Hinj Hst out.
  split; [intros; apply convert_file_written|].
  split; [apply create_org_header_start|].
  split; [reflexivity|]. split; [reflexivity|]. split; [reflexivity|].
  intros Hkey.
  assert (Hid : header_identifier uuid4 title st = uuid4 (draws st)).
  { unfold header_identifier. destruct title as [t| |]; try reflexivity.
    rewrite (Hkey t eq_refl). reflexivity. }
  assert (Hother : forall name id, page_ids st !! name = Some id ->
                     id <> header_identifier uuid4 title st).
  { intros name id H E. rewrite Hid in E. destruct (Hst _ _ H) as (k & Hk & ->).
    apply Hinj in E. lia. }
  split; [exact Hid|]. split; [exact Hother|].
  intros name. unfold resolve_page. subst out. rewrite create_org_header_state.
  cbn [page_ids draws set_draws].
  destruct (page_ids st !! name) as [id|] eqn:E; cbn [fst].
  - exact (Hother _ _ E).
  - rewrite Hid. intros H. apply Hinj in H. lia.
Qed.

Lemma header_identifier_by_title_witness :
  exists rest,
    fst (create_org_header uuid_demo (VStr "My Title") [] 
           (snd (scan_file uuid_demo ("a" : list ascii, "# My Title" : list ascii) conv_init)))
    = (":PROPERTIES:" ++ nl ++ ":ID: " ++ uuid_demo 1 ++ nl) ++ rest.
Proof.
  assert (Hdrawn : drawn_ids uuid_demo
            (snd (scan_file uuid_demo ("a" : list ascii, "# My Title" : list ascii)
                    conv_init))).
  { intros name id H. exists 0. split; [vm_compute; lia|].
    change (page_ids _) with (<[ ("a" : list ascii) := uuid_demo 0 ]> (∅ : gmap (list ascii) (list ascii))) in H.
    apply lookup_insert_Some in H as [[_ <-]|[_ H]]; [reflexivity|].
    rewrite lookup_empty in H. discriminate H. }
  exact (proj1 (proj2 (header_identifier_by_title uuid_demo yaml_demo
                         (VStr "My Title") [] _ uuid_demo_inj Hdrawn))).
Defined.

(** A page whose first heading differs from its file name: the header of
    the converted page has a new identifier, and the link to the page
    resolves to the identifier given by the scan. *)
Example header_identifier_example :
  written
    (snd (convert_all uuid_demo yaml_demo now_demo
            {| pages := [("a" : list ascii, ("# My Title" ++ nl ++ "see [[a]]") : list ascii)];
               journals := [] |} conv_init))
  !! ("pages/a.org" : list ascii)
  = Some (":PROPERTIES:" ++ nl ++ ":ID: " ++ uuid_demo 6 ++ nl ++ ":END:" ++ nl
          ++ "#+TITLE: My Title" ++ nl ++ nl ++ "* My Title" ++ nl
          ++ "see " ++ typed_link (uuid_demo 0) "a").
Proof. vm_compute. reflexivity. Qed.

(** ** The stability of the identifiers *)

Section Stability.

Variable uuid4 : nat -> list ascii.

(** The conversion of the links keeps the identifier of every name that has
    one. *)
Lemma replace_link_keeps m st name id :
  page_ids st !! name = Some id ->
  page_ids (snd (replace_link uuid4 m st)) !! name = Some id.
Proof.
  intros H. unfold replace_link. cbv [bind get ret modify generate_uuid].
  cbn [fst snd].
  destruct (page_ids st !! normalize_page_name _) as [i|] eqn:E; cbn [fst snd]; [exact H|].
  cbn [page_ids set_missing_pages set_page_ids set_draws].
  rewrite lookup_insert_ne; [exact H|]. intros <-. congruence.
Qed.

Lemma convert_double_links_keeps content st name id :
  page_ids st !! name = Some id ->
  page_ids (snd (convert_double_links uuid4 content st)) !! name = Some id.
Proof.
  intros H. unfold convert_double_links, bind, re_sub_st.
  apply (sub_loop_invariant _ _ _ (fun s => page_ids s !! name = Some id));
    [intros; apply replace_link_keeps; assumption|].
  apply (sub_loop_invariant _ _ _ (fun s => page_ids s !! name = Some id));
    [intros; apply replace_link_keeps; assumption | exact H].
Qed.

(** The same for the block references. *)
Lemma block_id_keeps ref st token id :
  block_ids st !! token = Some id ->
  block_ids (snd (block_id uuid4 ref st)) !! token = Some id.
Proof.
  intros H. unfold block_id. cbv [bind get ret modify generate_uuid]. cbn [fst snd].
  destruct (block_ids st !! ref) as [i|] eqn:E; cbn [fst snd]; [exact H|].
  cbn [block_ids set_block_ids set_draws].
  rewrite lookup_insert_ne; [exact H|]. intros <-. congruence.
Qed.

Lemma convert_block_references_keeps content st token id :
  block_ids st !! token = Some id ->
  block_ids (snd (convert_block_references uuid4 content st)) !! token = Some id.
Proof.
  intros H. unfold convert_block_references, re_sub_st.
  apply (sub_loop_invariant _ _ _ (fun s => block_ids s !! token = Some id));
    [|exact H].
  intros m s Hs. unfold replace_block_ref, bind, ret. cbn [snd].
  apply block_id_keeps, Hs.
Qed.

Lemma convert_block_embeddings_keeps content st token id :
  block_ids st !! token = Some id ->
  block_ids (snd (convert_block_embeddings uuid4 content st)) !! token = Some id.
Proof.
  intros H. unfold convert_block_embeddings, re_sub_st.
  apply (sub_loop_invariant _ _ _ (fun s => block_ids s !! token = Some id));
    [|exact H].
  intros m s Hs. unfold replace_embed.
  destruct (re_search no_flags re_double_link _); [exact Hs|].
  destruct (re_search no_flags re_block_ref _); [|exact Hs].
  unfold bind, ret. cbn [snd]. apply block_id_keeps, Hs.
Qed.

(** C6, where the code departs from it: a stem that is a file of [pages]
    and a file of [journals] gets an identifier when the first file is
    scanned and another one when the second file is scanned. *)
Theorem scan_reassigns_identifier :
  let src := {| pages := [("a" : list ascii, [])];
                journals := [("a" : list ascii, [])] |} in
  page_ids (snd (for_each (pages src) (scan_file uuid4) conv_init))
    !! ("a" : list ascii) = Some (uuid4 0)
  /\ page_ids (snd (scan_existing_pages uuid4 src conv_init))
       !! ("a" : list ascii) = Some (uuid4 1).
Proof. split; vm_compute; reflexivity. Qed.

End Stability.

(** ** Runs of the converter *)

(** C1, where the code departs from it: the link [[_foo_]] is collected
    under the name "_foo_", which gets a stub; the conversion turns its
    underscores into emphasis and resolves the link under the name
    "___foo___", which is marked as missing after the stubs are written: no
    document of that name is in the output. *)
Theorem fallback_name_without_document :
  let st := snd (convert_all uuid_demo yaml_demo now_demo
                   {| pages := [("a" : list ascii, "[[_foo_]]" : list ascii)];
                      journals := [] |} conv_init) in
  bool_decide (("___foo___" : list ascii) ∈ missing_pages st) = true
  /\ page_ids st !! ("___foo___" : list ascii) = Some (uuid_demo 7)
  /\ written st !! ("pages/a.org" : list ascii)
     = Some (":PROPERTIES:" ++ nl ++ ":ID: " ++ uuid_demo 0 ++ nl ++ ":END:" ++ nl
             ++ "#+TITLE: a" ++ nl ++ nl ++ typed_link (uuid_demo 7) "/foo/")
  /\ map fst (map_to_list (written st))
     = [ "pages/a.org" : list ascii; "pages/_foo_.org" : list ascii ].
Proof. repeat split; vm_compute; reflexivity. Qed.

(** C4, where the code departs from it: in [convert_file] the links and the
    block references are converted before the embeds, so the embed of a
    page is left with a typed link inside, and the embed of a block becomes
    the include of a page named after the identifier. On its own,
    [convert_block_embeddings] makes the include of the page. *)
Theorem embed_after_links :
  written (snd (convert_file uuid_demo yaml_demo "a" "{{embed [[Page]]}}"
                  "pages/a.org" conv_init)) !! ("pages/a.org" : list ascii)
  = Some (":PROPERTIES:" ++ nl ++ ":ID: " ++ uuid_demo 6 ++ nl ++ ":END:" ++ nl
          ++ "#+TITLE: a" ++ nl ++ nl
          ++ "{{embed " ++ typed_link (uuid_demo 5) "Page" ++ "}}")
  /\ written (snd (convert_file uuid_demo yaml_demo "a" "{{embed ((abc))}}"
                     "pages/a.org" conv_init)) !! ("pages/a.org" : list ascii)
     = Some (":PROPERTIES:" ++ nl ++ ":ID: " ++ uuid_demo 6 ++ nl ++ ":END:" ++ nl
             ++ "#+TITLE: a" ++ nl ++ nl
             ++ "#+INCLUDE: " ++ [dquote] ++ "id" ++ uuid_demo 5 ++ ".org" ++ [dquote])
  /\ fst (convert_block_embeddings uuid_demo "{{embed [[Page]]}}" conv_init)
     = "#+INCLUDE: " ++ [dquote] ++ "Page.org" ++ [dquote]
  /\ fst (convert_block_embeddings uuid_demo "{{embed ((abc))}}" conv_init)
     = "#+INCLUDE: " ++ [dquote] ++ "[[id:" ++ uuid_demo 0 ++ "]]" ++ [dquote].
Proof. repeat split; vm_compute; reflexivity. Qed.

(** C5, where the code departs from it: in [convert_file] the references to
    assets are rewritten as links by [convert_markdown_to_org] before
    [update_asset_paths] sees them, and the two forms stay different. On its
    own, [update_asset_paths] gives both the form with "../assets/". *)
Theorem asset_paths_after_links :
  written (snd (convert_file uuid_demo yaml_demo "a" "![alt](assets/pic.png)"
                  "pages/a.org" conv_init)) !! ("pages/a.org" : list ascii)
  = Some (":PROPERTIES:" ++ nl ++ ":ID: " ++ uuid_demo 5 ++ nl ++ ":END:" ++ nl
          ++ "#+TITLE: a" ++ nl ++ nl ++ "![[assets/pic.png][alt]]")
  /\ written (snd (convert_file uuid_demo yaml_demo "a" "![alt](../assets/pic.png)"
                     "pages/a.org" conv_init)) !! ("pages/a.org" : list ascii)
     = Some (":PROPERTIES:" ++ nl ++ ":ID: " ++ uuid_demo 5 ++ nl ++ ":END:" ++ nl
             ++ "#+TITLE: a" ++ nl ++ nl ++ "![[../assets/pic.png][alt]]")
  /\ update_asset_paths "![alt](assets/pic.png)" = "![alt](../assets/pic.png)"
  /\ update_asset_paths "![alt](../assets/pic.png)" = "![alt](../assets/pic.png)".
Proof. repeat split; vm_compute; reflexivity. Qed.

(** ** Where the markup of emphasis cannot start *)

(** *** Texts in which an expression cannot start *)

Lemma free_of_app x a b : free_of x (a ++ b) = free_of x a && free_of x b.
Proof. apply forallb_app. Qed.

Lemma free_of_split x t1 c t2 : free_of x (t1 ++ c :: t2) = true -> Ascii.eqb c x = false.
Proof. intros H. apply negb_true_iff. exact (forallb_split _ _ _ _ H). Qed.

Lemma free_of_hex x h : is_hex x = false -> forallb is_hex h = true -> free_of x h = true.
Proof.
  intros Hx. induction h as [|c h IH]; [reflexivity|]. cbn [forallb free_of].
  intros H. apply andb_true_iff in H as [Hc H]. fold (free_of x h). rewrite (IH H), andb_true_r.
  apply negb_true_iff. destruct (Ascii.eqb_spec c x) as [->|]; [congruence | reflexivity].
Qed.

(** An expression that starts with a literal word. *)
Lemma quiet_word_first (x : ascii) (w : str) (r : regex) t :
  free_of x t = true -> quiet no_flags (Seq (word (x :: w)) r) t.
Proof.
  intros Ht pre rest t1 c t2 ->. apply match_at_word_first.
  cbn [startswith]. rewrite Ascii.eqb_sym, (free_of_split _ _ _ _ Ht). reflexivity.
Qed.

Lemma rmatch_behind fl neg a R p cp (k : pos -> caps -> option R) :
  rmatch fl (Behind neg a) R p cp k
  = match
      match back (width a) p with
      | Some p0 =>
          rmatch fl a _ p0 cp (fun p' cp' =>
            if length (snd p') =? length (snd p) then Some cp' else None)
      | None => None
      end
    with
    | Some cp' => if neg then None else k p cp'
    | None => if neg then k p cp else None
    end.
Proof. reflexivity. Qed.

(** An expression that starts with a lookbehind and a literal character. *)
Lemma match_at_behind_first fl neg b x r pre c s :
  cmatch fl (Lit x) c = false ->
  match_at fl (Seq (Behind neg b) (Seq (lit x) r)) (pre, c :: s) = None.
Proof.
  intros Hc. unfold match_at. rewrite rmatch_seq, rmatch_behind.
  destruct (match back (width b) (pre, c :: s) with Some _ => _ | None => _ end);
    destruct neg; try reflexivity;
    rewrite rmatch_seq; unfold lit; rewrite rmatch_chr_cons, Hc; reflexivity.
Qed.

Lemma match_at_behind_end fl neg b x r pre :
  match_at fl (Seq (Behind neg b) (Seq (lit x) r)) (pre, []) = None.
Proof.
  unfold match_at. rewrite rmatch_seq, rmatch_behind.
  destruct (match back (width b) (pre, []) with Some _ => _ | None => _ end);
    destruct neg; reflexivity.
Qed.

Lemma quiet_behind_first neg b x r t :
  free_of x t = true -> quiet no_flags (Seq (Behind neg b) (Seq (lit x) r)) t.
Proof.
  intros Ht pre rest t1 c t2 ->. apply match_at_behind_first.
  rewrite cmatch_lit. exact (free_of_split _ _ _ _ Ht).
Qed.

(** A negative lookbehind stops the match after a character of its set. *)
Lemma match_at_behind_blocked cs r d pre s :
  cmatch no_flags cs d = true ->
  match_at no_flags (Seq (Behind true (Chr cs)) r) (d :: pre, s) = None.
Proof.
  intros Hd. unfold match_at. rewrite rmatch_seq, rmatch_behind.
  cbn [width back fst snd length Nat.leb take drop firstn skipn rev app].
  rewrite take_0, drop_0. cbn [rev app].
  rewrite rmatch_chr_cons, Hd. cbn [snd]. rewrite Nat.eqb_refl. reflexivity.
Qed.

Lemma guarded_before cs x t1 : forall prev t2,
  guarded cs x prev (t1 ++ x :: t2) = true ->
  match rev t1 with
  | d :: _ => cmatch no_flags cs d = true
  | [] => prev = true
  end.
Proof.
  induction t1 as [|c t1 IH]; intros prev t2 H.
  - cbn [app guarded] in H. rewrite Ascii.eqb_refl in H.
    apply andb_true_iff in H as [H _]. exact H.
  - cbn [app guarded] in H. apply andb_true_iff in H as [_ H].
    specialize (IH _ _ H). cbn [rev].
    destruct (rev t1) as [|d l]; [exact IH | exact IH].
Qed.

Lemma quiet_guarded cs x r t :
  guarded cs x false t = true ->
  quiet no_flags (Seq (Behind true (Chr cs)) (Seq (lit x) r)) t.
Proof.
  intros Ht pre rest t1 c t2 ->.
  destruct (Ascii.eqb_spec c x) as [->|Hc].
  - pose proof (guarded_before _ _ _ _ _ Ht) as H.
    destruct (rev t1) as [|d l]; [discriminate|].
    apply match_at_behind_blocked, H.
  - apply match_at_behind_first. rewrite cmatch_lit.
    apply Ascii.eqb_neq, Hc.
Qed.

Lemma guarded_app cs x a : forall prev s,
  guarded cs x prev a = true ->
  (forall prev', guarded cs x prev' s = true) ->
  guarded cs x prev (a ++ s) = true.
Proof.
  induction a as [|c a IH]; intros prev s Ha Hs; [apply Hs|].
  cbn [app guarded] in *. apply andb_true_iff in Ha as [-> Ha].
  exact (IH _ _ Ha Hs).
Qed.

Lemma guarded_free cs x s prev : free_of x s = true -> guarded cs x prev s = true.
Proof.
  revert prev. induction s as [|c s IH]; intros prev H; [reflexivity|].
  cbn [free_of forallb guarded] in *. apply andb_true_iff in H as [Hc H].
  apply negb_true_iff in Hc. rewrite Hc. exact (IH _ H).
Qed.

(** Pairs of a character. *)
Lemma no_pair_suffix x t1 s : no_pair x (t1 ++ s) = true -> no_pair x s = true.
Proof.
  induction t1 as [|c t1 IH]; [trivial|]. cbn [app no_pair].
  intros H. apply andb_true_iff in H as [_ H]. exact (IH H).
Qed.

Lemma quiet_no_pair x (r : regex) s :
  no_pair x s = true -> quiet no_flags (Seq (word [x; x]) r) s.
Proof.
  intros Hs pre rest t1 c t2 ->. apply match_at_word_first.
  apply (no_pair_suffix x t1) in Hs. cbn [no_pair startswith] in *.
  apply andb_true_iff in Hs as [H _]. rewrite (Ascii.eqb_sym x c).
  destruct (Ascii.eqb c x); [|reflexivity].
  destruct t2 as [|d t2]; [discriminate|]. cbn [app andb].
  rewrite (Ascii.eqb_sym x d). apply negb_true_iff in H. rewrite H. reflexivity.
Qed.

Lemma no_pair_app x a b :
  no_pair x a = true -> no_pair x b = true -> no_pair x (a ++ b) = true.
Proof.
  intros Ha Hb. induction a as [|c a IH]; [exact Hb|].
  cbn [app no_pair] in *. apply andb_true_iff in Ha as [Hc Ha].
  rewrite (IH Ha), andb_true_r.
  destruct (Ascii.eqb c x); [|reflexivity].
  destruct a as [|d a]; [discriminate | exact Hc].
Qed.

Lemma no_pair_free x s : free_of x s = true -> no_pair x s = true.
Proof.
  induction s as [|c s IH]; [reflexivity|]. cbn [free_of forallb no_pair].
  intros H. apply andb_true_iff in H as [Hc H]. rewrite (IH H), andb_true_r.
  apply negb_true_iff in Hc. rewrite Hc. reflexivity.
Qed.

(** A substitution that finds nothing. *)
Lemma re_sub_quiet fl r (f : mobj -> str) t :
  quiet fl r t -> (forall pre, match_at fl r (pre, []) = None) ->
  re_sub fl r f t = t.
Proof.
  intros Hq Hend. unfold re_sub, re_sub_st.
  rewrite sub_loop_quiet; [reflexivity | exact Hq | apply Hend].
Qed.

(** *** The italic expression with asterisks *)

Lemma cmatch_any c : cmatch no_flags any c = true.
Proof. unfold cmatch, any; simpl. destruct (is_space c); reflexivity. Qed.

Lemma forallb_true {A} (f : A -> bool) l : (forall x, f x = true) -> forallb f l = true.
Proof. intros H. induction l as [|x l IH]; [reflexivity|]. simpl. rewrite H, IH. reflexivity. Qed.

Lemma match_at_italic_star pre body rest :
  match pre with d :: _ => Ascii.eqb d "*" = false | [] => True end ->
  body <> [] -> free_of "*" body = true ->
  match rest with d :: _ => Ascii.eqb d "*" = false | [] => True end ->
  match_at no_flags re_italic_star (pre, ("*" ++ body ++ "*") ++ rest)
  = Some {| m_all := "*" ++ body ++ "*"; m_caps := [(1, body)] |}.
Proof.
  intros Hpre Hne Hbody Hrest. unfold match_at, re_italic_star. cbn [seq].
  rewrite rmatch_seq, rmatch_behind.
  assert (Hback :
    match back (width (lit "*")) (pre, ("*" ++ body ++ "*") ++ rest) with
    | Some p0 =>
        rmatch no_flags (lit "*") _ p0 [] (fun p' cp' =>
          if length (snd p') =? length (snd (pre, ("*" ++ body ++ "*") ++ rest))
          then Some cp' else None)
    | None => None
    end = None).
  { destruct pre as [|d pre]; [reflexivity|]. unfold lit.
    cbn [width back fst snd length Nat.leb firstn skipn rev app].
    rewrite take_0, drop_0. cbn [rev app]. rewrite rmatch_chr_cons, cmatch_lit, Hpre.
    reflexivity. }
  rewrite Hback. clear Hback.
  destruct body as [|c body]; [congruence|]. clear Hne.
  cbn [free_of forallb] in Hbody. apply andb_true_iff in Hbody as [_ Hbody].
  fold (free_of "*" body) in Hbody.
  rewrite rmatch_seq. unfold lit at 1.
  change (("*" ++ (c :: body) ++ "*") ++ rest)
    with ("*"%char :: c :: ((body ++ "*") ++ rest)).
  rewrite rmatch_chr_cons, cmatch_lit. cbn [Ascii.eqb Bool.eqb].
  rewrite rmatch_seq, rmatch_grp. unfold plus_lazy.
  rewrite rmatch_seq, rmatch_chr_cons, cmatch_any, rmatch_star_lazy_chr.
  rewrite <- app_assoc. rewrite lazy_run_app.
  - erewrite lazy_run_here; [reflexivity|].
    rewrite rmatch_seq. unfold lit. cbn [list_ascii_of_string app].
    rewrite rmatch_chr_cons, cmatch_lit. cbn [Ascii.eqb Bool.eqb].
    cbn [rmatch snd fst].
    assert (Hall : forall rest',
              consumed (pre, "*"%char :: c :: body ++ "*"%char :: rest')
                ("*"%char :: rev body ++ c :: "*"%char :: pre, rest')
              = "*"%char :: c :: body ++ ["*"%char]).
    { intros rest'.
      replace ("*"%char :: c :: body ++ "*"%char :: rest')
        with (("*"%char :: c :: body ++ ["*"%char]) ++ rest')
        by (cbn [app]; rewrite <- app_assoc; reflexivity).
      apply consumed_app. }
    assert (Hgrp : forall rest',
              consumed ("*"%char :: pre, c :: body ++ "*"%char :: rest')
                (rev body ++ c :: "*"%char :: pre, "*"%char :: rest')
              = c :: body).
    { intros rest'. apply (consumed_app _ _ (c :: body)). }
    rewrite Hall, Hgrp.
    destruct rest as [|d rest]; [reflexivity|].
    rewrite cmatch_lit, Hrest. reflexivity.
  - apply forallb_true, cmatch_any.
  - intros a1 d a2 ->. rewrite rmatch_seq. unfold lit.
    rewrite rmatch_chr_cons, cmatch_lit, (free_of_split _ _ _ _ Hbody). reflexivity.
Qed.

(** *** Replacement of a literal text *)

Lemma replace_loop_skip old new a : forall rest,
  replace_loop old new (a ++ rest) (length a) = replace_loop old new rest 0.
Proof.
  induction a as [|c a IH]; intros rest; [reflexivity|].
  cbn [app length replace_loop]. apply IH.
Qed.

Lemma replace_here old new rest :
  old <> [] -> replace old new (old ++ rest) = new ++ replace old new rest.
Proof.
  intros Hne. unfold replace. destruct old as [|c old]; [congruence|].
  cbn [app replace_loop].
  change (c :: old ++ rest) with ((c :: old) ++ rest). rewrite startswith_prefix.
  replace (length (c :: old) - 1) with (length old) by (cbn [length]; lia).
  rewrite replace_loop_skip. reflexivity.
Qed.

Lemma replace_next old new c s :
  startswith old (c :: s) = false ->
  replace old new (c :: s) = c :: replace old new s.
Proof. intros H. unfold replace. cbn [replace_loop]. rewrite H. reflexivity. Qed.

Lemma replace_free x old new t : forall rest,
  free_of x t = true ->
  replace (x :: old) new (t ++ rest) = t ++ replace (x :: old) new rest.
Proof.
  induction t as [|c t IH]; intros rest Ht; [reflexivity|].
  cbn [free_of forallb] in Ht. apply andb_true_iff in Ht as [Hc Ht].
  cbn [app]. rewrite replace_next, (IH _ Ht); [reflexivity|].
  cbn [startswith]. apply negb_true_iff in Hc. rewrite Ascii.eqb_sym, Hc. reflexivity.
Qed.

Lemma replace_nil old new : replace old new [] = [].
Proof. reflexivity. Qed.

(** *** Tables *)

Lemma rstrip_end a c : is_space c = false -> rstrip (a ++ [c]) = a ++ [c].
Proof.
  intros Hc. induction a as [|x a IH].
  - cbn. rewrite Hc. reflexivity.
  - cbn [app rstrip]. rewrite IH. destruct (a ++ [c]) eqn:E; [|reflexivity].
    destruct a; discriminate.
Qed.

(** A line that is not a row of a table is left as it is. *)
Lemma convert_tables_line (s : str) :
  no_newline s = true -> strip s = s ->
  is_match no_flags re_table_row s = false ->
  convert_tables s = s.
Proof.
  intros Hs Hstrip Hrow. unfold convert_tables.
  rewrite split_on_last by exact Hs. cbn [tables_loop].
  rewrite Hstrip, Hrow. reflexivity.
Qed.

Lemma no_newline_free s : no_newline s = free_of newline s.
Proof. reflexivity. Qed.

(** ** Where an expression cannot match *)

(** *** By the first character *)

Lemma star_loop_stuck {R} g (body : pos -> caps -> (pos -> caps -> option R) -> option R)
    (k : pos -> caps -> option R) fuel p cp :
  (forall cp' k', (forall cp'', k' p cp'' = None) -> body p cp' k' = None) ->
  (forall cp', k p cp' = None) ->
  star_loop g body k fuel p cp = None.
Proof.
  intros Hbody Hk. destruct fuel as [|f]; cbn [star_loop]; [apply Hk|].
  assert (Hb : body p cp (fun p' cp' =>
                 if length (snd p') <? length (snd p)
                 then star_loop g body k f p' cp' else None) = None).
  { apply Hbody. intros cp''. rewrite Nat.ltb_irrefl. reflexivity. }
  destruct g; rewrite Hb, ?Hk; reflexivity.
Qed.

(** At a position where no character that [r] can start with stands, [r]
    passes nothing: it fails when it has to pass a character, and when the
    rest of the expression fails at this position. *)
Lemma rmatch_stuck fl r : forall R p cp (k : pos -> caps -> option R),
  match snd p with c :: _ => starts fl r c = false | [] => True end ->
  (nullable r = false \/ forall cp', k p cp' = None) ->
  rmatch fl r R p cp k = None.
Proof.
  induction r as [|cs|a IHa b IHb|a IHa b IHb|g a IHa|n a IHa| | |neg a IHa|neg a IHa];
    intros R p cp k Hc Hk; cbn [nullable] in Hk.
  - destruct Hk as [Hk|Hk]; [discriminate | apply Hk].
  - cbn [rmatch]. destruct (snd p) as [|c s]; [reflexivity|].
    cbn [starts] in Hc. rewrite Hc. reflexivity.
  - rewrite rmatch_seq.
    assert (Ha : match snd p with c :: _ => starts fl a c = false | [] => True end).
    { destruct (snd p); [exact I|]. cbn [starts] in Hc.
      apply orb_false_iff in Hc as [Hc _]. exact Hc. }
    destruct (nullable a) eqn:Ena.
    + apply IHa; [exact Ha|]. right. intros cp'. apply IHb.
      * destruct (snd p); [exact I|]. cbn [starts] in Hc.
        apply orb_false_iff in Hc as [_ Hc]. rewrite Ena in Hc. exact Hc.
      * destruct Hk as [Hk|Hk]; [left; exact Hk | right; exact Hk].
    + apply IHa; [exact Ha | left; reflexivity].
  - rewrite rmatch_alt.
    assert (Hab : match snd p with
                  | c :: _ => starts fl a c = false /\ starts fl b c = false
                  | [] => True end).
    { destruct (snd p); [exact I|]. cbn [starts] in Hc.
      apply orb_false_iff in Hc. exact Hc. }
    rewrite IHa, IHb; [reflexivity | | | |].
    + destruct (snd p); [exact I | apply Hab].
    + destruct Hk as [Hk|Hk]; [|right; exact Hk].
      apply orb_false_iff in Hk as [_ Hk]. left; exact Hk.
    + destruct (snd p); [exact I | apply Hab].
    + destruct Hk as [Hk|Hk]; [|right; exact Hk].
      apply orb_false_iff in Hk as [Hk _]. left; exact Hk.
  - destruct Hk as [Hk|Hk]; [discriminate|].
    rewrite rmatch_star. apply star_loop_stuck; [|exact Hk].
    intros cp' k' Hk'. apply IHa; [exact Hc | right; exact Hk'].
  - rewrite rmatch_grp. apply IHa; [exact Hc|].
    destruct Hk as [Hk|Hk]; [left; exact Hk | right; intros cp'; apply Hk].
  - destruct Hk as [Hk|Hk]; [discriminate|]. cbn [rmatch].
    destruct (at_bol fl p); [apply Hk | reflexivity].
  - destruct Hk as [Hk|Hk]; [discriminate|]. cbn [rmatch].
    destruct (at_eol fl p); [apply Hk | reflexivity].
  - destruct Hk as [Hk|Hk]; [discriminate|]. cbn [rmatch].
    destruct (rmatch fl a _ p cp _); destruct neg; rewrite ?Hk; reflexivity.
  - destruct Hk as [Hk|Hk]; [discriminate|]. rewrite rmatch_behind.
    destruct (match back (width a) p with Some _ => _ | None => _ end);
      destruct neg; rewrite ?Hk; reflexivity.
Qed.

Lemma match_at_starts fl r p :
  nullable r = false ->
  match snd p with c :: _ => starts fl r c = false | [] => True end ->
  match_at fl r p = None.
Proof. intros Hn Hc. apply rmatch_stuck; [exact Hc | left; exact Hn]. Qed.

Lemma silent_starts fl r t :
  nullable r = false -> starts_none fl r t = true -> silent fl r t.
Proof.
  intros Hn Ht pre t1 t2 ->. apply match_at_starts; [exact Hn|]. cbn [snd].
  destruct t2 as [|c t2]; [exact I|].
  apply negb_true_iff. exact (forallb_split _ _ _ _ Ht).
Qed.

(** *** By a character that every match has *)

Lemma all_chars_in c : In c all_chars.
Proof.
  unfold all_chars. rewrite <- (ascii_nat_embedding c).
  apply in_map, in_seq. pose proof (nat_ascii_bounded c). lia.
Qed.

Lemma free_of_tail x c s : free_of x (c :: s) = true -> free_of x s = true.
Proof. intros H. apply andb_true_iff in H as [_ H]. exact H. Qed.

Section Fails.

(** A property of the text that remains, kept when a character is passed. *)
Variable P : list ascii -> Prop.
Hypothesis P_tail : forall c s, P (c :: s) -> P s.

Lemma star_loop_fails {R} g (body : pos -> caps -> (pos -> caps -> option R) -> option R)
    (k : pos -> caps -> option R) :
  (forall p cp k', P (snd p) ->
     (forall p' cp', P (snd p') -> k' p' cp' = None) -> body p cp k' = None) ->
  (forall p cp, P (snd p) -> k p cp = None) ->
  forall fuel p cp, P (snd p) -> star_loop g body k fuel p cp = None.
Proof.
  intros Hbody Hk. induction fuel as [|f IH]; intros p cp Hp; cbn [star_loop];
    [apply Hk, Hp|].
  assert (Hb : body p cp (fun p' cp' =>
                 if length (snd p') <? length (snd p)
                 then star_loop g body k f p' cp' else None) = None).
  { apply Hbody; [exact Hp|]. intros p' cp' Hp'.
    destruct (length (snd p') <? length (snd p)); [apply IH, Hp' | reflexivity]. }
  destruct g; rewrite Hb, ?(Hk p cp Hp); reflexivity.
Qed.

(** When the rest of the expression fails wherever the property holds,
    so does the whole. *)
Lemma rmatch_fails fl r : forall R p cp (k : pos -> caps -> option R),
  P (snd p) ->
  (forall p' cp', P (snd p') -> k p' cp' = None) ->
  rmatch fl r R p cp k = None.
Proof.
  induction r as [|cs|a IHa b IHb|a IHa b IHb|g a IHa|n a IHa| | |neg a IHa|neg a IHa];
    intros R p cp k Hp Hk.
  - apply Hk, Hp.
  - cbn [rmatch]. destruct p as [pre [|c s]]; cbn [snd fst] in *; [reflexivity|].
    destruct (cmatch fl cs c); [|reflexivity]. apply Hk. cbn [snd]. exact (P_tail _ _ Hp).
  - rewrite rmatch_seq. apply IHa; [exact Hp|]. intros p' cp' Hp'. apply IHb; assumption.
  - rewrite rmatch_alt, IHa, IHb by assumption. reflexivity.
  - rewrite rmatch_star. apply star_loop_fails; [ | exact Hk | exact Hp].
    intros p0 cp0 k' Hp0 Hk'. apply IHa; assumption.
  - rewrite rmatch_grp. apply IHa; [exact Hp|]. intros p' cp' Hp'. apply Hk, Hp'.
  - cbn [rmatch]. destruct (at_bol fl p); [apply Hk, Hp | reflexivity].
  - cbn [rmatch]. destruct (at_eol fl p); [apply Hk, Hp | reflexivity].
  - cbn [rmatch]. destruct (rmatch fl a _ p cp _); destruct neg;
      rewrite ?(Hk p _ Hp); reflexivity.
  - rewrite rmatch_behind.
    destruct (match back (width a) p with Some _ => _ | None => _ end);
      destruct neg; rewrite ?(Hk p _ Hp); reflexivity.
Qed.

End Fails.

Lemma rmatch_needs fl x r : forall R p cp (k : pos -> caps -> option R),
  needs fl x r = true -> free_of x (snd p) = true -> rmatch fl r R p cp k = None.
Proof.
  induction r as [|cs|a IHa b IHb|a IHa b IHb|g a IHa|n a IHa| | |neg a IHa|neg a IHa];
    intros R p cp k Hn Hp; cbn [needs] in Hn; try discriminate.
  - cbn [rmatch]. destruct p as [pre [|c s]]; cbn [snd fst] in *; [reflexivity|].
    destruct (cmatch fl cs c) eqn:Ec; [|reflexivity]. exfalso.
    rewrite forallb_forall in Hn. specialize (Hn c (all_chars_in c)).
    rewrite Ec in Hn. cbn [implb] in Hn.
    apply andb_true_iff in Hp as [Hp _]. rewrite Hn in Hp. discriminate.
  - rewrite rmatch_seq. apply orb_true_iff in Hn as [Hn|Hn].
    + apply IHa; assumption.
    + apply (rmatch_fails (fun s => free_of x s = true) (free_of_tail x)); [exact Hp|].
      intros p' cp' Hp'. apply IHb; assumption.
  - apply andb_true_iff in Hn as [Ha Hb].
    rewrite rmatch_alt, IHa, IHb by assumption. reflexivity.
  - rewrite rmatch_grp. apply IHa; assumption.
Qed.

Lemma free_of_suffix x t1 t2 : free_of x (t1 ++ t2) = true -> free_of x t2 = true.
Proof. rewrite free_of_app. intros H. apply andb_true_iff in H as [_ H]. exact H. Qed.

Lemma silent_needs fl x r t :
  needs fl x r = true -> free_of x t = true -> silent fl r t.
Proof.
  intros Hn Ht pre t1 t2 ->. apply rmatch_needs with (x := x); [exact Hn|].
  exact (free_of_suffix _ _ _ Ht).
Qed.

(** *** A silent text passes every operation untouched *)

Lemma sub_loop_silent {S} fl r (f : mobj -> S -> str * S) t pre st :
  silent fl r t -> sub_loop fl r f pre t 0 st = (t, st).
Proof.
  intros Hs. rewrite <- (app_nil_r t) at 1. rewrite sub_loop_copy.
  - rewrite sub_loop_end.
    + cbn [fst snd]. rewrite app_nil_r. reflexivity.
    + apply (Hs pre t []). rewrite app_nil_r. reflexivity.
  - intros t1 c t2 E. rewrite app_nil_r. apply (Hs pre t1 (c :: t2) E).
Qed.

Lemma re_sub_st_silent {S} fl r (f : mobj -> S -> str * S) t st :
  silent fl r t -> re_sub_st fl r f t st = (t, st).
Proof. apply sub_loop_silent. Qed.

Lemma re_sub_silent fl r f t : silent fl r t -> re_sub fl r f t = t.
Proof. intros H. unfold re_sub. rewrite re_sub_st_silent by exact H. reflexivity. Qed.

Lemma re_finditer_silent fl r t : silent fl r t -> re_finditer fl r t = [].
Proof. intros H. unfold re_finditer. rewrite re_sub_st_silent by exact H. reflexivity. Qed.

Lemma re_findall_silent fl r t : silent fl r t -> re_findall fl r t = [].
Proof. intros H. unfold re_findall. rewrite re_finditer_silent by exact H. reflexivity. Qed.

Lemma search_from_silent fl r t : forall pre t0,
  silent fl r (t0 ++ t) -> search_from fl r (rev t0 ++ pre) t = None.
Proof.
  induction t as [|c t IH]; intros pre t0 Hs.
  - cbn [search_from]. rewrite (Hs pre t0 [] eq_refl). reflexivity.
  - cbn [search_from]. rewrite (Hs pre t0 (c :: t) eq_refl).
    specialize (IH pre (t0 ++ [c])). rewrite rev_app_distr in IH. cbn [rev app] in IH.
    apply IH. rewrite <- app_assoc. exact Hs.
Qed.

Lemma re_search_silent fl r t : silent fl r t -> re_search fl r t = None.
Proof. intros H. apply (search_from_silent fl r t [] []). exact H. Qed.

Lemma re_match_silent fl r t : silent fl r t -> re_match fl r t = None.
Proof. intros H. apply (H [] [] t eq_refl). Qed.

(** ** Texts that a pass leaves alone *)

Lemma all_chars_forall (g : ascii -> bool) :
  forallb g all_chars = true -> forall c, g c = true.
Proof. intros H c. rewrite forallb_forall in H. apply H, all_chars_in. Qed.

Lemma forallb_impl {A} (p q : A -> bool) l :
  (forall x, implb (p x) (q x) = true) -> forallb p l = true -> forallb q l = true.
Proof.
  intros Hpq. induction l as [|x l IH]; [reflexivity|]. cbn [forallb].
  intros H. apply andb_true_iff in H as [Hx H]. rewrite (IH H), andb_true_r.
  specialize (Hpq x). rewrite Hx in Hpq. exact Hpq.
Qed.

(** A check on every character, by enumeration. *)
Ltac by_chars := apply all_chars_forall; vm_compute; reflexivity.

Ltac needs_char x :=
  apply (silent_needs _ x); [vm_compute; reflexivity | assumption].

Lemma forallb_split_on (p : ascii -> bool) sep t :
  forallb p t = true -> forallb (forallb p) (split_on sep t) = true.
Proof.
  induction t as [|c t IH]; [reflexivity|]. cbn [forallb split_on].
  intros H. apply andb_true_iff in H as [Hc H]. specialize (IH H).
  destruct (split_on sep t) as [|l ls]; [cbn; rewrite Hc; reflexivity|].
  cbn [forallb] in IH. apply andb_true_iff in IH as [Hl Hls].
  destruct (Ascii.eqb c sep); cbn [forallb]; rewrite ?Hc, Hl, Hls; reflexivity.
Qed.

Lemma map_fixed {A} (f : A -> A) (p : A -> bool) l :
  (forall x, p x = true -> f x = x) -> forallb p l = true -> map f l = l.
Proof.
  intros H Hl. rewrite (map_ext_forallb f (fun x => x) p l H Hl). apply map_id.
Qed.

Lemma forallb_lstrip (p : ascii -> bool) s : forallb p s = true -> forallb p (lstrip s) = true.
Proof.
  induction s as [|c s IH]; [reflexivity|]. cbn [lstrip]. intros H.
  destruct (is_space c); [|exact H]. apply IH.
  apply andb_true_iff in H as [_ H]. exact H.
Qed.

Lemma forallb_rstrip (p : ascii -> bool) s : forallb p s = true -> forallb p (rstrip s) = true.
Proof.
  induction s as [|c s IH]; [reflexivity|]. cbn [rstrip forallb]. intros H.
  apply andb_true_iff in H as [Hc H]. specialize (IH H).
  destruct (rstrip s) as [|d r]; [destruct (is_space c); cbn; rewrite ?Hc; reflexivity|].
  cbn [forallb]. rewrite Hc. exact IH.
Qed.

Lemma forallb_strip (p : ascii -> bool) s : forallb p s = true -> forallb p (strip s) = true.
Proof. intros H. apply forallb_rstrip, forallb_lstrip, H. Qed.

(** *** The outline pass *)

Lemma convert_line_idle line : free_of "-" line = true -> convert_line line = line.
Proof.
  intros H. unfold convert_line. rewrite re_match_silent; [reflexivity|].
  needs_char "-"%char.
Qed.

Lemma convert_hierarchical_structure_idle t :
  free_of "-" t = true -> convert_hierarchical_structure t = t.
Proof.
  intros H. unfold convert_hierarchical_structure.
  rewrite (map_fixed convert_line (free_of "-")).
  - apply join_split_on.
  - apply convert_line_idle.
  - apply forallb_split_on, H.
Qed.

(** *** The tables *)

Lemma tables_loop_idle lines :
  forallb (free_of "|") lines = true -> tables_loop lines false = lines.
Proof.
  induction lines as [|l lines IH]; [reflexivity|]. cbn [forallb tables_loop].
  intros H. apply andb_true_iff in H as [Hl H].
  assert (E : is_match no_flags re_table_row (strip l) = false).
  { unfold is_match. rewrite re_match_silent; [reflexivity|].
    apply (silent_needs _ "|"); [vm_compute; reflexivity|].
    apply forallb_strip, Hl. }
  rewrite E, (IH H). reflexivity.
Qed.

Lemma convert_tables_idle t : free_of "|" t = true -> convert_tables t = t.
Proof.
  intros H. unfold convert_tables. rewrite tables_loop_idle.
  - apply join_split_on.
  - apply forallb_split_on, H.
Qed.

(** *** Replacement of a text that starts with a character the subject
    does not have *)

Lemma replace_idle x old new t :
  startswith [x] old = true -> free_of x t = true -> replace old new t = t.
Proof.
  intros Hx Ht. destruct old as [|c old]; [discriminate|].
  cbn [startswith] in Hx. rewrite andb_true_r in Hx. apply Ascii.eqb_eq in Hx as <-.
  rewrite <- (app_nil_r t) at 1. rewrite replace_free by exact Ht.
  rewrite replace_nil, app_nil_r. reflexivity.
Qed.

(** ** The markup pass on plain text *)

Lemma plain_text_free x t :
  existsb (Ascii.eqb x) markup_chars = true -> plain_text t = true -> free_of x t = true.
Proof.
  intros Hx. apply forallb_impl. intros c. unfold plain_char.
  destruct (Ascii.eqb c x) eqn:E.
  - apply Ascii.eqb_eq in E. subst c. rewrite Hx. reflexivity.
  - cbn [negb]. apply implb_true_r.
Qed.

(** A plain text is silent for an expression that starts with markup. *)
Lemma silent_plain fl r t :
  nullable r = false ->
  forallb (fun c => implb (plain_char c) (negb (starts fl r c))) all_chars = true ->
  plain_text t = true -> silent fl r t.
Proof.
  intros Hn Hall Ht. apply silent_starts; [exact Hn|].
  revert Ht. apply forallb_impl. apply all_chars_forall. exact Hall.
Qed.

Ltac plain_silent := apply silent_plain; [reflexivity | vm_compute; reflexivity | assumption].

Lemma restore_org_nil i content : restore_org i [] content = content.
Proof. reflexivity. Qed.

Section Plain.

Variable uuid4 : nat -> list ascii.

Lemma convert_markdown_to_org_plain_text t st :
  plain_text t = true ->
  convert_markdown_to_org uuid4 t st = (t, set_draws (Nat.add 5) st).
Proof.
  intros Ht.
  pose proof (plain_text_free "#" t eq_refl Ht) as Hhash.
  pose proof (plain_text_free "|" t eq_refl Ht) as Hbar.
  unfold convert_markdown_to_org, uuid4_hex8, generate_uuid, bind, ret, get, modify.
  cbn [fst snd]. cbv zeta.
  rewrite (re_sub_st_silent no_flags _ _ t []) by plain_silent. cbn [fst snd].
  rewrite (re_sub_st_silent fl_M _ _ t []) by plain_silent. cbn [fst snd].
  rewrite restore_org_nil.
  repeat (rewrite (re_sub_silent _ _ _ t) by plain_silent).
  rewrite (convert_tables_idle t) by exact Hbar.
  repeat (rewrite (replace_idle "#" _ _ t) by (reflexivity || exact Hhash)).
  rewrite (re_sub_silent _ _ _ t).
  - reflexivity.
  - apply silent_starts; [reflexivity|]. revert Hhash. apply forallb_impl.
    intros c. cbn. rewrite orb_false_r. destruct (Ascii.eqb c "#"); reflexivity.
Qed.

End Plain.

(** ** Page names, continued *)

Lemma str_eqb_eq (a b : str) : str_eqb a b = true <-> a = b.
Proof. unfold str_eqb. apply bool_decide_eq_true. Qed.

Lemma safe_char_parts c :
  safe_char c
  = negb (cmatch no_flags (one_of "*`~") c) && negb (Ascii.eqb "/" c)
    && negb (cmatch no_flags (Cls false (map IChar ("<>:" ++ dquote :: "|?*"))) c).
Proof.
  apply Bool.eqb_prop. revert c. by_chars.
Qed.

(** X1. The name that [normalize_page_name] returns has none of the
    characters * ` ~ / < > : | ? and no double quote, whatever the name it
    is given. *)
Theorem normalize_page_name_safe (n : list ascii) :
  forallb safe_char (normalize_page_name n) = true.
Proof.
  apply forallb_forall. intros c Hc.
  pose proof (normalize_page_name_clean n) as H.
  rewrite List.Forall_forall in H. destruct (H c Hc) as (Hm & Hs & Hi).
  rewrite safe_char_parts, Hm, Hs, Hi. reflexivity.
Qed.

(** X2. A name that has none of these characters and no white space at its
    ends is returned as it is. *)
Theorem normalize_page_name_safe_name (n : list ascii) :
  safe_name n = true -> normalize_page_name n = n.
Proof.
  intros H. apply andb_true_iff in H as [Hsafe Hstrip].
  apply str_eqb_eq in Hstrip.
  rewrite normalize_page_name_steps, clean_steps_fixed; [exact Hstrip|].
  apply List.Forall_forall. intros c Hc.
  rewrite forallb_forall in Hsafe. specialize (Hsafe c Hc).
  rewrite safe_char_parts in Hsafe.
  apply andb_true_iff in Hsafe as [Hsafe Hi].
  apply andb_true_iff in Hsafe as [Hm Hs].
  apply negb_true_iff in Hm, Hs, Hi. auto.
Qed.

Lemma normalize_page_name_safe_name_witness :
  safe_name "Project notes_2024" = true
  /\ normalize_page_name "Project notes_2024" = "Project notes_2024".
Proof.
  split; [reflexivity|].
  apply (normalize_page_name_safe_name "Project notes_2024"). reflexivity.
Defined.

(** ** The outline pass, line by line *)

Lemma split_on_free sep s : forallb (free_of sep) (split_on sep s) = true.
Proof.
  induction s as [|c s IH]; [reflexivity|]. cbn [split_on].
  pose proof (split_on_nonempty sep s) as Hne.
  destruct (split_on sep s) as [|l ls]; [congruence|].
  cbn [forallb] in IH. apply andb_true_iff in IH as [Hl Hls].
  destruct (Ascii.eqb c sep) eqn:E; cbn [forallb free_of]; [exact (andb_true_intro (conj Hl Hls))|].
  fold (free_of sep l). rewrite E, Hl, Hls. reflexivity.
Qed.

Lemma split_on_lines s : forallb no_newline (split_on newline s) = true.
Proof. exact (split_on_free newline s). Qed.

Lemma no_newline_join a b :
  no_newline a = true -> no_newline b = true -> no_newline (a ++ b) = true.
Proof. unfold no_newline. rewrite forallb_app. intros -> ->. reflexivity. Qed.

Lemma no_newline_stars n : no_newline (stars n) = true.
Proof. induction n as [|n IH]; [reflexivity | exact IH]. Qed.

Lemma keyword_state_no_newline kw :
  In kw task_keywords -> no_newline (keyword_state kw) = true.
Proof.
  intros H. repeat (destruct H as [<-|H]; [vm_compute; reflexivity|]). destruct H.
Qed.

Lemma task_heading_no_newline text :
  no_newline text = true -> no_newline (task_heading text) = true.
Proof.
  intros Ht. unfold task_heading.
  destruct (checkbox_marker text) as [[state body]|] eqn:Ec.
  - unfold checkbox_marker in Ec. destruct text as [|a [|c [|b r]]]; try discriminate.
    assert (Hr : no_newline r = true).
    { cbn in Ht. repeat (apply andb_true_iff in Ht as [_ Ht]). exact Ht. }
    destruct (Ascii.eqb a "[" && Ascii.eqb b "]"); [|discriminate].
    destruct (Ascii.eqb c " ").
    + destruct (ws_text r) as [t|] eqn:Et; [|discriminate]. injection Ec as <- <-.
      apply no_newline_join; [reflexivity|].
      apply (no_newline_join " "); [reflexivity|].
      exact (ws_text_no_newline r t Et Hr).
    + destruct (Ascii.eqb c "x" || Ascii.eqb c "X"); [|discriminate].
      destruct (ws_text r) as [t|] eqn:Et; [|discriminate]. injection Ec as <- <-.
      apply no_newline_join; [reflexivity|].
      apply (no_newline_join " "); [reflexivity|].
      exact (ws_text_no_newline r t Et Hr).
  - destruct (task_keyword text) as [[kw body]|] eqn:Ek; [|exact Ht].
    pose proof (task_keyword_in_mem _ _ _ _ Ek) as Hin.
    apply no_newline_join; [apply keyword_state_no_newline, Hin|].
    apply (no_newline_join " "); [reflexivity|].
    clear Hin. unfold task_keyword in Ek. revert Ek.
    generalize task_keywords. intros kws. induction kws as [|k kws IH]; [discriminate|].
    cbn [task_keyword_in]. destruct (startswith k text).
    + destruct (ws_text (drop (length k) text)) as [t|] eqn:Et; [|exact IH].
      intros [= <- <-]. apply (ws_text_no_newline _ _ Et), no_newline_drop, Ht.
    + exact IH.
Qed.

Lemma outline_depth_pos indent : exists k, outline_depth indent = S k.
Proof.
  unfold outline_depth. rewrite Nat.add_1_r.
  destruct (Nat.min 6 (S (normalized_indent indent / 2))) eqn:E; [lia | eauto].
Qed.

(** A line of the outline is the line itself or a heading. *)
Lemma outline_line_cases line :
  no_newline line = true ->
  no_newline (outline_line line) = true
  /\ (outline_line line = line \/ exists r, outline_line line = "*"%char :: r).
Proof.
  intros Hl. unfold outline_line.
  destruct (list_item line) as [[indent text]|] eqn:E; [|auto].
  pose proof (list_item_no_newline _ _ _ E Hl) as Ht. split.
  - apply no_newline_join; [apply no_newline_stars|].
    apply (no_newline_join " "); [reflexivity | apply task_heading_no_newline, Ht].
  - right. destruct (outline_depth_pos indent) as [k ->]. cbn [stars repeat app]. eauto.
Qed.

Lemma convert_line_no_newline line :
  no_newline line = true -> no_newline (convert_line line) = true.
Proof. intros H. rewrite convert_line_outline by exact H. apply outline_line_cases, H. Qed.

(** A line that starts with a star is not a list item. *)
Lemma convert_line_heading r : convert_line ("*"%char :: r) = "*"%char :: r.
Proof.
  unfold convert_line, re_match. rewrite match_at_starts; reflexivity.
Qed.

Lemma convert_line_idempotent line :
  no_newline line = true -> convert_line (convert_line line) = convert_line line.
Proof.
  intros H. rewrite (convert_line_outline line H).
  destruct (outline_line_cases line H) as [_ [E|[r E]]]; rewrite E.
  - rewrite (convert_line_outline line H). exact E.
  - apply convert_line_heading.
Qed.

Lemma forallb_map_convert_line lines :
  forallb no_newline lines = true -> forallb no_newline (map convert_line lines) = true.
Proof.
  induction lines as [|l lines IH]; [reflexivity|]. cbn [forallb map].
  intros H. apply andb_true_iff in H as [Hl H].
  rewrite (convert_line_no_newline l Hl), (IH H). reflexivity.
Qed.

(** The lines of the result are the converted lines of the text. *)
Lemma convert_hierarchical_structure_split s :
  split_on newline (convert_hierarchical_structure s)
  = map convert_line (split_on newline s).
Proof.
  unfold convert_hierarchical_structure. apply split_on_join.
  - pose proof (split_on_nonempty newline s). destruct (split_on newline s); [congruence|discriminate].
  - apply forallb_map_convert_line, split_on_lines.
Qed.

(** X3. The outline pass is idempotent: on its own result it changes
    nothing, since a heading is not a list item. *)
Theorem convert_hierarchical_structure_idempotent (s : list ascii) :
  convert_hierarchical_structure (convert_hierarchical_structure s)
  = convert_hierarchical_structure s.
Proof.
  unfold convert_hierarchical_structure at 1.
  rewrite convert_hierarchical_structure_split, map_map.
  unfold convert_hierarchical_structure. f_equal.
  apply (map_ext_forallb _ _ no_newline); [apply convert_line_idempotent|].
  apply split_on_lines.
Qed.

(** X4. The outline pass keeps the number of lines: a line is rewritten on
    its own and into one line. *)
Theorem convert_hierarchical_structure_line_count (s : list ascii) :
  length (split_on newline (convert_hierarchical_structure s))
  = length (split_on newline s).
Proof. rewrite convert_hierarchical_structure_split. apply length_map. Qed.

(** X5. A text without a dash has no list item and is returned as it
    is. *)
Theorem convert_hierarchical_structure_no_dash (s : list ascii) :
  free_of "-" s = true -> convert_hierarchical_structure s = s.
Proof. apply convert_hierarchical_structure_idle. Qed.

Lemma convert_hierarchical_structure_no_dash_witness :
  free_of "-" ("Title" ++ nl ++ "* [x] not an item") = true
  /\ convert_hierarchical_structure ("Title" ++ nl ++ "* [x] not an item")
     = "Title" ++ nl ++ "* [x] not an item".
Proof.
  split; [reflexivity|].
  apply (convert_hierarchical_structure_no_dash ("Title" ++ nl ++ "* [x] not an item")).
  reflexivity.
Defined.

(** *** The task state of a list item, in a text *)

(** A line among the lines of a text is rewritten on its own: the lines
    before it and after it give as many lines. *)
Lemma convert_hierarchical_structure_line (before after : list str) (line heading : str) :
  forallb no_newline (before ++ [line] ++ after) = true ->
  convert_line line = heading ->
  exists out_before out_after,
    convert_hierarchical_structure (join [newline] (before ++ [line] ++ after))
    = join [newline] (out_before ++ [heading] ++ out_after)
    /\ length out_before = length before /\ length out_after = length after
    /\ forallb no_newline out_before = true /\ forallb no_newline out_after = true.
Proof.
  intros Hlines Hline.
  exists (map convert_line before), (map convert_line after).
  unfold convert_hierarchical_structure.
  rewrite split_on_join; [| destruct before; discriminate | exact Hlines].
  rewrite !map_app. cbn [map]. rewrite Hline, !length_map.
  rewrite !forallb_app in Hlines. apply andb_true_iff in Hlines as [Hb Ha].
  apply andb_true_iff in Ha as [_ Ha].
  repeat split; try reflexivity; apply forallb_map_convert_line; assumption.
Qed.

Lemma no_newline_line (before after : list str) (line : str) :
  forallb no_newline (before ++ [line] ++ after) = true -> no_newline line = true.
Proof.
  rewrite !forallb_app. cbn [forallb]. intros H.
  apply andb_true_iff in H as [_ H]. apply andb_true_iff in H as [H _].
  apply andb_true_iff in H as [H _]. exact H.
Qed.

(** C9. The task state of a list item is read from its text: a checkbox
    marker first ([ ] gives TODO, [x] and [X] give DONE); then one of the
    keywords TODO, DONE, LATER, NOW, DOING, WAITING, CANCELLED, OVERDUE,
    as written (no other letter case), mapped by the table in which NOW and
    OVERDUE give TODO and the others themselves; otherwise the text is the
    heading as it is, with no state added. In the text that
    [convert_hierarchical_structure] returns, the line of the item, among
    the lines before it and after it, is the heading with this state. *)
Theorem list_item_task_state :
  (forall (before after : list str) (indent sp0 : str) (c : ascii) (sp body : str),
     forallb is_space indent = true ->
     sp0 <> [] -> forallb is_space sp0 = true ->
     c = " "%char \/ c = "x"%char \/ c = "X"%char ->
     sp <> [] -> forallb is_space sp = true ->
     match body with d :: _ => is_space d = false | [] => False end ->
     forallb no_newline
       (before ++ [indent ++ "-" ++ sp0 ++ "[" ++ [c] ++ "]" ++ sp ++ body] ++ after)
     = true ->
     exists out_before out_after,
       convert_hierarchical_structure
         (join [newline]
            (before ++ [indent ++ "-" ++ sp0 ++ "[" ++ [c] ++ "]" ++ sp ++ body]
             ++ after))
       = join [newline]
           (out_before
            ++ [stars (outline_depth indent) ++ " "
                ++ (if Ascii.eqb c " " then "TODO" else "DONE") ++ " " ++ body]
            ++ out_after)
       /\ length out_before = length before /\ length out_after = length after
       /\ forallb no_newline out_before = true
       /\ forallb no_newline out_after = true)
  /\ (forall (before after : list str) (indent sp0 kw sp body : str),
     forallb is_space indent = true ->
     sp0 <> [] -> forallb is_space sp0 = true ->
     In kw task_keywords ->
     sp <> [] -> forallb is_space sp = true ->
     match body with d :: _ => is_space d = false | [] => False end ->
     forallb no_newline
       (before ++ [indent ++ "-" ++ sp0 ++ kw ++ sp ++ body] ++ after) = true ->
     exists out_before out_after,
       convert_hierarchical_structure
         (join [newline] (before ++ [indent ++ "-" ++ sp0 ++ kw ++ sp ++ body] ++ after))
       = join [newline]
           (out_before
            ++ [stars (outline_depth indent) ++ " " ++ keyword_state kw ++ " " ++ body]
            ++ out_after)
       /\ length out_before = length before /\ length out_after = length after
       /\ forallb no_newline out_before = true
       /\ forallb no_newline out_after = true)
  /\ map keyword_state task_keywords
     = [ "TODO" : str; "DONE" : str; "LATER" : str; "TODO" : str;
         "DOING" : str; "WAITING" : str; "CANCELLED" : str; "TODO" : str ]
  /\ (forall (before after : list str) (indent sp0 text : str),
     forallb is_space indent = true ->
     sp0 <> [] -> forallb is_space sp0 = true ->
     match text with d :: _ => is_space d = false | [] => False end ->
     forallb no_newline (before ++ [indent ++ "-" ++ sp0 ++ text] ++ after) = true ->
     checkbox_marker text = None -> task_keyword text = None ->
     exists out_before out_after,
       convert_hierarchical_structure
         (join [newline] (before ++ [indent ++ "-" ++ sp0 ++ text] ++ after))
       = join [newline]
           (out_before ++ [stars (outline_depth indent) ++ " " ++ text] ++ out_after)
       /\ length out_before = length before /\ length out_after = length after
       /\ forallb no_newline out_before = true
       /\ forallb no_newline out_after = true)
  /\ convert_hierarchical_structure "- [x] done thing" = "* DONE done thing"
  /\ convert_hierarchical_structure "- [ ] open thing" = "* TODO open thing"
  /\ convert_hierarchical_structure "- todo buy milk" = "* todo buy milk"
  /\ convert_hierarchical_structure
       ("Tasks" ++ nl ++ "- NOW call" ++ nl ++ "  - [X] sent" ++ nl ++ "- later maybe")
     = "Tasks" ++ nl ++ "* TODO call" ++ nl ++ "** DONE sent" ++ nl ++ "* later maybe".
Proof.
  split; [|split; [|split; [|split]]].
  - intros before after indent sp0 c sp body Hind Hne0 Hsp0 Hc Hne Hsp Hbody Hlines.
    apply convert_hierarchical_structure_line; [exact Hlines|].
    rewrite (convert_line_item indent sp0);
      [| assumption | assumption | assumption | reflexivity
       | exact (no_newline_line _ _ _ Hlines)].
    rewrite task_heading_checkbox by assumption. reflexivity.
  - intros before after indent sp0 kw sp body Hind Hne0 Hsp0 Hkw Hne Hsp Hbody Hlines.
    apply convert_hierarchical_structure_line; [exact Hlines|].
    rewrite (convert_line_item indent sp0);
      [| assumption | assumption | assumption | | exact (no_newline_line _ _ _ Hlines)].
    + rewrite task_heading_keyword by assumption. reflexivity.
    + unfold task_keywords in Hkw.
      repeat (destruct Hkw as [<-|Hkw]; [reflexivity|]). destruct Hkw.
  - reflexivity.
  - intros before after indent sp0 text Hind Hne0 Hsp0 Htext Hlines Hbox Hkw.
    apply convert_hierarchical_structure_line; [exact Hlines|].
    rewrite (convert_line_item indent sp0);
      [| assumption | assumption | assumption | assumption
       | exact (no_newline_line _ _ _ Hlines)].
    unfold task_heading. rewrite Hbox, Hkw. reflexivity.
  - repeat split; vm_compute; reflexivity.
Qed.

Lemma list_item_task_state_witness :
  (exists out_before out_after,
     convert_hierarchical_structure
       (join [newline]
          (["Tasks" : str]
           ++ ["  " ++ "-" ++ " " ++ "[" ++ ["X"%char] ++ "]" ++ " " ++ "ship it"]
           ++ ["end" : str]))
     = join [newline]
         (out_before
          ++ [stars (outline_depth "  ") ++ " " ++ "DONE" ++ " " ++ "ship it"]
          ++ out_after)
     /\ length out_before = 1 /\ length out_after = 1
     /\ forallb no_newline out_before = true /\ forallb no_newline out_after = true)
  /\ (exists out_before out_after,
     convert_hierarchical_structure
       (join [newline]
          ([] ++ [[tab] ++ "-" ++ " " ++ "OVERDUE" ++ " " ++ "pay rent"]
           ++ ["- x" : str]))
     = join [newline]
         (out_before
          ++ [stars (outline_depth [tab]) ++ " " ++ "TODO" ++ " " ++ "pay rent"]
          ++ out_after)
     /\ length out_before = 0 /\ length out_after = 1
     /\ forallb no_newline out_before = true /\ forallb no_newline out_after = true)
  /\ (exists out_before out_after,
     convert_hierarchical_structure
       (join [newline] (["a" : str] ++ ["" ++ "-" ++ " " ++ "Todo later"] ++ []))
     = join [newline]
         (out_before ++ [stars (outline_depth "") ++ " " ++ "Todo later"] ++ out_after)
     /\ length out_before = 1 /\ length out_after = 0
     /\ forallb no_newline out_before = true /\ forallb no_newline out_after = true).
Proof.
  destruct list_item_task_state as (Hbox & Hkw & _ & Hplain & _).
  split; [|split].
  - apply (Hbox ["Tasks" : str] ["end" : str] "  " " " "X"%char " " "ship it");
      try reflexivity; try discriminate. right; right; reflexivity.
  - apply (Hkw [] ["- x" : str] [tab] " " "OVERDUE" " " "pay rent");
      try reflexivity; try discriminate. vm_compute. tauto.
  - apply (Hplain ["a" : str] [] "" " " "Todo later"); try reflexivity; discriminate.
Defined.

(** ** Tables *)

Lemma tables_loop_length lines : forall skip,
  length (tables_loop lines skip) = length lines - (if skip then 1 else 0).
Proof.
  induction lines as [|l rest IH]; intros skip; [destruct skip; reflexivity|].
  cbn [tables_loop]. destruct skip.
  - rewrite IH. cbn [length]. lia.
  - destruct (is_match no_flags re_table_row (strip l)).
    + destruct rest as [|next rest']; [reflexivity|].
      destruct (is_match no_flags re_table_sep (strip next));
        cbn [length]; rewrite IH; cbn [length]; lia.
    + cbn [length]. rewrite IH. lia.
Qed.

Lemma forallb_join (p : ascii -> bool) sep l :
  forallb p sep = true -> forallb (forallb p) l = true -> forallb p (join sep l) = true.
Proof.
  intros Hsep. induction l as [|x l IH]; [reflexivity|]. cbn [forallb].
  intros H. apply andb_true_iff in H as [Hx H]. specialize (IH H).
  destruct l as [|y l]; [exact Hx|].
  change (join sep (x :: y :: l)) with (x ++ sep ++ join sep (y :: l)).
  rewrite !forallb_app, Hx, Hsep, IH. reflexivity.
Qed.

Lemma forallb_tl {A} (p : A -> bool) l : forallb p l = true -> forallb p (tl l) = true.
Proof.
  destruct l as [|x l]; [reflexivity|]. cbn [forallb tl]. intros H.
  apply andb_true_iff in H as [_ H]. exact H.
Qed.

Lemma forallb_removelast {A} (p : A -> bool) l :
  forallb p l = true -> forallb p (removelast l) = true.
Proof.
  induction l as [|x l IH]; [reflexivity|]. cbn [forallb removelast]. intros H.
  apply andb_true_iff in H as [Hx H]. destruct l as [|y l]; [reflexivity|].
  cbn [forallb]. rewrite Hx. exact (IH H).
Qed.

Lemma forallb_map_strip (p : ascii -> bool) l :
  forallb (forallb p) l = true -> forallb (forallb p) (map strip l) = true.
Proof.
  induction l as [|x l IH]; [reflexivity|]. cbn [forallb map]. intros H.
  apply andb_true_iff in H as [Hx H]. rewrite (forallb_strip p x Hx), (IH H). reflexivity.
Qed.

Lemma no_newline_repeat c n : Ascii.eqb c newline = false -> no_newline (repeat c n) = true.
Proof. intros H. induction n as [|n IH]; [reflexivity|]. cbn. rewrite H. exact IH. Qed.

(** The row that [convert_tables] writes for a line of a table. *)
Lemma table_row_no_newline l :
  no_newline l = true ->
  no_newline ("| " ++ join " | " (map strip (inner (split_on "|" (strip l)))) ++ " |") = true.
Proof.
  intros Hl. apply (no_newline_join "| "); [reflexivity|].
  apply no_newline_join; [|reflexivity]. unfold no_newline.
  apply forallb_join; [reflexivity|]. apply forallb_map_strip.
  unfold inner. apply forallb_removelast, forallb_tl, forallb_split_on, forallb_strip, Hl.
Qed.

Lemma tables_loop_no_newline lines : forall skip,
  forallb no_newline lines = true ->
  forallb no_newline (tables_loop lines skip) = true.
Proof.
  induction lines as [|l rest IH]; intros skip H; [reflexivity|].
  cbn [forallb] in H. apply andb_true_iff in H as [Hl H].
  cbn [tables_loop]. destruct skip; [apply IH, H|].
  destruct (is_match no_flags re_table_row (strip l)).
  - destruct rest as [|next rest'].
    + cbn [forallb]. rewrite (table_row_no_newline l Hl). reflexivity.
    + destruct (is_match no_flags re_table_sep (strip next));
        cbn [forallb]; rewrite (table_row_no_newline l Hl), (IH _ H), ?andb_true_r;
        [|reflexivity].
      apply (no_newline_join "|"); [reflexivity|].
      apply no_newline_join; [apply no_newline_repeat|]; reflexivity.
  - cbn [forallb]. rewrite Hl, (IH _ H). reflexivity.
Qed.

Lemma convert_tables_split s :
  split_on newline (convert_tables s) = tables_loop (split_on newline s) false.
Proof.
  unfold convert_tables. apply split_on_join.
  - intros E. apply (f_equal (@length _)) in E. rewrite tables_loop_length in E.
    pose proof (split_on_nonempty newline s). destruct (split_on newline s); [congruence|].
    cbn in E. lia.
  - apply tables_loop_no_newline, split_on_lines.
Qed.

(** X6. [convert_tables] keeps the number of lines: a row is rewritten
    into one line, and a separator is replaced by one line of dashes. *)
Theorem convert_tables_line_count (s : list ascii) :
  length (split_on newline (convert_tables s)) = length (split_on newline s).
Proof. rewrite convert_tables_split, tables_loop_length. lia. Qed.

(** X7. A text without a vertical bar has no table and is returned as it
    is. *)
Theorem convert_tables_no_bar (s : list ascii) :
  free_of "|" s = true -> convert_tables s = s.
Proof. apply convert_tables_idle. Qed.

Lemma convert_tables_no_bar_witness :
  free_of "|" ("a - b" ++ nl ++ "  c") = true
  /\ convert_tables ("a - b" ++ nl ++ "  c") = "a - b" ++ nl ++ "  c".
Proof.
  split; [reflexivity|]. apply (convert_tables_no_bar ("a - b" ++ nl ++ "  c")). reflexivity.
Defined.

(** *** A row *)

Lemma split_on_piece sep (x rest : str) :
  free_of sep x = true ->
  split_on sep (x ++ sep :: rest) = x :: split_on sep rest.
Proof.
  induction x as [|c x IH]; intros Hx.
  - cbn [app split_on]. rewrite Ascii.eqb_refl.
    pose proof (split_on_nonempty sep rest). destruct (split_on sep rest); [congruence|reflexivity].
  - cbn [free_of forallb] in Hx. apply andb_true_iff in Hx as [Hc Hx].
    cbn [app split_on]. rewrite (IH Hx).
    apply negb_true_iff in Hc. rewrite Hc. reflexivity.
Qed.

Lemma split_on_whole sep (x : str) : free_of sep x = true -> split_on sep x = [x].
Proof.
  induction x as [|c x IH]; intros Hx; [reflexivity|].
  cbn [free_of forallb] in Hx. apply andb_true_iff in Hx as [Hc Hx].
  cbn [split_on]. rewrite (IH Hx). apply negb_true_iff in Hc. rewrite Hc. reflexivity.
Qed.

Lemma split_on_join_pieces sep (l : list str) :
  l <> [] -> forallb (free_of sep) l = true -> split_on sep (join [sep] l) = l.
Proof.
  induction l as [|x l IH]; [congruence|]. intros _ H.
  cbn [forallb] in H. apply andb_true_iff in H as [Hx H].
  destruct l as [|y l].
  - apply split_on_whole, Hx.
  - change (join [sep] (x :: y :: l)) with (x ++ sep :: join [sep] (y :: l)).
    rewrite split_on_piece by exact Hx. f_equal. apply IH; [discriminate | exact H].
Qed.

Lemma join_snoc sep (l : list str) (x : str) :
  l <> [] -> join sep (l ++ [x]) = join sep l ++ sep ++ x.
Proof.
  induction l as [|y l IH]; [congruence|]. intros _.
  destruct l as [|z l]; [reflexivity|].
  change (join sep ((y :: z :: l) ++ [x])) with (y ++ sep ++ join sep ((z :: l) ++ [x])).
  rewrite IH by discriminate.
  change (join sep (y :: z :: l)) with (y ++ sep ++ join sep (z :: l)).
  rewrite <- !app_assoc. reflexivity.
Qed.

Lemma table_line_join cells :
  cells <> [] -> table_line cells = join "|" ([] :: cells ++ [[]]).
Proof.
  intros Hne. unfold table_line.
  assert (E : join "|" ([] :: cells ++ [[]]) = [] ++ "|" ++ join "|" (cells ++ [[]])).
  { destruct cells; [congruence | reflexivity]. }
  rewrite E, join_snoc by exact Hne. cbn [app]. rewrite app_nil_r. reflexivity.
Qed.

Lemma cells_free cells :
  forallb cell_text cells = true -> forallb (free_of "|") cells = true.
Proof.
  apply forallb_impl. intros c. unfold cell_text.
  destruct (free_of "|" c); [apply implb_true_r | reflexivity].
Qed.

Lemma cells_no_newline cells :
  forallb cell_text cells = true -> forallb no_newline cells = true.
Proof.
  apply forallb_impl. intros c. unfold cell_text.
  destruct (free_of "|" c); [destruct (no_newline c)|]; reflexivity.
Qed.

Lemma table_line_cells cells :
  cells <> [] -> forallb cell_text cells = true ->
  inner (split_on "|" (table_line cells)) = cells.
Proof.
  intros Hne Hc. rewrite table_line_join by exact Hne.
  rewrite (split_on_join_pieces "|"); [| discriminate |].
  - unfold inner. cbn [tl]. apply removelast_last.
  - cbn [forallb]. rewrite forallb_app, (cells_free cells Hc). reflexivity.
Qed.

Lemma table_line_no_newline cells :
  forallb cell_text cells = true -> no_newline (table_line cells) = true.
Proof.
  intros Hc. unfold table_line. apply (no_newline_join "|"); [reflexivity|].
  apply no_newline_join; [|reflexivity]. unfold no_newline.
  apply forallb_join; [reflexivity|]. exact (cells_no_newline cells Hc).
Qed.

Lemma strip_between (c d : ascii) (a : str) :
  is_space c = false -> is_space d = false -> strip (c :: a ++ [d]) = c :: a ++ [d].
Proof.
  intros Hc Hd. unfold strip. cbn [lstrip]. rewrite Hc.
  change (c :: a ++ [d]) with ((c :: a) ++ [d]). apply rstrip_end, Hd.
Qed.

Lemma table_line_strip cells : strip (table_line cells) = table_line cells.
Proof. unfold table_line. cbn [app list_ascii_of_string]. apply strip_between; reflexivity. Qed.

(** The expression of a row matches a line between two bars. *)
Lemma re_table_row_line (mid : str) :
  no_newline mid = true ->
  is_match no_flags re_table_row ("|"%char :: mid ++ ["|"%char]) = true.
Proof.
  intros Hmid. unfold is_match, re_match, match_at, re_table_row. cbn [seq].
  rewrite rmatch_seq, rmatch_bol_start, rmatch_seq. unfold lit at 1.
  rewrite rmatch_chr_cons, cmatch_lit, Ascii.eqb_refl, rmatch_seq. unfold star.
  rewrite rmatch_star_greedy_chr.
  rewrite <- (app_nil_r (mid ++ ["|"%char])).
  rewrite greedy_run_app.
  2:{ rewrite forallb_app. cbn [forallb]. rewrite andb_true_r.
      revert Hmid. unfold no_newline. apply forallb_impl. intros c. rewrite cmatch_dot.
      destruct (negb (Ascii.eqb c newline)); reflexivity. }
  cbn [greedy_run]. rewrite rmatch_seq. unfold lit. rewrite rmatch_chr_nil.
  rewrite fallback_snoc. rewrite rmatch_seq, rmatch_chr_cons, cmatch_lit, Ascii.eqb_refl.
  rewrite rmatch_eol_end. reflexivity.
Qed.

Lemma table_line_row cells :
  forallb cell_text cells = true ->
  is_match no_flags re_table_row (table_line cells) = true.
Proof.
  intros Hc. unfold table_line. cbn [app list_ascii_of_string].
  apply re_table_row_line. unfold no_newline.
  apply forallb_join; [reflexivity | exact (cells_no_newline cells Hc)].
Qed.

(** X8. A line of a table, one bar before, between and after its cells,
    is written with the text of each cell trimmed and one blank on each
    side of it. *)
Theorem convert_tables_row (cells : list (list ascii)) :
  cells <> [] -> forallb cell_text cells = true ->
  convert_tables (table_line cells)
  = "| " ++ join " | " (map strip cells) ++ " |".
Proof.
  intros Hne Hc. unfold convert_tables.
  rewrite split_on_last by exact (table_line_no_newline cells Hc).
  cbn [tables_loop]. rewrite table_line_strip, (table_line_row cells Hc).
  rewrite (table_line_cells cells Hne Hc). reflexivity.
Qed.

Lemma convert_tables_row_witness :
  ["Name" : list ascii; "  Age " : list ascii; [] : list ascii] <> []
  /\ forallb cell_text ["Name" : list ascii; "  Age " : list ascii; [] : list ascii] = true
  /\ convert_tables "|Name|  Age ||" = "| Name | Age |  |".
Proof.
  split; [discriminate|]. split; [reflexivity|].
  apply (convert_tables_row ["Name" : list ascii; "  Age " : list ascii; [] : list ascii]);
    [discriminate | reflexivity].
Defined.

(** *** A separator *)

Lemma lstrip_spaces (a s : str) : forallb is_space a = true -> lstrip (a ++ s) = lstrip s.
Proof.
  induction a as [|c a IH]; [reflexivity|]. cbn [forallb]. intros H.
  apply andb_true_iff in H as [Hc H]. cbn [app lstrip]. rewrite Hc. exact (IH H).
Qed.

Lemma rstrip_blank (b : str) : forallb is_space b = true -> rstrip b = [].
Proof.
  induction b as [|c b IH]; [reflexivity|]. cbn [forallb]. intros H.
  apply andb_true_iff in H as [Hc H]. cbn [rstrip]. rewrite (IH H), Hc. reflexivity.
Qed.

Lemma rstrip_spaces (s b : str) : forallb is_space b = true -> rstrip (s ++ b) = rstrip s.
Proof.
  intros H. induction s as [|c s IH]; [apply rstrip_blank, H|].
  cbn [app rstrip]. rewrite IH. reflexivity.
Qed.

(** The white space around a row is not part of it. *)
Lemma table_line_strip_around (lead trail : str) cells :
  forallb is_space (lead ++ trail) = true ->
  strip (lead ++ table_line cells ++ trail) = table_line cells.
Proof.
  rewrite forallb_app. intros H. apply andb_true_iff in H as [Hl Ht].
  unfold strip. rewrite lstrip_spaces by exact Hl.
  assert (E : lstrip (table_line cells ++ trail) = table_line cells ++ trail) by reflexivity.
  rewrite E, rstrip_spaces by exact Ht. apply (table_line_strip cells).
Qed.

(** The lines before a line that is no separator do not change what the
    loop does from that line on. *)
Lemma tables_loop_row_at (line : str) (l2 : list str) : forall (before : list str) skip,
  before = [] \/ is_match no_flags re_table_sep (strip line) = false ->
  (skip = true -> before <> []) ->
  exists out,
    tables_loop (before ++ line :: l2) skip = out ++ tables_loop (line :: l2) false
    /\ length out + (if skip then 1 else 0) = length before.
Proof.
  remember (tables_loop (line :: l2) false) as T eqn:ET.
  induction before as [|a before IH]; intros skip Hm Hs.
  - destruct skip; [exfalso; apply Hs; reflexivity|]. exists []. split; [|reflexivity].
    cbn [app]. symmetry. exact ET.
  - destruct Hm as [Hm|Hm]; [discriminate|].
    assert (IHt := fun H => IH true (or_intror Hm) H).
    specialize (IH false (or_intror Hm) (fun E => ltac:(discriminate E))).
    destruct skip.
    + destruct IH as (out & E & L). exists out. split; [exact E|]. cbn [length]. lia.
    + change ((a :: before) ++ line :: l2) with (a :: before ++ line :: l2).
      cbn [tables_loop]. destruct (is_match no_flags re_table_row (strip a)).
      * destruct before as [|b before].
        -- cbn [app]. rewrite Hm. eexists [_]. split; [|reflexivity].
           cbn [app]. f_equal. symmetry. exact ET.
        -- change ((b :: before) ++ line :: l2) with (b :: before ++ line :: l2) in *.
           cbv iota beta.
           destruct (is_match no_flags re_table_sep (strip b)).
           ++ destruct (IHt (fun _ => ltac:(discriminate))) as (out & E & L).
              rewrite E. eexists (_ :: _ :: out). split; [reflexivity|].
              cbn [length] in *. lia.
           ++ destruct IH as (out & E & L). rewrite E. eexists (_ :: out).
              split; [reflexivity|]. cbn [length] in *. lia.
      * destruct IH as (out & E & L). rewrite E. exists (a :: out).
        split; [reflexivity|]. cbn [length] in *. lia.
Qed.

(** X9. When the line after a row of a table is a separator, whatever it
    is made of, the two lines are written as the row, its cells trimmed,
    and a line of dashes between two bars; with its bars the line of
    dashes is as long as the row was without the white space around it.
    The lines before and after keep their places. The row may follow any
    lines when it is not itself made like a separator. *)
Theorem convert_tables_separator (before after : list (list ascii))
    (lead trail : list ascii) (cells : list (list ascii)) (sep : list ascii) :
  forallb is_space (lead ++ trail) = true ->
  cells <> [] -> forallb cell_text cells = true ->
  before = [] \/ is_match no_flags re_table_sep (table_line cells) = false ->
  is_match no_flags re_table_sep (strip sep) = true ->
  forallb no_newline (before ++ [lead ++ table_line cells ++ trail; sep] ++ after) = true ->
  exists out_before out_after,
    convert_tables (join nl (before ++ [lead ++ table_line cells ++ trail; sep] ++ after))
    = join nl (out_before
               ++ ["| " ++ join " | " (map strip cells) ++ " |";
                   "|" ++ repeat "-"%char (length (table_line cells) - 2) ++ "|"]
               ++ out_after)
    /\ length ("|" ++ repeat "-"%char (length (table_line cells) - 2) ++ "|")
       = length (table_line cells)
    /\ length out_before = length before /\ length out_after = length after
    /\ forallb no_newline (out_before ++ out_after) = true.
Proof.
  intros Hsp Hne Hc Hm Hsep Hnl.
  pose proof (table_line_strip_around lead trail cells Hsp) as Est.
  unfold convert_tables. unfold nl at 1. rewrite split_on_join; [| |exact Hnl].
  2:{ intros E. apply (f_equal (@length _)) in E. rewrite length_app in E.
      cbn in E. lia. }
  pose proof (tables_loop_no_newline _ false Hnl) as Hout.
  destruct (tables_loop_row_at (lead ++ table_line cells ++ trail) (sep :: after) before false)
    as (out & E & L).
  { rewrite Est. exact Hm. }
  { discriminate. }
  cbn [app] in *. rewrite E in *.
  cbn [tables_loop] in *. rewrite Est, (table_line_row cells Hc), Hsep in *.
  rewrite (table_line_cells cells Hne Hc) in *.
  exists out, (tables_loop after false). split; [reflexivity|]. split.
  - rewrite length_app, length_app, repeat_length. cbn [length list_ascii_of_string].
    unfold table_line. rewrite length_app, length_app. cbn [length list_ascii_of_string]. lia.
  - split; [lia|]. split; [rewrite tables_loop_length; lia|].
    rewrite forallb_app in Hout. apply andb_true_iff in Hout as [Ho Ha].
    cbn [forallb] in Ha. apply andb_true_iff in Ha as [_ Ha].
    apply andb_true_iff in Ha as [_ Ha]. rewrite forallb_app, Ho, Ha. reflexivity.
Qed.

Lemma convert_tables_separator_witness :
  forallb is_space ("  " ++ " ") = true
  /\ ["a" : list ascii; "b" : list ascii] <> []
  /\ forallb cell_text ["a" : list ascii; "b" : list ascii] = true
  /\ is_match no_flags re_table_sep (table_line ["a" : list ascii; "b" : list ascii]) = false
  /\ is_match no_flags re_table_sep (strip " |:--|--:| ") = true
  /\ forallb no_newline
       (["Prices" : list ascii; "|x|" : list ascii]
        ++ ["  " ++ table_line ["a" : list ascii; "b" : list ascii] ++ " ";
            " |:--|--:| " : list ascii]
        ++ ["|c|d|" : list ascii; "end" : list ascii]) = true
  /\ exists out_before out_after,
       convert_tables
         (join nl (["Prices" : list ascii; "|x|" : list ascii]
                   ++ ["  " ++ "|a|b|" ++ " "; " |:--|--:| " : list ascii]
                   ++ ["|c|d|" : list ascii; "end" : list ascii]))
       = join nl (out_before ++ ["| a | b |" : list ascii; "|---|" : list ascii]
                  ++ out_after)
       /\ length ("|---|" : list ascii) = length ("|a|b|" : list ascii)
       /\ length out_before = 2 /\ length out_after = 2
       /\ forallb no_newline (out_before ++ out_after) = true.
Proof.
  split; [reflexivity|]. split; [discriminate|]. split; [reflexivity|].
  split; [vm_compute; reflexivity|]. split; [vm_compute; reflexivity|].
  split; [reflexivity|].
  apply (convert_tables_separator
           ["Prices" : list ascii; "|x|" : list ascii]
           ["|c|d|" : list ascii; "end" : list ascii] "  " " "
           ["a" : list ascii; "b" : list ascii] " |:--|--:| ");
    [reflexivity | discriminate | reflexivity | right; vm_compute; reflexivity
    | vm_compute; reflexivity | reflexivity].
Defined.

(** ** What the conversion of a file keeps *)

Lemma grows_refl st : grows st st.
Proof. repeat split; reflexivity. Qed.

Lemma grows_trans st1 st2 st3 : grows st1 st2 -> grows st2 st3 -> grows st1 st3.
Proof.
  intros (P1 & B1 & E1 & M1 & T1 & D1 & W1) (P2 & B2 & E2 & M2 & T2 & D2 & W2).
  refine (conj _ (conj _ (conj _ (conj _ (conj _ (conj _ _)))))).
  - etransitivity; eassumption.
  - etransitivity; eassumption.
  - congruence.
  - etransitivity; eassumption.
  - congruence.
  - lia.
  - congruence.
Qed.

Section Grows.

Variable uuid4 : nat -> list ascii.

Lemma generate_uuid_grows st : grows st (snd (generate_uuid uuid4 st)).
Proof.
  cbv [generate_uuid bind get ret modify]. cbn [fst snd].
  repeat split; try reflexivity. cbn [draws set_draws]. lia.
Qed.

Lemma sub_loop_grows fl r (f : mobj -> conv -> list ascii * conv) :
  (forall m st, grows st (snd (f m st))) ->
  forall suf pre skip st, grows st (snd (sub_loop fl r f pre suf skip st)).
Proof.
  intros Hf suf pre skip st.
  apply (sub_loop_invariant fl r f (grows st)); [|apply grows_refl].
  intros m s Hs. exact (grows_trans _ _ _ Hs (Hf m s)).
Qed.

Lemma replace_link_grows m st : grows st (snd (replace_link uuid4 m st)).
Proof.
  unfold replace_link. cbv [bind get ret modify generate_uuid]. cbn [fst snd].
  destruct (page_ids st !! normalize_page_name _) as [i|] eqn:E; cbn [fst snd];
    [apply grows_refl|].
  refine (conj _ (conj _ (conj _ (conj _ (conj _ (conj _ _))))));
    cbn [page_ids block_ids existing_pages missing_pages file_to_title draws written
         set_missing_pages set_page_ids set_draws]; try reflexivity.
  - apply insert_subseteq, E.
  - apply union_subseteq_r.
  - lia.
Qed.

Lemma convert_double_links_grows content st :
  grows st (snd (convert_double_links uuid4 content st)).
Proof.
  unfold convert_double_links, bind, re_sub_st.
  eapply grows_trans; apply sub_loop_grows; apply replace_link_grows.
Qed.

Lemma block_id_grows ref st : grows st (snd (block_id uuid4 ref st)).
Proof.
  unfold block_id. cbv [bind get ret modify generate_uuid]. cbn [fst snd].
  destruct (block_ids st !! ref) as [i|] eqn:E; cbn [fst snd]; [apply grows_refl|].
  refine (conj _ (conj _ (conj _ (conj _ (conj _ (conj _ _))))));
    cbn [page_ids block_ids existing_pages missing_pages file_to_title draws written
         set_block_ids set_draws]; try reflexivity.
  - apply insert_subseteq, E.
  - lia.
Qed.

Lemma convert_block_references_grows content st :
  grows st (snd (convert_block_references uuid4 content st)).
Proof.
  unfold convert_block_references, re_sub_st. apply sub_loop_grows.
  intros m s. unfold replace_block_ref, bind, ret. cbn [snd]. apply block_id_grows.
Qed.

Lemma convert_block_embeddings_grows content st :
  grows st (snd (convert_block_embeddings uuid4 content st)).
Proof.
  unfold convert_block_embeddings, re_sub_st. apply sub_loop_grows.
  intros m s. unfold replace_embed.
  destruct (re_search no_flags re_double_link _); [apply grows_refl|].
  destruct (re_search no_flags re_block_ref _); [|apply grows_refl].
  unfold bind, ret. cbn [snd]. apply block_id_grows.
Qed.

Lemma convert_markdown_to_org_state content st :
  snd (convert_markdown_to_org uuid4 content st) = set_draws (Nat.add 5) st.
Proof. reflexivity. Qed.

Lemma convert_markdown_to_org_grows content st :
  grows st (snd (convert_markdown_to_org uuid4 content st)).
Proof.
  rewrite convert_markdown_to_org_state.
  repeat split; try reflexivity. cbn [draws set_draws]. lia.
Qed.

Lemma create_org_header_grows title properties st :
  grows st (snd (create_org_header uuid4 title properties st)).
Proof.
  rewrite create_org_header_state.
  repeat split; try reflexivity. cbn [draws set_draws]. lia.
Qed.

End Grows.

Ltac grows_chain :=
  repeat lazymatch goal with
  | |- grows _ (snd (convert_markdown_to_org _ _ _)) => apply convert_markdown_to_org_grows
  | |- grows _ (snd (create_org_header _ _ _ _)) =>
      eapply grows_trans; [| apply create_org_header_grows]
  | |- grows _ (snd (convert_block_embeddings _ _ _)) =>
      eapply grows_trans; [| apply convert_block_embeddings_grows]
  | |- grows _ (snd (convert_block_references _ _ _)) =>
      eapply grows_trans; [| apply convert_block_references_grows]
  | |- grows _ (snd (convert_double_links _ _ _)) =>
      eapply grows_trans; [| apply convert_double_links_grows]
  end.

Section Frame.

Variable uuid4 : nat -> list ascii.
Variable yaml_safe_load : list ascii -> option (option (list (list ascii * pyval))).
Variable now : list ascii.

(** The conversion of a file lets the converter grow and then writes at
    most one file, at the output path. *)
Lemma convert_file_frame stem content output_path st :
  exists st1, grows st st1
    /\ (snd (convert_file uuid4 yaml_safe_load stem content output_path st) = st1
        \/ exists text,
             snd (convert_file uuid4 yaml_safe_load stem content output_path st)
             = set_written <[ output_path := text ]> st1).
Proof.
  unfold convert_file. cbv zeta. unfold bind, get. cbn [fst snd].
  match goal with
  | |- context [match ?t with VStr _ => _ | VList _ _ => _ | VOther _ _ => _ end] =>
      destruct t
  end.
  - eexists. split; cycle 1.
    + right. eexists. unfold modify. cbn [snd]. reflexivity.
    + grows_chain.
  - eexists. split; cycle 1.
    + left. unfold ret. cbn [snd]. reflexivity.
    + grows_chain.
  - eexists. split; cycle 1.
    + right. eexists. unfold modify. cbn [snd]. reflexivity.
    + grows_chain.
Qed.

(** X10. The conversion of a file never changes an identifier: the names
    and the block references that have an identifier before it have the
    same one after it. *)
Theorem convert_file_keeps_identifiers (stem content output_path : list ascii) (st : conv) :
  page_ids st ⊆ page_ids (snd (convert_file uuid4 yaml_safe_load stem content output_path st))
  /\ block_ids st ⊆ block_ids (snd (convert_file uuid4 yaml_safe_load stem content output_path st)).
Proof.
  destruct (convert_file_frame stem content output_path st)
    as (st1 & (P & B & _) & [E|[text E]]); rewrite E; split; assumption.
Qed.

(** X11. The conversion of a file writes at the output path only: every
    other path of the output directory has what it had, and the scanned
    pages and their titles are the same. *)
Theorem convert_file_writes_output_only (stem content output_path : list ascii)
    (st : conv) (path : list ascii) :
  path <> output_path ->
  written (snd (convert_file uuid4 yaml_safe_load stem content output_path st)) !! path
  = written st !! path
  /\ existing_pages (snd (convert_file uuid4 yaml_safe_load stem content output_path st))
     = existing_pages st
  /\ file_to_title (snd (convert_file uuid4 yaml_safe_load stem content output_path st))
     = file_to_title st.
Proof.
  intros Hne.
  destruct (convert_file_frame stem content output_path st)
    as (st1 & (_ & _ & E1 & _ & T1 & _ & W1) & [E|[text E]]); rewrite E.
  - rewrite W1. auto.
  - cbn [written existing_pages file_to_title set_written].
    rewrite lookup_insert_ne by congruence. rewrite W1. auto.
Qed.

End Frame.

Lemma convert_file_writes_output_only_witness :
  ("pages/b.org" : list ascii) <> "pages/a.org"
  /\ written (snd (convert_file uuid_demo yaml_demo "a" "see [[b]]" "pages/a.org"
                     (set_written <[ ("pages/b.org" : list ascii) := ("stub" : list ascii) ]> conv_init)))
       !! ("pages/b.org" : list ascii)
     = Some ("stub" : list ascii).
Proof.
  split; [discriminate|].
  pose proof (convert_file_writes_output_only uuid_demo yaml_demo "a" "see [[b]]" "pages/a.org"
                (set_written <[ ("pages/b.org" : list ascii) := ("stub" : list ascii) ]> conv_init)
                "pages/b.org") as H.
  destruct H as [H _]; [discriminate|]. rewrite H. apply lookup_insert_eq.
Defined.

(** ** The passes over the source directory *)

(** A relation that every step of a loop keeps is kept by the loop. *)
Lemma for_each_keeps {A} (R : conv -> conv -> Prop) (l : list A) (body : A -> M unit) :
  (forall st, R st st) -> (forall a b c, R a b -> R b c -> R a c) ->
  (forall x st, In x l -> R st (snd (body x st))) ->
  forall st, R st (snd (for_each l body st)).
Proof.
  intros Hrefl Htrans. induction l as [|x l IH]; intros Hbody st; [apply Hrefl|].
  cbn [for_each]. unfold bind. apply (Htrans _ (snd (body x st))).
  - apply Hbody. left. reflexivity.
  - apply IH. intros y s Hy. apply Hbody. right. exact Hy.
Qed.

(** A property that every step of a loop keeps is kept by the loop. *)
Lemma for_each_invariant {A} (P : conv -> Prop) (l : list A) (body : A -> M unit) :
  (forall x st, In x l -> P st -> P (snd (body x st))) ->
  forall st, P st -> P (snd (for_each l body st)).
Proof.
  induction l as [|x l IH]; intros Hbody st Hst; [exact Hst|].
  cbn [for_each]. unfold bind. apply IH.
  - intros y s Hy. apply Hbody. right. exact Hy.
  - apply Hbody; [left; reflexivity | exact Hst].
Qed.

(** What a step establishes for its element, and every step keeps, holds
    for every element after the loop. *)
Lemma for_each_establishes {A} (Q : A -> conv -> Prop) (l : list A) (body : A -> M unit) :
  (forall x st, Q x (snd (body x st))) ->
  (forall x y st, Q x st -> Q x (snd (body y st))) ->
  forall st x, In x l -> Q x (snd (for_each l body st)).
Proof.
  intros Hest Hkeep. induction l as [|y l IH]; intros st x Hx; [destruct Hx|].
  cbn [for_each]. unfold bind. destruct Hx as [<-|Hx].
  - apply (for_each_invariant (Q y)); [|apply Hest].
    intros z s _ Hs. apply Hkeep, Hs.
  - apply IH, Hx.
Qed.

Section Passes.

Variable uuid4 : nat -> list ascii.
Variable yaml_safe_load : list ascii -> option (option (list (list ascii * pyval))).
Variable now : list ascii.

Lemma convert_all_passes src st :
  convert_all uuid4 yaml_safe_load now src st
  = convert_files uuid4 yaml_safe_load src (snd (prepare uuid4 now src st)).
Proof. reflexivity. Qed.

(** The identifiers of [st] are those of [st']. *)
Let same_ids (st st' : conv) : Prop :=
  page_ids st ⊆ page_ids st' /\ block_ids st ⊆ block_ids st'.

Lemma convert_files_same_ids src st :
  same_ids st (snd (convert_files uuid4 yaml_safe_load src st)).
Proof.
  assert (Hrefl : forall s, same_ids s s) by (intros s; split; reflexivity).
  assert (Htrans : forall a b c, same_ids a b -> same_ids b c -> same_ids a c).
  { intros a b c [P1 B1] [P2 B2]. split; etransitivity; eassumption. }
  unfold convert_files. apply for_each_keeps; [exact Hrefl | exact Htrans|].
  intros folder s _. apply for_each_keeps; [exact Hrefl | exact Htrans|].
  intros file s' _.
  destruct (convert_file_frame uuid4 yaml_safe_load (fst file) (snd file)
              (fst folder ++ "/" ++ dash_dates (fst file) ++ ".org") s')
    as (st1 & (P & B & _) & [E|[text E]]); rewrite E; split; assumption.
Qed.

(** X12. Once the conversion of the files has started, no identifier
    changes: the names and the block references that have an identifier
    after the three passes of preparation have the same one when
    [convert_all] is done. *)
Theorem convert_all_keeps_identifiers (src : corpus) (st : conv) :
  page_ids (snd (prepare uuid4 now src st))
    ⊆ page_ids (snd (convert_all uuid4 yaml_safe_load now src st))
  /\ block_ids (snd (prepare uuid4 now src st))
       ⊆ block_ids (snd (convert_all uuid4 yaml_safe_load now src st)).
Proof. rewrite convert_all_passes. apply convert_files_same_ids. Qed.

End Passes.

(** *** The scan of the pages *)

Section Scan.

Variable uuid4 : nat -> list ascii.

Lemma scan_file_state file st :
  exists title,
    snd (scan_file uuid4 file st)
    = set_file_to_title <[ fst file := title ]>
        (set_page_ids <[ fst file := uuid4 (draws st) ]>
           (set_draws S (set_existing_pages (fun s => {[ fst file ]} ∪ s) st))).
Proof.
  unfold scan_file. cbv [bind get ret modify generate_uuid]. cbn [fst snd].
  destruct (re_search fl_MI re_title (snd file)); [eexists; reflexivity|].
  destruct (re_search fl_M re_first_heading (snd file)); eexists; reflexivity.
Qed.

Lemma scan_file_registers file st : registered (fst file) (snd (scan_file uuid4 file st)).
Proof.
  destruct (scan_file_state file st) as [title ->].
  unfold registered.
  cbn [existing_pages page_ids file_to_title set_file_to_title set_page_ids set_draws
       set_existing_pages].
  rewrite !lookup_insert_eq. split; [set_solver | split; eexists; reflexivity].
Qed.

Lemma scan_file_keeps_registered name file st :
  registered name st -> registered name (snd (scan_file uuid4 file st)).
Proof.
  intros (He & Hp & Ht). destruct (scan_file_state file st) as [title ->].
  unfold registered.
  cbn [existing_pages page_ids file_to_title set_file_to_title set_page_ids set_draws
       set_existing_pages].
  split; [set_solver|]. split.
  - destruct (decide (fst file = name)) as [->|Hne];
      [rewrite lookup_insert_eq; eexists; reflexivity | rewrite lookup_insert_ne; assumption].
  - destruct (decide (fst file = name)) as [->|Hne];
      [rewrite lookup_insert_eq; eexists; reflexivity | rewrite lookup_insert_ne; assumption].
Qed.

Lemma scan_folder_registers l st file :
  In file l -> registered (fst file) (snd (for_each l (scan_file uuid4) st)).
Proof.
  apply (for_each_establishes (fun f s => registered (fst f) s)).
  - intros x s. apply scan_file_registers.
  - intros x y s. apply scan_file_keeps_registered.
Qed.

Lemma scan_folder_keeps_registered l st name :
  registered name st -> registered name (snd (for_each l (scan_file uuid4) st)).
Proof.
  apply (for_each_invariant (registered name)).
  intros x s _. apply scan_file_keeps_registered.
Qed.

(** X13. After the scan, every file of the two folders is registered: its
    stem is an existing page, has an identifier and has a title. *)
Theorem scan_existing_pages_registers (src : corpus) (st : conv)
    (file : list ascii * list ascii) :
  In file (files src) ->
  registered (fst file) (snd (scan_existing_pages uuid4 src st)).
Proof.
  intros Hin. unfold scan_existing_pages, folders. cbn [for_each]. unfold bind, ret.
  cbn [fst snd]. apply in_app_or in Hin as [Hin|Hin].
  - apply scan_folder_keeps_registered, scan_folder_registers, Hin.
  - apply scan_folder_registers, Hin.
Qed.

(** X14. A file whose text has no colon and no hash sign has no title line
    and no first heading: the scan gives it its stem as title. *)
Theorem scan_file_title_is_stem (stem content : list ascii) (st : conv) :
  free_of ":" content = true -> free_of "#" content = true ->
  file_to_title (snd (scan_file uuid4 (stem, content) st)) !! stem = Some stem.
Proof.
  intros Hc Hh. unfold scan_file. cbv [bind get ret modify generate_uuid]. cbn [fst snd].
  rewrite re_search_silent by (apply (silent_needs _ ":"); [vm_compute; reflexivity | exact Hc]).
  rewrite re_search_silent by (apply (silent_needs _ "#"); [vm_compute; reflexivity | exact Hh]).
  cbn [snd file_to_title set_file_to_title]. apply lookup_insert_eq.
Qed.

End Scan.

Lemma scan_existing_pages_registers_witness :
  let src := {| pages := [("a" : list ascii, "title: A" : list ascii)];
                journals := [("2024_01_15" : list ascii, "- note" : list ascii)] |} in
  In ("2024_01_15" : list ascii, "- note" : list ascii) (files src)
  /\ registered "2024_01_15" (snd (scan_existing_pages uuid_demo src conv_init)).
Proof.
  intros src. split; [right; left; reflexivity|].
  apply (scan_existing_pages_registers uuid_demo src conv_init
           ("2024_01_15" : list ascii, "- note" : list ascii)).
  right; left; reflexivity.
Defined.

Lemma scan_file_title_is_stem_witness :
  free_of ":" "- a note" = true /\ free_of "#" "- a note" = true
  /\ file_to_title (snd (scan_file uuid_demo ("n" : list ascii, "- a note" : list ascii) conv_init))
       !! ("n" : list ascii) = Some ("n" : list ascii).
Proof.
  split; [reflexivity|]. split; [reflexivity|].
  apply (scan_file_title_is_stem uuid_demo "n" "- a note" conv_init); reflexivity.
Defined.

(** *** The collection of the missing pages *)

Lemma collected_refl st : collected st st.
Proof. repeat split; try reflexivity. intros name H. left. exact H. Qed.

Lemma collected_trans a b c : collected a b -> collected b c -> collected a c.
Proof.
  intros (P1 & B1 & E1 & T1 & D1 & W1 & M1) (P2 & B2 & E2 & T2 & D2 & W2 & M2).
  refine (conj _ (conj _ (conj _ (conj _ (conj _ (conj _ _)))))); try congruence.
  intros name H. destruct (M2 name H) as [H2|[Hne Hex]].
  - apply M1, H2.
  - right. split; [exact Hne|]. rewrite <- E1. exact Hex.
Qed.

Lemma collect_match_collected mtch st : collected st (snd (collect_match mtch st)).
Proof.
  unfold collect_match. cbv [bind get ret modify]. cbn [fst snd].
  destruct (negb (str_eqb (normalize_page_name mtch) [])) eqn:Ee; cbn [andb];
    [|apply collected_refl].
  destruct (bool_decide (normalize_page_name mtch ∈ existing_pages st)) eqn:Ex;
    cbn [negb]; [apply collected_refl|].
  cbn [snd]. refine (conj _ (conj _ (conj _ (conj _ (conj _ (conj _ _))))));
    try reflexivity.
  intros name H. cbn [missing_pages set_missing_pages] in H.
  apply elem_of_union in H as [H|H]; [|left; exact H].
  apply elem_of_singleton in H. subst name. right. split.
  - intros E. apply negb_true_iff in Ee. unfold str_eqb in Ee.
    apply bool_decide_eq_false in Ee. contradiction.
  - apply bool_decide_eq_false in Ex. exact Ex.
Qed.

Lemma collect_file_collected file st : collected st (snd (collect_file file st)).
Proof.
  unfold collect_file.
  apply for_each_keeps; [apply collected_refl | apply collected_trans|].
  intros pattern s _.
  apply for_each_keeps; [apply collected_refl | apply collected_trans|].
  intros m s' _. apply collect_match_collected.
Qed.

Lemma collect_missing_pages_frame src st :
  collected st (snd (collect_missing_pages src st)).
Proof.
  unfold collect_missing_pages.
  apply for_each_keeps; [apply collected_refl | apply collected_trans|].
  intros folder s _.
  apply for_each_keeps; [apply collected_refl | apply collected_trans|].
  intros file s' _. apply collect_file_collected.
Qed.

(** X15. The collection of the missing pages changes the set of the
    missing pages only, and every name it adds is not empty and is not a
    scanned page. *)
Theorem collect_missing_pages_collected (src : corpus) (st : conv) :
  collected st (snd (collect_missing_pages src st)).
Proof. apply collect_missing_pages_frame. Qed.

(** *** The identifiers of the missing pages *)

Section Stubs.

Variable uuid4 : nat -> list ascii.
Variable now : list ascii.

Lemma create_stub_state name st :
  exists w,
    snd (create_stub uuid4 now name st)
    = set_written w (set_page_ids <[ name := uuid4 (draws st) ]> (set_draws S st)).
Proof. eexists. reflexivity. Qed.

Lemma create_stub_ids name st :
  page_ids (snd (create_stub uuid4 now name st)) = <[ name := uuid4 (draws st) ]> (page_ids st)
  /\ draws (snd (create_stub uuid4 now name st)) = S (draws st).
Proof. split; reflexivity. Qed.

(** The page has the identifier that was drawn from [d] on. *)
Let has_id (d : nat) (name : list ascii) (st : conv) : Prop :=
  exists k, d <= k < draws st /\ page_ids st !! name = Some (uuid4 k).

Lemma create_stub_keeps_id d name other st :
  other <> name -> has_id d name st -> has_id d name (snd (create_stub uuid4 now other st)).
Proof.
  intros Hne (k & Hk & Hp). destruct (create_stub_ids other st) as [Ep Ed].
  exists k. rewrite Ep, Ed, lookup_insert_ne by exact Hne. split; [lia | exact Hp].
Qed.

Lemma create_stubs_draws (l : list (list ascii)) : forall st,
  draws (snd (for_each l (create_stub uuid4 now) st)) = draws st + length l.
Proof.
  induction l as [|x l IH]; intros st; [cbn; lia|].
  cbn [for_each]. unfold bind. rewrite IH.
  destruct (create_stub_ids x st) as [_ Ed]. rewrite Ed. cbn [length]. lia.
Qed.

Lemma create_stubs_has_id (l : list (list ascii)) : forall st name,
  NoDup l -> In name l ->
  has_id (draws st) name (snd (for_each l (create_stub uuid4 now) st)).
Proof.
  induction l as [|x l IH]; intros st name Hnd Hin; [destruct Hin|].
  apply NoDup_cons in Hnd as [Hx Hnd]. cbn [for_each]. unfold bind.
  destruct (create_stub_ids x st) as [Ep Ed].
  destruct Hin as [<-|Hin].
  - apply (for_each_invariant (has_id (draws st) x)).
    + intros y s Hy Hs. apply create_stub_keeps_id; [|exact Hs].
      intros ->. apply Hx. apply list_elem_of_In. exact Hy.
    + exists (draws st). rewrite Ep, Ed, lookup_insert_eq. split; [lia | reflexivity].
  - destruct (IH (snd (create_stub uuid4 now x st)) name Hnd Hin) as (k & Hk & Hp).
    exists k. split; [lia | exact Hp].
Qed.


End Stubs.


(** ** Distinct identifiers *)

Section Distinct.

Variable uuid4 : nat -> list ascii.
Variable yaml_safe_load : list ascii -> option (option (list (list ascii * pyval))).
Variable now : list ascii.

(** The identifiers that the generator gives are distinct. *)
Hypothesis uuid4_inj : forall n m, uuid4 n = uuid4 m -> n = m.

Let inv (st : conv) : Prop := ids_drawn uuid4 st /\ ids_distinct st.

Lemma inv_frame st st' :
  inv st -> page_ids st' = page_ids st -> block_ids st' = block_ids st ->
  draws st <= draws st' -> inv st'.
Proof.
  intros [[Dp Db] [Ip [Ib Ipb]]] Ep Eb Hd. unfold inv, ids_drawn, ids_distinct.
  rewrite Ep, Eb. repeat split; try assumption.
  - intros name id H. destruct (Dp name id H) as (k & Hk & ->). exists k. split; [lia | reflexivity].
  - intros ref id H. destruct (Db ref id H) as (k & Hk & ->). exists k. split; [lia | reflexivity].
Qed.

Lemma inv_new_page st name :
  inv st -> inv (set_page_ids <[ name := uuid4 (draws st) ]> (set_draws S st)).
Proof.
  intros [[Dp Db] [Ip [Ib Ipb]]].
  assert (Fp : forall n id, page_ids st !! n = Some id -> id <> uuid4 (draws st)).
  { intros n id H E. destruct (Dp n id H) as (k & Hk & ->). apply uuid4_inj in E. lia. }
  assert (Fb : forall r id, block_ids st !! r = Some id -> id <> uuid4 (draws st)).
  { intros r id H E. destruct (Db r id H) as (k & Hk & ->). apply uuid4_inj in E. lia. }
  unfold inv, ids_drawn, ids_distinct.
  cbn [page_ids block_ids draws set_page_ids set_draws]. repeat split.
  - intros n id H. apply lookup_insert_Some in H as [[_ <-]|[_ H]].
    + exists (draws st). split; [lia | reflexivity].
    + destruct (Dp n id H) as (k & Hk & ->). exists k. split; [lia | reflexivity].
  - intros r id H. destruct (Db r id H) as (k & Hk & ->). exists k. split; [lia | reflexivity].
  - intros n1 n2 id H1 H2.
    apply lookup_insert_Some in H1 as [[<- <-]|[N1 H1]];
      apply lookup_insert_Some in H2 as [[E2 E]|[N2 H2]].
    + exact E2.
    + exfalso. exact (Fp _ _ H2 eq_refl).
    + subst id. exfalso. exact (Fp _ _ H1 eq_refl).
    + exact (Ip _ _ _ H1 H2).
  - exact Ib.
  - intros n r id H1 H2. apply lookup_insert_Some in H1 as [[_ <-]|[_ H1]].
    + exact (Fb _ _ H2 eq_refl).
    + exact (Ipb _ _ _ H1 H2).
Qed.

Lemma inv_new_block st ref :
  inv st -> inv (set_block_ids <[ ref := uuid4 (draws st) ]> (set_draws S st)).
Proof.
  intros [[Dp Db] [Ip [Ib Ipb]]].
  assert (Fp : forall n id, page_ids st !! n = Some id -> id <> uuid4 (draws st)).
  { intros n id H E. destruct (Dp n id H) as (k & Hk & ->). apply uuid4_inj in E. lia. }
  assert (Fb : forall r id, block_ids st !! r = Some id -> id <> uuid4 (draws st)).
  { intros r id H E. destruct (Db r id H) as (k & Hk & ->). apply uuid4_inj in E. lia. }
  unfold inv, ids_drawn, ids_distinct.
  cbn [page_ids block_ids draws set_block_ids set_draws]. repeat split.
  - intros n id H. destruct (Dp n id H) as (k & Hk & ->). exists k. split; [lia | reflexivity].
  - intros r id H. apply lookup_insert_Some in H as [[_ <-]|[_ H]].
    + exists (draws st). split; [lia | reflexivity].
    + destruct (Db r id H) as (k & Hk & ->). exists k. split; [lia | reflexivity].
  - exact Ip.
  - intros r1 r2 id H1 H2.
    apply lookup_insert_Some in H1 as [[<- <-]|[N1 H1]];
      apply lookup_insert_Some in H2 as [[E2 E]|[N2 H2]].
    + exact E2.
    + exfalso. exact (Fb _ _ H2 eq_refl).
    + subst id. exfalso. exact (Fb _ _ H1 eq_refl).
    + exact (Ib _ _ _ H1 H2).
  - intros n r id H1 H2. apply lookup_insert_Some in H2 as [[_ <-]|[_ H2]].
    + exact (Fp _ _ H1 eq_refl).
    + exact (Ipb _ _ _ H1 H2).
Qed.

Lemma inv_grows_same st st' :
  inv st -> page_ids st' = page_ids st -> block_ids st' = block_ids st ->
  grows st st' -> inv st'.
Proof. intros H Ep Eb (_ & _ & _ & _ & _ & Hd & _). exact (inv_frame st st' H Ep Eb Hd). Qed.

Lemma scan_file_inv file st : inv st -> inv (snd (scan_file uuid4 file st)).
Proof.
  intros H. destruct (scan_file_state uuid4 file st) as [title ->].
  apply (inv_frame (set_page_ids <[ fst file := uuid4 (draws (set_existing_pages (fun s => {[ fst file ]} ∪ s) st)) ]>
                      (set_draws S (set_existing_pages (fun s => {[ fst file ]} ∪ s) st))));
    [|reflexivity|reflexivity|reflexivity].
  apply inv_new_page. exact (inv_frame st _ H eq_refl eq_refl (le_n _)).
Qed.

Lemma create_stub_inv name st : inv st -> inv (snd (create_stub uuid4 now name st)).
Proof.
  intros H. destruct (create_stub_state uuid4 now name st) as [w ->].
  apply (inv_frame (set_page_ids <[ name := uuid4 (draws st) ]> (set_draws S st)));
    [apply inv_new_page, H | reflexivity | reflexivity | reflexivity].
Qed.

Lemma replace_link_inv m st : inv st -> inv (snd (replace_link uuid4 m st)).
Proof.
  intros H. unfold replace_link. cbv [bind get ret modify generate_uuid]. cbn [fst snd].
  destruct (page_ids st !! normalize_page_name _) as [i|] eqn:E; cbn [fst snd]; [exact H|].
  match goal with
  | |- inv (set_missing_pages ?f (set_page_ids <[ ?n := _ ]> _)) =>
      apply (inv_frame (set_page_ids <[ n := uuid4 (draws st) ]> (set_draws S st)));
        [apply inv_new_page, H | reflexivity | reflexivity | reflexivity]
  end.
Qed.

Lemma block_id_inv ref st : inv st -> inv (snd (block_id uuid4 ref st)).
Proof.
  intros H. unfold block_id. cbv [bind get ret modify generate_uuid]. cbn [fst snd].
  destruct (block_ids st !! ref) as [i|] eqn:E; cbn [fst snd]; [exact H|].
  apply inv_new_block, H.
Qed.

Lemma convert_double_links_inv content st :
  inv st -> inv (snd (convert_double_links uuid4 content st)).
Proof.
  intros H. unfold convert_double_links, bind, re_sub_st.
  apply (sub_loop_invariant _ _ _ inv); [intros; apply replace_link_inv; assumption|].
  apply (sub_loop_invariant _ _ _ inv); [intros; apply replace_link_inv; assumption|exact H].
Qed.

Lemma convert_block_references_inv content st :
  inv st -> inv (snd (convert_block_references uuid4 content st)).
Proof.
  intros H. unfold convert_block_references, re_sub_st.
  apply (sub_loop_invariant _ _ _ inv); [|exact H].
  intros m s Hs. unfold replace_block_ref, bind, ret. cbn [snd]. apply block_id_inv, Hs.
Qed.

Lemma convert_block_embeddings_inv content st :
  inv st -> inv (snd (convert_block_embeddings uuid4 content st)).
Proof.
  intros H. unfold convert_block_embeddings, re_sub_st.
  apply (sub_loop_invariant _ _ _ inv); [|exact H].
  intros m s Hs. unfold replace_embed.
  destruct (re_search no_flags re_double_link _); [exact Hs|].
  destruct (re_search no_flags re_block_ref _); [|exact Hs].
  unfold bind, ret. cbn [snd]. apply block_id_inv, Hs.
Qed.

Lemma convert_file_inv stem content output_path st :
  inv st -> inv (snd (convert_file uuid4 yaml_safe_load stem content output_path st)).
Proof.
  intros H.
  assert (H4 : forall c1 c2 c3 c4,
            inv (snd (convert_block_embeddings uuid4 c4
                   (snd (convert_block_references uuid4 c3
                      (snd (convert_double_links uuid4 c2
                         (snd (convert_markdown_to_org uuid4 c1 st))))))))).
  { intros c1 c2 c3 c4.
    apply convert_block_embeddings_inv, convert_block_references_inv,
      convert_double_links_inv.
    rewrite convert_markdown_to_org_state.
    apply (inv_frame st (set_draws (Nat.add 5) st) H); [reflexivity | reflexivity|].
    cbn [draws set_draws]. lia. }
  unfold convert_file. cbv zeta. unfold bind, get. cbn [fst snd].
  match goal with
  | |- context [match ?t with VStr _ => _ | VList _ _ => _ | VOther _ _ => _ end] =>
      destruct t
  end.
  - unfold modify. cbn [snd]. rewrite create_org_header_state.
    eapply inv_frame; [apply H4 | reflexivity | reflexivity|].
    cbn [draws set_written set_draws]. lia.
  - unfold ret. cbn [snd]. apply H4.
  - unfold modify. cbn [snd]. rewrite create_org_header_state.
    eapply inv_frame; [apply H4 | reflexivity | reflexivity|].
    cbn [draws set_written set_draws]. lia.
Qed.

Lemma convert_all_inv src st :
  inv st -> inv (snd (convert_all uuid4 yaml_safe_load now src st)).
Proof.
  intros H. rewrite convert_all_passes. unfold convert_files.
  apply (for_each_invariant inv).
  { intros folder s _ Hs. apply (for_each_invariant inv); [|exact Hs].
    intros file s' _ Hs'. apply convert_file_inv, Hs'. }
  unfold prepare, bind. unfold create_missing_pages at 1. cbv [bind get]. cbn [fst snd].
  apply (for_each_invariant inv); [intros name s _ Hs; apply create_stub_inv, Hs|].
  destruct (collect_missing_pages_frame src (snd (scan_existing_pages uuid4 src st)))
    as (Ep & Eb & _ & _ & Ed & _).
  eapply inv_frame; [| exact Ep | exact Eb | rewrite Ed; reflexivity].
  unfold scan_existing_pages.
  apply (for_each_invariant inv); [|exact H].
  intros folder s _ Hs. apply (for_each_invariant inv); [|exact Hs].
  intros file s' _ Hs'. apply scan_file_inv, Hs'.
Qed.

(** X17. When the generator never gives the same identifier twice, the
    registry that [convert_all] builds has no identifier twice: no two
    pages, no two blocks, and no page and block share one. *)
Theorem convert_all_distinct_identifiers (src : corpus) :
  ids_distinct (snd (convert_all uuid4 yaml_safe_load now src conv_init)).
Proof.
  apply convert_all_inv. split.
  - split; intros n id H; cbn in H; rewrite lookup_empty in H; discriminate.
  - repeat split; intros ? ? ? H; cbn in H; rewrite lookup_empty in H; discriminate.
Qed.

End Distinct.

Lemma convert_all_distinct_identifiers_witness :
  (forall n m, uuid_demo n = uuid_demo m -> n = m)
  /\ ids_distinct
       (snd (convert_all uuid_demo yaml_demo now_demo
               {| pages := [("a" : list ascii, "[[b]] ((r)) [[c|d]]" : list ascii)];
                  journals := [("a" : list ascii, "{{embed ((s))}}" : list ascii)] |}
               conv_init)).
Proof.
  split; [exact uuid_demo_inj|].
  apply (convert_all_distinct_identifiers uuid_demo yaml_demo now_demo uuid_demo_inj).
Defined.

(** ** The documents that are written *)

Section Written.

Variable uuid4 : nat -> list ascii.
Variable yaml_safe_load : list ascii -> option (option (list (list ascii * pyval))).
Variable now : list ascii.

(** X19. A title that is a list makes the look-up of the identifier fail:
    the conversion of the file writes nothing. *)
Theorem convert_file_list_title (stem content output_path : list ascii) (st : conv)
    (items : list (list ascii)) (shown : list ascii) :
  props_get "title" (fst (extract_properties yaml_safe_load content))
  = Some (VList items shown) ->
  items <> [] ->
  written (snd (convert_file uuid4 yaml_safe_load stem content output_path st))
  = written st.
Proof.
  intros Ht Hne.
  assert (G : forall c1 c2 c3 c4,
            grows st
              (snd (convert_block_embeddings uuid4 c4
                 (snd (convert_block_references uuid4 c3
                    (snd (convert_double_links uuid4 c2
                       (snd (convert_markdown_to_org uuid4 c1 st))))))))).
  { intros. grows_chain. }
  unfold convert_file. cbv zeta. unfold bind, get. cbn [fst snd].
  rewrite Ht. cbn [py_truthy].
  rewrite bool_decide_eq_false_2 by exact Hne. cbn [negb].
  unfold ret. cbn [snd]. apply G.
Qed.

End Written.

Lemma convert_file_list_title_witness :
  let content : list ascii := "---" ++ nl ++ "title: [a, b]" ++ nl ++ "---" ++ nl ++ "text" in
  props_get "title" (fst (extract_properties yaml_list_demo content))
  = Some (VList ["a" : list ascii; "b" : list ascii] "['a', 'b']")
  /\ ["a" : list ascii; "b" : list ascii] <> []
  /\ written (snd (convert_file uuid_demo yaml_list_demo "p" content "pages/p.org" conv_init))
     = written conv_init.
Proof.
  intros content. split; [vm_compute; reflexivity|]. split; [discriminate|].
  apply (convert_file_list_title uuid_demo yaml_list_demo "p" content "pages/p.org" conv_init
           ["a" : list ascii; "b" : list ascii] "['a', 'b']");
    [vm_compute; reflexivity | discriminate].
Defined.

(** ** The drawer of the header *)

Lemma reserved_not_tags key : reserved_key key = true -> str_eqb "tags" key = false.
Proof.
  intros H. destruct (str_eqb "tags" key) eqn:E; [|reflexivity].
  apply str_eqb_eq in E. subst key. vm_compute in H. discriminate.
Qed.

Lemma props_get_tags_filter properties :
  props_get "tags" (List.filter (fun kv => negb (reserved_key (fst kv))) properties)
  = props_get "tags" properties.
Proof.
  induction properties as [|[k v] d IH]; [reflexivity|]. cbn [List.filter fst props_get].
  destruct (reserved_key k) eqn:E; cbn [negb props_get].
  - rewrite (reserved_not_tags k E). exact IH.
  - destruct (str_eqb "tags" k); [reflexivity | exact IH].
Qed.

Lemma drawer_filter properties : forall header : list ascii,
  fold_left (fun header kv =>
    let key := upper (fst kv) in
    if str_eqb key "ID" || str_eqb key "TITLE" then header
    else header ++ ":" ++ key ++ ": " ++ py_str (snd kv) ++ nl)
    (List.filter (fun kv => negb (reserved_key (fst kv))) properties) header
  = fold_left (fun header kv =>
      let key := upper (fst kv) in
      if str_eqb key "ID" || str_eqb key "TITLE" then header
      else header ++ ":" ++ key ++ ": " ++ py_str (snd kv) ++ nl)
      properties header.
Proof.
  induction properties as [|[k v] d IH]; intros header; [reflexivity|].
  cbn [List.filter fst]. unfold reserved_key at 1.
  destruct (str_eqb (upper k) "ID" || str_eqb (upper k) "TITLE") eqn:E; cbn [negb fold_left].
  - cbv zeta. cbn [fst snd]. rewrite E. apply IH.
  - cbv zeta. cbn [fst snd]. rewrite E. apply IH.
Qed.

(** X20. The properties named ID or TITLE, in any case of the letters,
    have no part in the header: it is the header of the other
    properties. *)
Theorem create_org_header_reserved_keys (uuid4 : nat -> list ascii) (title : pyval)
    (properties : list (list ascii * pyval)) (st : conv) :
  create_org_header uuid4 title properties st
  = create_org_header uuid4 title
      (List.filter (fun kv => negb (reserved_key (fst kv))) properties) st.
Proof.
  unfold create_org_header. cbv [bind get ret modify generate_uuid]. cbn [fst snd].
  rewrite props_get_tags_filter, drawer_filter. reflexivity.
Qed.

(** ** Dates *)

Lemma cmatch_digit c : cmatch fl_M digit c = is_digit c.
Proof. unfold cmatch, digit. cbn. rewrite orb_false_r. reflexivity. Qed.

Lemma match_at_date pre y1 y2 y3 y4 m1 m2 d1 d2 rest :
  forallb is_digit [y1; y2; y3; y4; m1; m2; d1; d2] = true ->
  match_at fl_M re_date
    (pre, [y1; y2; y3; y4; "_"%char; m1; m2; "_"%char; d1; d2] ++ rest)
  = Some {| m_all := [y1; y2; y3; y4; "_"%char; m1; m2; "_"%char; d1; d2];
            m_caps := [(3, [d1; d2]); (2, [m1; m2]); (1, [y1; y2; y3; y4])] |}.
Proof.
  intros H. cbn [forallb] in H.
  repeat (apply andb_true_iff in H as [?Hd H]).
  unfold match_at, re_date. cbn [seq app]. unfold lit.
  repeat (progress (rewrite ?rmatch_seq, ?rmatch_grp, ?rmatch_chr_cons, ?cmatch_digit,
                      ?Hd, ?Hd0, ?Hd1, ?Hd2, ?Hd3, ?Hd4, ?Hd5, ?Hd6;
                    cbn [cmatch fl_M IGNORECASE cset_has]; rewrite ?Ascii.eqb_refl;
                    cbv beta)).
  rewrite (consumed_app _ _ [y1; y2; y3; y4] ("_"%char :: m1 :: m2 :: "_"%char :: d1 :: d2 :: rest)).
  rewrite (consumed_app _ _ [m1; m2] ("_"%char :: d1 :: d2 :: rest)).
  rewrite (consumed_app _ _ [d1; d2] rest).
  rewrite (consumed_app _ _ [y1; y2; y3; y4; "_"%char; m1; m2; "_"%char; d1; d2] rest).
  reflexivity.
Qed.

(** X21. A date written with underscores, four digits, two digits and two
    digits, is written with dashes: the name of a journal file becomes a
    date of the outline. *)
Theorem dash_dates_date (y m d : list ascii) :
  length y = 4 -> length m = 2 -> length d = 2 ->
  forallb is_digit (y ++ m ++ d) = true ->
  dash_dates (y ++ "_" ++ m ++ "_" ++ d) = y ++ "-" ++ m ++ "-" ++ d.
Proof.
  intros Hy Hm Hd H.
  destruct y as [|y1 [|y2 [|y3 [|y4 [|]]]]]; try discriminate.
  destruct m as [|m1 [|m2 [|]]]; try discriminate.
  destruct d as [|d1 [|d2 [|]]]; try discriminate.
  cbn [app list_ascii_of_string] in *. unfold dash_dates, re_sub, re_sub_st.
  change [y1; y2; y3; y4; "_"%char; m1; m2; "_"%char; d1; d2]
    with ([y1; y2; y3; y4; "_"%char; m1; m2; "_"%char; d1; d2] ++ []).
  erewrite sub_loop_match; [| discriminate | apply match_at_date, H | reflexivity].
  rewrite sub_loop_end by (apply match_at_starts; reflexivity).
  reflexivity.
Qed.

Lemma dash_dates_date_witness :
  length ("2024" : list ascii) = 4 /\ length ("01" : list ascii) = 2
  /\ length ("15" : list ascii) = 2
  /\ forallb is_digit ("2024" ++ "01" ++ "15") = true
  /\ dash_dates "2024_01_15" = "2024-01-15".
Proof.
  split; [reflexivity|]. split; [reflexivity|]. split; [reflexivity|].
  split; [reflexivity|].
  apply (dash_dates_date "2024" "01" "15"); reflexivity.
Defined.

(** ** Texts without references *)

(** X22. The three passes of the references leave a text without an
    opening square bracket, parenthesis and brace as it is, draw no
    identifier and leave the converter as it is. *)
Theorem reference_passes_idle (uuid4 : nat -> list ascii) (t : list ascii) (st : conv) :
  free_of "[" t = true -> free_of "(" t = true -> free_of "{" t = true ->
  convert_double_links uuid4 t st = (t, st)
  /\ convert_block_references uuid4 t st = (t, st)
  /\ convert_block_embeddings uuid4 t st = (t, st).
Proof.
  intros Hb Hp Hc. split; [|split].
  - unfold convert_double_links, bind.
    rewrite (re_sub_st_silent no_flags re_double_link) by needs_char "["%char.
    cbn [fst snd]. apply re_sub_st_silent. needs_char "["%char.
  - unfold convert_block_references. apply re_sub_st_silent. needs_char "("%char.
  - unfold convert_block_embeddings. apply re_sub_st_silent. needs_char "{"%char.
Qed.

Lemma reference_passes_idle_witness :
  free_of "[" "* a heading" = true /\ free_of "(" "* a heading" = true
  /\ free_of "{" "* a heading" = true
  /\ convert_double_links uuid_demo "* a heading" conv_init = ("* a heading" : list ascii, conv_init)
  /\ convert_block_references uuid_demo "* a heading" conv_init = ("* a heading" : list ascii, conv_init)
  /\ convert_block_embeddings uuid_demo "* a heading" conv_init = ("* a heading" : list ascii, conv_init).
Proof.
  split; [reflexivity|]. split; [reflexivity|]. split; [reflexivity|].
  apply (reference_passes_idle uuid_demo "* a heading" conv_init); reflexivity.
Defined.

(** ** Markup between two markers *)

(** A lazy run of one or more characters of [cs], none of them [x], where
    the rest of the expression fails before every character but [x] and
    succeeds after the run. *)
Lemma rmatch_lazy_group {R} (K : pos -> caps -> option R) cs x n pre a b cp res :
  a <> [] -> forallb (cmatch no_flags cs) a = true -> free_of x a = true ->
  (forall q c s cp', Ascii.eqb c x = false -> K (q, c :: s) cp' = None) ->
  K (rev a ++ pre, b) ((n, a) :: cp) = Some res ->
  rmatch no_flags (Grp n (plus_lazy (Chr cs))) R (pre, a ++ b) cp K = Some res.
Proof.
  intros Hne Ha Hx HK Hres. rewrite rmatch_grp. unfold plus_lazy. rewrite rmatch_seq.
  destruct a as [|c a]; [congruence|].
  cbn [forallb] in Ha. apply andb_true_iff in Ha as [Hc Ha].
  cbn [free_of forallb] in Hx. apply andb_true_iff in Hx as [_ Hx].
  cbn [app]. rewrite rmatch_chr_cons, Hc, rmatch_star_lazy_chr.
  rewrite lazy_run_app; [| exact Ha |].
  - apply lazy_run_here. rewrite (consumed_app pre _ (c :: a) b).
    cbn [rev] in Hres. rewrite <- app_assoc in Hres. exact Hres.
  - intros a1 d a2 ->. apply HK. apply negb_true_iff. exact (forallb_split _ _ _ _ Hx).
Qed.

Lemma drop_prefix (w s : str) : drop (length w) (w ++ s) = s.
Proof. induction w as [|c w IH]; [apply drop_0 | exact IH]. Qed.

(** The expression "opening word, one or more characters taken lazily,
    closing word" matches the first text that has this form. *)
Lemma match_at_delimited (o cl : str) cs x cl' pre body rest :
  o <> [] -> cl = x :: cl' -> body <> [] ->
  forallb (cmatch no_flags cs) body = true -> free_of x body = true ->
  match_at no_flags (seq [word o; Grp 1 (plus_lazy (Chr cs)); word cl])
    (pre, (o ++ body ++ cl) ++ rest)
  = Some {| m_all := o ++ body ++ cl; m_caps := [(1, body)] |}.
Proof.
  intros Ho Hcl Hne Hcs Hx. unfold match_at. cbn [seq].
  rewrite rmatch_seq, rmatch_word. rewrite <- !app_assoc.
  rewrite startswith_prefix, drop_prefix.
  apply (rmatch_lazy_group _ cs x 1 _ body (cl ++ rest)); try assumption.
  - intros q c s cp' Hc. rewrite rmatch_word. subst cl. cbn [startswith].
    rewrite Ascii.eqb_sym, Hc. reflexivity.
  - rewrite rmatch_word, startswith_prefix, drop_prefix.
    f_equal. f_equal.
    rewrite (app_assoc body cl rest), (app_assoc o (body ++ cl) rest). apply consumed_app.
Qed.

(** The substitution on a text that is one match. *)
Lemma re_sub_whole fl r (f : mobj -> str) (s : str) m :
  s <> [] -> match_at fl r ([], s) = Some m -> m_all m = s ->
  match_at fl r (rev s, []) = None ->
  re_sub fl r f s = f m.
Proof.
  intros Hne Hm Hall Hend. unfold re_sub, re_sub_st.
  rewrite <- (app_nil_r s) in Hm. rewrite <- (app_nil_r (rev s)) in Hend.
  rewrite <- (app_nil_r s) at 1.
  rewrite (sub_loop_match fl r _ s [] [] tt m Hne Hm Hall). cbn [fst snd].
  rewrite sub_loop_end by exact Hend. cbn [fst]. apply app_nil_r.
Qed.

(** *** Expressions that start at the start of a line *)

(** In a text of one line, an expression that starts with "^" matches at
    the start or not at all. *)
Lemma silent_line fl r s :
  no_newline s = true -> match_at fl (Seq Bol r) ([], s) = None ->
  forall t1 t2, s = t1 ++ t2 -> match_at fl (Seq Bol r) (rev t1, t2) = None.
Proof.
  intros Hs H0 t1 t2 ->. destruct (rev t1) as [|d q] eqn:E.
  - apply (f_equal (@rev ascii)) in E. rewrite rev_involutive in E. subst t1. exact H0.
  - unfold match_at. rewrite rmatch_seq. cbn [rmatch at_bol fst app].
    assert (Hd : Ascii.eqb d newline = false).
    { apply (f_equal (@rev ascii)) in E. rewrite rev_involutive in E. subst t1.
      cbn [rev] in Hs. rewrite <- app_assoc in Hs. apply negb_true_iff.
      exact (forallb_split _ _ _ _ Hs). }
    rewrite Hd, andb_false_r. reflexivity.
Qed.

(** A text in which no match starts, seen from its start, is left as it
    is. *)
Lemma re_sub_st_untouched {S} fl r (f : mobj -> S -> str * S) t st :
  (forall t1 t2, t = t1 ++ t2 -> match_at fl r (rev t1, t2) = None) ->
  re_sub_st fl r f t st = (t, st).
Proof.
  intros H. unfold re_sub_st. rewrite <- (app_nil_r t) at 1. rewrite sub_loop_copy.
  - rewrite sub_loop_end.
    + cbn [fst snd]. rewrite app_nil_r. reflexivity.
    + rewrite app_nil_r. apply (H t []). rewrite app_nil_r. reflexivity.
  - intros t1 c t2 E. rewrite !app_nil_r. apply (H t1 (c :: t2) E).
Qed.

Lemma re_sub_untouched fl r f t :
  (forall t1 t2, t = t1 ++ t2 -> match_at fl r (rev t1, t2) = None) ->
  re_sub fl r f t = t.
Proof. intros H. unfold re_sub. rewrite re_sub_st_untouched by exact H. reflexivity. Qed.

(** *** A text that is not in another *)

Lemma no_seq_from_app a b u : forall prev v,
  no_seq_from a b prev u = true -> (forall prev', no_seq_from a b prev' v = true) ->
  no_seq_from a b prev (u ++ v) = true.
Proof.
  induction u as [|c u IH]; intros prev v Hu Hv; [apply Hv|].
  cbn [app no_seq_from] in *. apply andb_true_iff in Hu as [Hc Hu].
  rewrite Hc, (IH _ _ Hu Hv). reflexivity.
Qed.

Lemma no_seq_from_free_b a b s prev : free_of b s = true -> no_seq_from a b prev s = true.
Proof.
  revert prev. induction s as [|c s IH]; intros prev H; [reflexivity|].
  cbn [free_of forallb] in H. apply andb_true_iff in H as [Hc H].
  cbn [no_seq_from]. apply negb_true_iff in Hc. rewrite Hc. cbn [andb negb].
  apply IH, H.
Qed.

Lemma no_seq_from_free_a a b s : free_of a s = true -> no_seq_from a b false s = true.
Proof.
  induction s as [|c s IH]; intros H; [reflexivity|].
  cbn [free_of forallb] in H. apply andb_true_iff in H as [Hc H].
  cbn [no_seq_from]. rewrite andb_false_r. apply negb_true_iff in Hc. rewrite Hc.
  apply IH, H.
Qed.

Lemma no_seq_from_pair a b : forall u prev v,
  no_seq_from a b prev (u ++ a :: b :: v) = false.
Proof.
  induction u as [|c u IH]; intros prev v.
  - cbn [app no_seq_from]. rewrite !Ascii.eqb_refl. cbn [andb negb].
    apply andb_false_r.
  - cbn [app no_seq_from]. rewrite IH. apply andb_false_r.
Qed.

Lemma no_seq_from_suffix a b s1 : forall prev s2,
  no_seq_from a b prev (s1 ++ s2) = true -> exists prev', no_seq_from a b prev' s2 = true.
Proof.
  induction s1 as [|c s1 IH]; intros prev s2 H; [exists prev; exact H|].
  cbn [app no_seq_from] in H. apply andb_true_iff in H as [_ H]. exact (IH _ _ H).
Qed.

(** A text with a [b] right after an [a] does not start where no [b]
    comes right after an [a]. *)
Lemma startswith_no_seq a b o1 o2 s s1 s2 :
  no_seq_from a b false s = true -> s = s1 ++ s2 ->
  startswith (o1 ++ a :: b :: o2) s2 = false.
Proof.
  intros H ->. destruct (startswith (o1 ++ a :: b :: o2) s2) eqn:E; [|reflexivity].
  apply startswith_app in E. destruct (no_seq_from_suffix _ _ _ _ _ H) as [prev' H'].
  rewrite E, <- app_assoc in H'. cbn [app] in H'. rewrite no_seq_from_pair in H'.
  discriminate.
Qed.

Lemma replace_absent old new s :
  (forall s1 s2, s = s1 ++ s2 -> startswith old s2 = false) -> replace old new s = s.
Proof.
  unfold replace. induction s as [|c s IH]; intros H; [reflexivity|].
  cbn [replace_loop]. rewrite (H [] (c :: s) eq_refl). f_equal. apply IH.
  intros s1 s2 ->. apply (H (c :: s1) s2). reflexivity.
Qed.

Lemma replace_no_seq a b o1 o2 new s :
  no_seq_from a b false s = true -> replace (o1 ++ a :: b :: o2) new s = s.
Proof.
  intros H. apply replace_absent. intros s1 s2 E. exact (startswith_no_seq a b o1 o2 s s1 s2 H E).
Qed.

(** The text between two markers, when the markers are replaced. *)
Lemma replace_markers x old new t :
  startswith [x] old = true -> free_of x t = true ->
  replace old new (old ++ t ++ old) = new ++ t ++ new.
Proof.
  intros Hx Ht. destruct old as [|c old]; [discriminate|].
  cbn [startswith] in Hx. rewrite andb_true_r in Hx. apply Ascii.eqb_eq in Hx. subst c.
  rewrite replace_here by discriminate. f_equal.
  rewrite replace_free by exact Ht. f_equal.
  rewrite <- (app_nil_r (x :: old)) at 2. rewrite replace_here by discriminate.
  rewrite replace_nil. apply app_nil_r.
Qed.

(** ** The markup pass, stage by stage *)

(** The pass is the sequence of its stages, with the placeholders that it
    draws. *)
Lemma convert_markdown_to_org_stages uuid4 content st :
  fst (convert_markdown_to_org uuid4 content st)
  = markdown_with (take 8 (uuid4 (draws st))) (take 8 (uuid4 (1 + draws st)))
      (take 8 (uuid4 (2 + draws st))) (take 8 (uuid4 (3 + draws st)))
      (take 8 (uuid4 (4 + draws st))) content.
Proof. reflexivity. Qed.

(** ** Nested emphasis *)

(** *** Texts made of known characters and of hexadecimal digits *)

Lemma forallb_lit {A} (p : A -> bool) c u :
  p c = true -> forallb p u = true -> forallb p (c :: u) = true.
Proof. intros Hc Hu. cbn [forallb]. rewrite Hc, Hu. reflexivity. Qed.

Lemma forallb_hex (p : ascii -> bool) h u :
  forallb (fun c => implb (is_hex c) (p c)) all_chars = true ->
  forallb is_hex h = true -> forallb p u = true -> forallb p (h ++ u) = true.
Proof.
  intros Hall Hh Hu. rewrite forallb_app, Hu, andb_true_r.
  revert Hh. apply forallb_impl. apply all_chars_forall. exact Hall.
Qed.

(** A property of every character of a text in pieces. *)
Ltac pieces :=
  repeat first
    [ apply forallb_hex; [vm_compute; reflexivity | assumption |]
    | apply forallb_lit; [vm_compute; reflexivity |]
    | reflexivity ].

Lemma guarded_lit cs x prev c u :
  (if Ascii.eqb c x then prev else true) = true ->
  guarded cs x (cmatch no_flags cs c) u = true ->
  guarded cs x prev (c :: u) = true.
Proof. intros Hc Hu. cbn [guarded]. rewrite Hc, Hu. reflexivity. Qed.

Lemma guarded_hex cs x prev h u :
  free_of x h = true -> (forall prev', guarded cs x prev' u = true) ->
  guarded cs x prev (h ++ u) = true.
Proof. intros Hh Hu. apply guarded_app; [apply guarded_free, Hh | exact Hu]. Qed.

Lemma absent_nil old rest : absent_in old [] rest.
Proof. intros u1 c u2 E. destruct u1; discriminate E. Qed.

Lemma absent_lit old c u rest :
  startswith old (c :: u ++ rest) = false -> absent_in old u rest ->
  absent_in old (c :: u) rest.
Proof.
  intros Hc Hu u1 d u2 E. destruct u1 as [|e u1].
  - cbn [app] in E. injection E as <- <-. exact Hc.
  - cbn [app] in E. injection E as <- E. exact (Hu u1 d u2 E).
Qed.

Lemma absent_hex x old h u rest :
  startswith [x] old = true -> free_of x h = true -> absent_in old u rest ->
  absent_in old (h ++ u) rest.
Proof.
  intros Hx Hh Hu. destruct old as [|o old]; [discriminate|].
  cbn [startswith] in Hx. rewrite andb_true_r in Hx. apply Ascii.eqb_eq in Hx. subst o.
  induction h as [|c h IH]; [exact Hu|].
  cbn [free_of forallb] in Hh. apply andb_true_iff in Hh as [Hc Hh].
  cbn [app]. apply absent_lit; [|apply IH, Hh].
  cbn [startswith]. apply negb_true_iff in Hc. rewrite Ascii.eqb_sym, Hc. reflexivity.
Qed.

(** A text in which [old] does not start is passed by the replacement. *)
Lemma replace_skip old new u : forall rest,
  absent_in old u rest -> replace old new (u ++ rest) = u ++ replace old new rest.
Proof.
  unfold replace. induction u as [|c u IH]; intros rest H; [reflexivity|].
  cbn [app replace_loop]. rewrite (H [] c u eq_refl). f_equal. apply IH.
  intros u1 d u2 ->. apply (H (c :: u1) d u2). reflexivity.
Qed.

Lemma replace_skip_all old new u :
  absent_in old u [] -> replace old new u = u.
Proof.
  intros H. rewrite <- (app_nil_r u) at 1. rewrite replace_skip by exact H.
  rewrite replace_nil. apply app_nil_r.
Qed.

Lemma token_nonempty kind h : token kind h <> [].
Proof. discriminate. Qed.

Lemma free_of_hex_hash h : forallb is_hex h = true -> free_of "#" h = true.
Proof. apply free_of_hex. reflexivity. Qed.

Lemma token_bold_no_pair h : forallb is_hex h = true -> no_pair "_" (token "BOLD" h) = true.
Proof.
  intros Hh. change (token "BOLD" h) with ("##TEMP_BOLD" ++ "_"%char :: h ++ "##").
  apply no_pair_app; [reflexivity|]. cbn [no_pair].
  rewrite Ascii.eqb_refl, (no_pair_free "_" (h ++ "##"))
    by (rewrite free_of_app, (free_of_hex "_" h) by (reflexivity || exact Hh); reflexivity).
  rewrite andb_true_r. destruct h as [|c h]; [reflexivity|].
  cbn [app forallb] in *. apply andb_true_iff in Hh as [Hc _].
  apply negb_true_iff. destruct (Ascii.eqb_spec c "_") as [->|]; [discriminate | reflexivity].
Qed.

Lemma replace_whole old new : old <> [] -> replace old new old = new.
Proof.
  intros H. rewrite <- (app_nil_r old) at 2. rewrite replace_here by exact H.
  rewrite replace_nil. apply app_nil_r.
Qed.

(** *** The stages on the bold text with an italic part *)

Section BoldItalic.

(** The hexadecimal parts of the five placeholders. *)
Variables h1 h2 h3 h4 h5 : list ascii.
Hypothesis hex2 : forallb is_hex h2 = true.
Hypothesis hex3 : forallb is_hex h3 = true.

Local Abbreviation TC := (token "CODE" h1).
Local Abbreviation TB := (token "BOLD" h2).
Local Abbreviation TI := (token "ITALIC" h3).
Local Abbreviation TS := (token "STRIKE" h4).
Local Abbreviation TL := (token "LINK" h5).
Local Abbreviation source := ("**bold *and italic* text**" : list ascii).
Local Abbreviation inner_text := ("bold *and italic* text" : list ascii).
Local Abbreviation middle := ("bold " ++ TI ++ "and italic" ++ TI ++ " text").

Let free2 : free_of "#" h2 = true := free_of_hex_hash h2 hex2.
Let free3 : free_of "#" h3 = true := free_of_hex_hash h3 hex3.

Ltac open_text := unfold token; rewrite <- ?app_assoc; cbn [app list_ascii_of_string].

Lemma stage_preserve : preserve_stage source = (source, []).
Proof. vm_compute. reflexivity. Qed.

Lemma stage_blocks : block_stages source = source.
Proof. vm_compute. reflexivity. Qed.

Lemma stage_code_span f : re_sub no_flags re_code_span f source = source.
Proof. apply re_sub_silent, silent_starts; reflexivity. Qed.

Lemma stage_bold_star :
  re_sub no_flags re_bold_star (expand [PText TB; PRef 1; PText TB]) source
  = TB ++ inner_text ++ TB.
Proof.
  rewrite (re_sub_whole no_flags re_bold_star _ source
             {| m_all := source; m_caps := [(1, inner_text)] |}).
  - cbn [expand flat_map group' group m_caps cap_get Nat.eqb].
    rewrite !app_nil_r. reflexivity.
  - discriminate.
  - vm_compute. reflexivity.
  - reflexivity.
  - apply (match_at_end_word "**"). discriminate.
Qed.

Lemma stage_bold_underscore f :
  re_sub no_flags re_bold_underscore f (TB ++ inner_text ++ TB) = TB ++ inner_text ++ TB.
Proof.
  apply re_sub_quiet.
  - apply (quiet_no_pair "_").
    apply no_pair_app; [apply token_bold_no_pair, hex2|].
    apply no_pair_app; [reflexivity | apply token_bold_no_pair, hex2].
  - intros pre. apply (match_at_end_word "__"). discriminate.
Qed.

Lemma stage_italic_star :
  re_sub no_flags re_italic_star (expand [PText TI; PRef 1; PText TI])
    (TB ++ inner_text ++ TB)
  = TB ++ middle ++ TB.
Proof.
  unfold re_sub, re_sub_st.
  replace (TB ++ inner_text ++ TB)
    with ((TB ++ "bold ") ++ (("*" ++ "and italic" ++ "*") ++ (" text" ++ TB)))
    by (rewrite <- !app_assoc; reflexivity).
  rewrite sub_loop_copy.
  2:{ intros t1 c t2 E.
      apply (quiet_behind_first true (lit "*") "*" _ (TB ++ "bold ")); [|exact E].
      unfold free_of. open_text. pieces. }
  assert (Hm : match_at no_flags re_italic_star
                 (rev (TB ++ "bold ") ++ [],
                  ("*" ++ "and italic" ++ "*") ++ (" text" ++ TB))
               = Some {| m_all := "*" ++ "and italic" ++ "*";
                         m_caps := [(1, list_ascii_of_string "and italic")] |}).
  { apply match_at_italic_star.
    - rewrite rev_app_distr. reflexivity.
    - intros E. discriminate E.
    - reflexivity.
    - reflexivity. }
  assert (Hne : "*" ++ "and italic" ++ "*" <> []) by (intros E; discriminate E).
  rewrite (sub_loop_match _ _ _ _ _ _ _ _ Hne Hm eq_refl).
  rewrite sub_loop_quiet.
  - cbn [fst snd expand flat_map group' group m_caps cap_get Nat.eqb].
    rewrite <- ?app_assoc, ?app_nil_r. reflexivity.
  - apply (quiet_behind_first true (lit "*") "*"). unfold free_of. open_text. pieces.
  - apply match_at_behind_end.
Qed.

Lemma stage_italic_underscore f :
  re_sub no_flags re_italic_underscore f (TB ++ middle ++ TB) = TB ++ middle ++ TB.
Proof.
  apply re_sub_quiet; [|intros pre; apply match_at_behind_end].
  apply quiet_guarded. open_text.
  repeat first
    [ apply guarded_hex;
      [first [exact (free_of_hex "_" h2 eq_refl hex2) | exact (free_of_hex "_" h3 eq_refl hex3)]
      | intros ? ]
    | apply guarded_lit; [reflexivity |]
    | reflexivity ].
Qed.

Lemma stage_strike f :
  re_sub no_flags re_strike f (TB ++ middle ++ TB) = TB ++ middle ++ TB.
Proof.
  apply re_sub_silent, silent_starts; [reflexivity|].
  unfold starts_none. open_text. pieces.
Qed.

Lemma stage_md_link f :
  re_sub no_flags re_md_link f (TB ++ middle ++ TB) = TB ++ middle ++ TB.
Proof.
  apply re_sub_silent, silent_starts; [reflexivity|].
  unfold starts_none. open_text. pieces.
Qed.

Lemma stage_inline :
  inline_stages h1 h2 h3 h4 h5 source = TB ++ middle ++ TB.
Proof.
  unfold inline_stages.
  rewrite stage_code_span, stage_bold_star, stage_bold_underscore, stage_italic_star,
    stage_italic_underscore, stage_strike, stage_md_link.
  reflexivity.
Qed.

Lemma stage_tables : convert_tables (TB ++ middle ++ TB) = TB ++ middle ++ TB.
Proof. apply convert_tables_idle. unfold free_of. open_text. pieces. Qed.

Ltac absent :=
  open_text;
  repeat first
    [ apply absent_nil
    | apply (absent_hex "#"); [reflexivity | first [exact free2 | exact free3] |]
    | apply absent_lit; [reflexivity |] ].

Lemma stage_replace_code :
  replace TC "=" (TB ++ middle ++ TB) = TB ++ middle ++ TB.
Proof. apply replace_skip_all. absent. Qed.

Lemma stage_replace_bold :
  replace TB "*" (TB ++ middle ++ TB) = "*" ++ middle ++ "*".
Proof.
  rewrite replace_here by apply token_nonempty.
  rewrite (replace_skip _ _ middle TB) by absent.
  rewrite replace_whole by apply token_nonempty. reflexivity.
Qed.

Lemma stage_replace_italic :
  replace TI "/" ("*" ++ middle ++ "*") = "*bold /and italic/ text*".
Proof.
  rewrite <- ?app_assoc.
  rewrite (replace_skip _ _ "*") by absent.
  rewrite (replace_skip _ _ "bold ") by absent.
  rewrite replace_here by apply token_nonempty.
  rewrite (replace_skip _ _ "and italic") by absent.
  rewrite replace_here by apply token_nonempty.
  rewrite (replace_skip _ _ " text") by absent.
  rewrite (replace_skip_all _ _ "*") by absent.
  reflexivity.
Qed.

Lemma stage_tokens :
  token_stages h1 h2 h3 h4 h5 (TB ++ middle ++ TB) = "*bold /and italic/ text*".
Proof.
  unfold token_stages.
  rewrite stage_replace_code, stage_replace_bold, stage_replace_italic.
  rewrite (replace_idle "#") by reflexivity.
  apply re_sub_silent, silent_starts; reflexivity.
Qed.

(** The pass on the text, for every choice of the placeholders. *)
Lemma markdown_with_bold_italic :
  markdown_with h1 h2 h3 h4 h5 source = "*bold /and italic/ text*".
Proof.
  unfold markdown_with. rewrite stage_preserve. cbn [fst snd].
  rewrite stage_blocks, stage_inline, stage_tables, stage_tokens. reflexivity.
Qed.

End BoldItalic.

Lemma hex_digit k :
  is_hex (nth k (list_ascii_of_string "0123456789abcdef") "0"%char) = true.
Proof. do 16 (destruct k as [|k]; [reflexivity|]). destruct k; reflexivity. Qed.

Lemma uuid_varied_hex : hex_supply uuid_varied.
Proof.
  intros n. unfold uuid_varied. cbn [repeat app take firstn forallb].
  rewrite hex_digit. reflexivity.
Qed.

(** ** Emphasis *)

(** C10. "**bold *and italic* text**" is converted to
    "*bold /and italic/ text*": the italic markers are inside the bold
    markers, and no placeholder is left. This holds whatever placeholders
    the pass draws, their eight characters being hexadecimal digits, and
    in whatever state the converter is. *)
Theorem bold_italic_nested (uuid4 : nat -> list ascii) (st : conv) :
  hex_supply uuid4 ->
  fst (convert_markdown_to_org uuid4 "**bold *and italic* text**" st)
  = "*bold /and italic/ text*".
Proof.
  intros H. rewrite convert_markdown_to_org_stages.
  apply markdown_with_bold_italic; apply H.
Qed.

Lemma bold_italic_nested_witness :
  hex_supply uuid_varied
  /\ fst (convert_markdown_to_org uuid_varied "**bold *and italic* text**"
            (set_draws (fun _ => 9) conv_init))
     = "*bold /and italic/ text*".
Proof.
  split; [exact uuid_varied_hex|].
  apply (bold_italic_nested uuid_varied (set_draws (fun _ => 9) conv_init) uuid_varied_hex).
Defined.

(** X23. A text without a character of markup - none of [ * # - ` > _ ~ and
    of the vertical bar - passes [convert_markdown_to_org] unchanged; the
    pass draws its five placeholders and changes nothing else of the
    converter. *)
Theorem convert_markdown_to_org_plain (uuid4 : nat -> list ascii) (t : list ascii)
    (st : conv) :
  plain_text t = true ->
  convert_markdown_to_org uuid4 t st = (t, set_draws (Nat.add 5) st).
Proof. apply convert_markdown_to_org_plain_text. Qed.

Lemma convert_markdown_to_org_plain_witness :
  plain_text ("Meeting notes: call Ann (3 pm)." ++ nl ++ "Then lunch.") = true
  /\ convert_markdown_to_org uuid_demo
       ("Meeting notes: call Ann (3 pm)." ++ nl ++ "Then lunch.") conv_init
     = ("Meeting notes: call Ann (3 pm)." ++ nl ++ "Then lunch.",
        set_draws (Nat.add 5) conv_init).
Proof.
  split; [reflexivity|].
  apply (convert_markdown_to_org_plain uuid_demo
           ("Meeting notes: call Ann (3 pm)." ++ nl ++ "Then lunch.") conv_init).
  reflexivity.
Defined.
